(** * Kava balance checker: block resolver, gateway, date validation and
      ERC20 call encoding

    Shallow embedding of [kava_balance_checker.py] and
    [wkava_balance_checker.py].  Heights, timestamps and balances are
    Python integers and are modelled by [Z]; strings are modelled by
    [string], a character being its code point in [0..255].  The two
    functions that read a caller's string character by character,
    [validate_date] and [decode_balance_result], are also given over
    strings of arbitrary code points, in the module [Unicode]. *)

From Equations Require Import Equations.
From Equations.Prop Require Import Logic.
From Stdlib Require Import ZArith NArith List Bool Lia String Ascii.
Import ListNotations.
Open Scope Z_scope.

(** ** Block resolver: [find_last_block_of_day] *)

(** What one probe [get_block_by_number(mid)] followed by
    [int(block["timestamp"], 16)] can do inside the [try] block of the loop:
    raise (any exception of the gateway call or of reading the timestamp),
    return [None], or yield a block with a timestamp. *)
Inductive probe_outcome : Type :=
| Raises
| NoBlock
| Block (block_timestamp : Z).

(** The local variables of the loop. *)
Record search_state : Type := mk_state {
  left : Z;
  right : Z;
  result_block : option Z
}.

Definition midpoint (st : search_state) : Z := (left st + right st) / 2.

(** Size of the closed interval [[left, right]]. *)
Definition interval_size (st : search_state) : nat :=
  Z.to_nat (right st - left st + 1).

Section Resolver.

Variable get_block_by_number : Z -> probe_outcome.
Variable target_timestamp : Z.

(** One evaluation of the guard [left <= right] followed, when it
    holds, by one execution of the loop body.  [None] means that the
    guard failed and the loop is left. *)
Definition iteration (st : search_state) : option search_state :=
  if left st <=? right st then
    let mid := midpoint st in
    match get_block_by_number mid with
    | Raises => Some (mk_state (left st) (mid - 1) (result_block st))
    | NoBlock => Some (mk_state (left st) (mid - 1) (result_block st))
    | Block block_timestamp =>
        if block_timestamp <=? target_timestamp
        then Some (mk_state (mid + 1) (right st) (Some mid))
        else Some (mk_state (left st) (mid - 1) (result_block st))
    end
  else None.

(** An iteration leaves a strictly smaller interval: the measure of the
    loop. *)
Lemma iteration_shrinks st st' :
  iteration st = Some st' -> (interval_size st' < interval_size st)%nat.
Proof.
  unfold iteration, interval_size, midpoint.
  destruct (Z.leb_spec (left st) (right st)) as [Hle | Hgt]; [| discriminate].
  pose proof (Z.div_mod (left st + right st) 2 ltac:(lia)) as Hdm.
  pose proof (Z.mod_pos_bound (left st + right st) 2 ltac:(lia)) as Hmb.
  destruct (get_block_by_number _) as [ | | ts];
    [ | | destruct (ts <=? target_timestamp) ];
    intros [= <-]; cbn [left right]; lia.
Qed.

(** The [while] loop. *)
Equations? while_loop (st : search_state) : option Z
  by wf (interval_size st) lt :=
  while_loop st with inspect (iteration st) := {
    | exist _ (Some st') Hit => while_loop st'
    | exist _ None _ => result_block st
  }.
Proof. now apply iteration_shrinks. Qed.

(** [find_last_block_of_day], given the height [latest_block] that
    [get_block_number()] returned. *)
Definition entry_state (latest_block : Z) : search_state :=
  mk_state 0 latest_block None.

Definition find_last_block_of_day (latest_block : Z) : option Z :=
  while_loop (entry_state latest_block).

(** The heights probed by the loop from a state on, in order. *)
Equations? probed_heights (st : search_state) : list Z
  by wf (interval_size st) lt :=
  probed_heights st with inspect (iteration st) := {
    | exist _ (Some st') Hit => midpoint st :: probed_heights st'
    | exist _ None _ => []
  }.
Proof. now apply iteration_shrinks. Qed.


(** A probe that confirms its height: it succeeded and the block's
    timestamp does not exceed the target. *)
Definition confirmed (h : Z) : bool :=
  match get_block_by_number h with
  | Block block_timestamp => block_timestamp <=? target_timestamp
  | _ => false
  end.

(** [reaches latest hs st]: the loop started by
    [find_last_block_of_day] with head height [latest] is at the state
    [st] before a guard evaluation, having probed the heights [hs]
    (latest probe first). *)
Inductive reaches (latest_block : Z) : list Z -> search_state -> Prop :=
| reaches_entry : reaches latest_block [] (entry_state latest_block)
| reaches_iteration hs st st' :
    reaches latest_block hs st ->
    iteration st = Some st' ->
    reaches latest_block (midpoint st :: hs) st'.

(** What holds of every state the loop reaches: the bounds stay inside
    [[0, latest]], every probed height is in range, confirmed heights lie
    below [left], and [result_block] is the highest confirmed height. *)
Definition resolver_invariant (latest : Z) (hs : list Z)
           (st : search_state) : Prop :=
  0 <= left st /\ right st <= latest /\
  (forall h, In h hs -> 0 <= h <= latest) /\
  (forall h, In h hs -> confirmed h = true -> h < left st) /\
  match result_block st with
  | None => forall h, In h hs -> confirmed h = false
  | Some b =>
      In b hs /\ confirmed b = true /\
      forall h, In h hs -> confirmed h = true -> h <= b
  end.

End Resolver.


(** Invariant of the search over a total, monotone chain: everything
    below [left] qualifies, everything above [right] does not, and
    [result_block] is [left - 1] once [left] has moved. *)
Definition bisection_invariant (ts : Z -> Z) (target latest : Z)
           (st : search_state) : Prop :=
  0 <= left st <= right st + 1 /\ right st <= latest /\
  (forall h, 0 <= h < left st -> ts h <= target) /\
  (forall h, right st < h <= latest -> target < ts h) /\
  result_block st = if left st =? 0 then None else Some (left st - 1).


(** The mock chain of the end-to-end scenario: timestamps [height * 1000]. *)
Definition mock_chain (h : Z) : probe_outcome := Block (h * 1000).

(** ** RPC gateway: [KavaRPCClient._make_rpc_call] *)

(** Values produced by [json.loads]; a dict is an association list read
    by its first binding of a key. *)
#[warnings="-register-all"] Inductive json : Type :=
| JNull
| JBool (b : bool)
| JInt (n : Z)
| JFloat (literal : string)
| JString (s : string)
| JArray (items : list json)
| JObject (fields : list (string * json)).

Fixpoint dict_get (key : string) (fields : list (string * json))
  : option json :=
  match fields with
  | [] => None
  | (k, v) :: rest => if String.eqb k key then Some v else dict_get key rest
  end.

(** [key in d] for a dict [d]. *)
Definition dict_has (key : string) (fields : list (string * json)) : bool :=
  match dict_get key fields with Some _ => true | None => false end.

(** The request envelope [{"jsonrpc": "2.0", "method": method,
    "params": params, "id": 1}]. *)
Definition payload (method : string) (params : list json) : json :=
  JObject [("jsonrpc", JString "2.0"); ("method", JString method);
           ("params", JArray params); ("id", JInt 1)]%string.

(** What sending the request and reading the reply
    ([urlopen(...)], [response.read().decode('utf-8')]) can do. *)
Inductive transport_outcome : Type :=
| RaisesURLError (reason : string)
| RaisesOther (exn : string)
| ResponseText (body : string).

(** The exceptions that leave [_make_rpc_call]. *)
Inductive rpc_exception : Type :=
| NetworkError (reason : string)   (* Exception("Network error: ...") *)
| InvalidJSONResponse              (* Exception("Invalid JSON response: ...") *)
| RPCError (error : json)          (* Exception("RPC error: ...") *)
| KeyError (key : string)
| TypeError
| Uncaught (exn : string).

Inductive rpc_result : Type :=
| Returns (value : json)
| Fails (e : rpc_exception).

Section Gateway.

(** [json.loads]: [None] stands for [json.JSONDecodeError]. *)
Variable json_loads : string -> option json.
(** The remote end: its reply to a posted payload may depend on the
    payloads posted before. *)
Variable urlopen : list json -> json -> transport_outcome.

(** The statements after [json.loads]: the test ["error" in result] and
    the subscripts [result['error']], [result["result"]]. *)
Definition read_response (result : json) : rpc_result :=
  match result with
  | JObject fields =>
      if dict_has "error" fields then
        match dict_get "error" fields with
        | Some err => Fails (RPCError err)
        | None => Fails (KeyError "error")
        end
      else
        match dict_get "result" fields with
        | Some value => Returns value
        | None => Fails (KeyError "result")
        end
  | JString _ | JArray _ =>
      (* [in] is defined; both subscripts by a string then raise *)
      Fails TypeError
  | JNull | JBool _ | JInt _ | JFloat _ =>
      (* [in] itself raises *)
      Fails TypeError
  end.

(** [_make_rpc_call(method, params)].  The state threaded through is the
    list of payloads posted so far. *)
Definition _make_rpc_call (method : string) (params : list json)
           (sent : list json) : rpc_result * list json :=
  let req := payload method params in
  let outcome :=
    match urlopen sent req with
    | RaisesURLError reason => Fails (NetworkError reason)
    | RaisesOther exn => Fails (Uncaught exn)
    | ResponseText body =>
        match json_loads body with
        | None => Fails InvalidJSONResponse
        | Some result => read_response result
        end
    end in
  (outcome, sent ++ [req]).

End Gateway.



(** ** Characters and strings

    A character is modelled by its code point, which [ascii] restricts to
    [0..255]. *)

Definition code (c : ascii) : nat := nat_of_ascii c.

Definition in_range (lo hi : nat) (c : ascii) : bool :=
  (Nat.leb lo (code c) && Nat.leb (code c) hi)%bool.

(** ['0'..'9'], the only decimal digits among the code points [0..255]. *)
Definition is_digit (c : ascii) : bool := in_range 48 57 c.

Definition digit_value (c : ascii) : Z := Z.of_nat (code c - 48).

(** [needle in hay] for two strings. *)
Fixpoint contains (needle hay : string) : bool :=
  (String.prefix needle hay ||
   match hay with
   | EmptyString => false
   | String _ rest => contains needle rest
   end)%bool.

(** ** Date validation: [validate_date] *)

Record date : Type := mk_date { year : Z; month : Z; day : Z }.

Inductive tz : Type := UTC.

Record datetime : Type := mk_datetime {
  dt_date : date;
  hour : Z;
  minute : Z;
  second : Z;
  tzinfo : option tz
}.

(** Comparison of dates, by year, then month, then day. *)
Definition date_gt (a b : date) : bool :=
  (year b <? year a) ||
  ((year a =? year b) &&
   ((month b <? month a) || ((month a =? month b) && (day b <? day a)))).

Definition is_leap (y : Z) : bool :=
  ((y mod 4 =? 0) && negb (y mod 100 =? 0)) || (y mod 400 =? 0).

Definition days_in_month (y m : Z) : Z :=
  if m =? 2 then (if is_leap y then 29 else 28)
  else if (m =? 4) || (m =? 6) || (m =? 9) || (m =? 11) then 30
  else 31.

(** *** [datetime.strptime(date_str, "%Y-%m-%d")]

    The format compiles to the regular expression
    [(?P<Y>\d\d\d\d)-(?P<m>1[0-2]|0[1-9]|[1-9])-]
    [(?P<d>3[0-1]|[1-2]\d|0[1-9]|[1-9]| [1-9])],
    matched at the start of the string; alternatives are tried in order,
    and a later one is tried when the rest fails after an earlier one. *)

Definition match_Y (s : list ascii) : option (Z * list ascii) :=
  match s with
  | a :: b :: c :: d :: rest =>
      if is_digit a && is_digit b && is_digit c && is_digit d
      then Some (1000 * digit_value a + 100 * digit_value b
                 + 10 * digit_value c + digit_value d, rest)
      else None
  | _ => None
  end.

Definition match_dash (s : list ascii) : option (list ascii) :=
  match s with
  | c :: rest => if Ascii.eqb c "-" then Some rest else None
  | [] => None
  end.

(** The ways the month group can match, in the order of its
    alternatives. *)
Definition m_alternatives (s : list ascii) : list (Z * list ascii) :=
  match s with
  | a :: b :: rest =>
      (if Ascii.eqb a "1" && in_range 48 50 b
       then [(10 + digit_value b, rest)] else []) ++
      (if Ascii.eqb a "0" && in_range 49 57 b
       then [(digit_value b, rest)] else []) ++
      (if in_range 49 57 a then [(digit_value a, b :: rest)] else [])
  | [a] => if in_range 49 57 a then [(digit_value a, [])] else []
  | [] => []
  end.

(** The day group is last: its first matching alternative is taken. *)
Definition match_d (s : list ascii) : option (Z * list ascii) :=
  match s with
  | a :: s' =>
      match s' with
      | b :: rest =>
          if Ascii.eqb a "3" && in_range 48 49 b
          then Some (30 + digit_value b, rest)
          else if in_range 49 50 a && is_digit b
          then Some (10 * digit_value a + digit_value b, rest)
          else if Ascii.eqb a "0" && in_range 49 57 b
          then Some (digit_value b, rest)
          else if in_range 49 57 a
          then Some (digit_value a, s')
          else if Ascii.eqb a " " && in_range 49 57 b
          then Some (digit_value b, rest)
          else None
      | [] => if in_range 49 57 a then Some (digit_value a, []) else None
      end
  | [] => None
  end.

(** First month alternative after which ["-"] and the day group match. *)
Fixpoint match_m_dash_d (alts : list (Z * list ascii))
  : option (Z * Z * list ascii) :=
  match alts with
  | [] => None
  | (m, after_m) :: alts' =>
      match match_dash after_m with
      | Some after_dash =>
          match match_d after_dash with
          | Some (d, rest) => Some (m, d, rest)
          | None => match_m_dash_d alts'
          end
      | None => match_m_dash_d alts'
      end
  end.

(** [format_regex.match(data_string)]: the three groups and the text left
    after the match. *)
Definition regex_match (s : list ascii) : option (Z * Z * Z * list ascii) :=
  match match_Y s with
  | Some (y, after_y) =>
      match match_dash after_y with
      | Some after_dash =>
          match match_m_dash_d (m_alternatives after_dash) with
          | Some (m, d, rest) => Some (y, m, d, rest)
          | None => None
          end
      | None => None
      end
  | None => None
  end.

(** [repr] of a string (escapes are not modelled). *)
Definition py_repr (s : string) : string := "'" ++ s ++ "'".

(** [strptime] returns a naive datetime at midnight or raises
    [ValueError] with a message. *)
Definition strptime (date_str : string) : datetime + string :=
  match regex_match (list_ascii_of_string date_str) with
  | None =>
      inr ("time data " ++ py_repr date_str
           ++ " does not match format '%Y-%m-%d'")%string
  | Some (y, m, d, rest) =>
      match rest with
      | _ :: _ =>
          inr ("unconverted data remains: "
               ++ string_of_list_ascii rest)%string
      | [] =>
          if y <? 1 then inr "year 0 is out of range"%string
          else if days_in_month y m <? d
          then inr "day is out of range for month"%string
          else inl (mk_datetime (mk_date y m d) 0 0 0 None)
      end
  end.

Inductive validate_result : Type :=
| Valid (date_obj : datetime)
| RaisesValueError (message : string).

Definition InvalidDateFormat : validate_result :=
  RaisesValueError "Invalid date format. Use YYYY-MM-DD format".

Definition FutureDateError : validate_result :=
  RaisesValueError "Date cannot be in the future".

(** The [except ValueError as e] clause. *)
Definition on_value_error (message : string) : validate_result :=
  if contains "time data" message
  then RaisesValueError "Invalid date format. Use YYYY-MM-DD format"
  else RaisesValueError message.

(** [validate_date(date_str)], where [today] is
    [datetime.now(timezone.utc).date()]. *)
Definition validate_date (date_str : string) (today : date)
  : validate_result :=
  match strptime date_str with
  | inr message => on_value_error message
  | inl parsed =>
      let date_obj :=
        mk_datetime (dt_date parsed) (hour parsed) (minute parsed)
                    (second parsed) (Some UTC) in
      if date_gt (dt_date date_obj) today
      then on_value_error "Date cannot be in the future"
      else Valid date_obj
  end.

(** The calendar day after [d] ("tomorrow" when [d] is today). *)
Definition next_day (d : date) : date :=
  if day d <? days_in_month (year d) (month d)
  then mk_date (year d) (month d) (day d + 1)
  else if month d <? 12 then mk_date (year d) (month d + 1) 1
  else mk_date (year d + 1) 1 1.

(** A date of the proleptic Gregorian calendar, as [datetime.date] holds. *)
Definition valid_date (d : date) : Prop :=
  1 <= year d <= 9999 /\ 1 <= month d <= 12 /\
  1 <= day d <= days_in_month (year d) (month d).

(** The strict form: ten characters, [dddd-dd-dd]. *)
Definition strict_form (s : string) : bool :=
  match list_ascii_of_string s with
  | [y1; y2; y3; y4; d1; m1; m2; d2; a1; a2] =>
      is_digit y1 && is_digit y2 && is_digit y3 && is_digit y4 &&
      Ascii.eqb d1 "-" && is_digit m1 && is_digit m2 &&
      Ascii.eqb d2 "-" && is_digit a1 && is_digit a2
  | _ => false
  end.

(** *** The texts the format accepts, stated without the matcher *)

(** Four digits writing [y]. *)
Definition year_text (t : list ascii) (y : Z) : Prop :=
  exists a b c d,
    t = [a; b; c; d] /\
    is_digit a = true /\ is_digit b = true /\
    is_digit c = true /\ is_digit d = true /\
    y = 1000 * digit_value a + 100 * digit_value b
        + 10 * digit_value c + digit_value d.

(** A month [1..12] in one or two digits. *)
Definition month_text (t : list ascii) (m : Z) : Prop :=
  1 <= m <= 12 /\
  ((exists a b, t = [a; b] /\ is_digit a = true /\ is_digit b = true /\
                m = 10 * digit_value a + digit_value b) \/
   (exists a, t = [a] /\ is_digit a = true /\ m = digit_value a)).

(** A day [1..31] in one or two digits, or a space and one digit. *)
Definition day_text (t : list ascii) (d : Z) : Prop :=
  1 <= d <= 31 /\
  ((exists a b, t = [a; b] /\ is_digit a = true /\ is_digit b = true /\
                d = 10 * digit_value a + digit_value b) \/
   (exists a, t = [a] /\ is_digit a = true /\ d = digit_value a) \/
   (exists a, t = [" "%char; a] /\ is_digit a = true /\ d = digit_value a)).

(** [s] starts with a year, a month and a day text separated by ["-"],
    and [rest] follows. *)
Definition pattern_prefix (s : list ascii) (y m d : Z) (rest : list ascii)
  : Prop :=
  exists yt mt dt,
    s = yt ++ "-"%char :: mt ++ "-"%char :: dt ++ rest /\
    year_text yt y /\ month_text mt m /\ day_text dt d.

(** ** ERC20 call encoding and decoding: [encode_balance_of_call],
       [decode_balance_result] *)

(** [str.lower] on the code points [0..255]: [A-Z] and the upper-case
    letters [U+00C0..U+00DE] (except the multiplication sign [U+00D7])
    move up by 32. *)
Definition lower_char (c : ascii) : ascii :=
  if in_range 65 90 c
     || (in_range 192 222 c && negb (Nat.eqb (code c) 215))
  then ascii_of_nat (code c + 32) else c.

Fixpoint lower (s : string) : string :=
  match s with
  | EmptyString => EmptyString
  | String c rest => String (lower_char c) (lower rest)
  end.

(** The slice [s[n:]]. *)
Fixpoint slice_from (n : nat) (s : string) : string :=
  match n, s with
  | O, _ => s
  | S n', String _ rest => slice_from n' rest
  | S _, EmptyString => EmptyString
  end.

Fixpoint zeros (n : nat) : string :=
  match n with
  | O => EmptyString
  | S n' => String "0" (zeros n')
  end.

(** [str.zfill(width)]: zeros go after a leading sign. *)
Definition zfill (width : nat) (s : string) : string :=
  if Nat.leb width (String.length s) then s
  else
    let pad := zeros (width - String.length s) in
    match s with
    | String c rest =>
        if Ascii.eqb c "+" || Ascii.eqb c "-"
        then String c (pad ++ rest)
        else (pad ++ s)%string
    | EmptyString => pad
    end.

Definition encode_balance_of_call (address : string) : string :=
  let function_selector := "70a08231"%string in
  let address_param := zfill 64 (lower (slice_from 2 address)) in
  ("0x" ++ function_selector ++ address_param)%string.

(** *** [int(result, 16)] *)

(** Whitespace skipped by [int]: the ASCII characters tab to carriage
    return and space, and the white space [U+0085], [U+00A0], which the
    conversion of a non-ASCII string turns into a space. *)
Definition is_space (c : ascii) : bool :=
  in_range 9 13 c || Nat.eqb (code c) 32
  || Nat.eqb (code c) 133 || Nat.eqb (code c) 160.

Definition hex_value (c : ascii) : option Z :=
  if is_digit c then Some (digit_value c)
  else if in_range 97 102 c then Some (Z.of_nat (code c - 87))
  else if in_range 65 70 c then Some (Z.of_nat (code c - 55))
  else None.

Definition is_hex (c : ascii) : bool :=
  match hex_value c with Some _ => true | None => false end.

Fixpoint skip_spaces (s : list ascii) : list ascii :=
  match s with
  | c :: rest => if is_space c then skip_spaces rest else s
  | [] => []
  end.

(** The digits and single underscores from the front of [s]: [None] for
    two underscores in a row or an underscore at the end of the run,
    otherwise the value, the number of digits and the text after. *)
Fixpoint scan_digits (s : list ascii) (value : Z) (digits : nat)
         (after_underscore : bool) : option (Z * nat * list ascii) :=
  match s with
  | c :: rest =>
      match hex_value c with
      | Some v => scan_digits rest (16 * value + v) (S digits) false
      | None =>
          if Ascii.eqb c "_" then
            if after_underscore then None
            else scan_digits rest value digits true
          else if after_underscore then None
          else Some (value, digits, s)
      end
  | [] => if after_underscore then None else Some (value, digits, [])
  end.

(** After the sign: an optional [0x] or [0X], after which one underscore
    may follow. *)
Definition skip_underscore (s : list ascii) : list ascii :=
  match s with
  | c :: rest => if Ascii.eqb c "_" then rest else s
  | [] => []
  end.

Definition skip_prefix (s : list ascii) : list ascii :=
  match s with
  | z :: x :: rest =>
      if Ascii.eqb z "0" && (Ascii.eqb x "x" || Ascii.eqb x "X")
      then skip_underscore rest
      else s
  | _ => s
  end.

(** An optional sign: whether it was ["-"], and the text after it. *)
Definition skip_sign (s : list ascii) : bool * list ascii :=
  match s with
  | c :: rest =>
      if Ascii.eqb c "+" then (false, rest)
      else if Ascii.eqb c "-" then (true, rest)
      else (false, s)
  | [] => (false, [])
  end.

Definition starts_with_underscore (s : list ascii) : bool :=
  match s with
  | c :: _ => Ascii.eqb c "_"
  | [] => false
  end.

(** [int(s, 16)]; [None] stands for [ValueError]. *)
Definition int16 (s : string) : option Z :=
  let s1 := skip_spaces (list_ascii_of_string s) in
  let '(negative, s2) := skip_sign s1 in
  let s3 := skip_prefix s2 in
  if starts_with_underscore s3 then None
  else
    match scan_digits s3 0 0 false with
    | Some (value, S _, rest) =>
        match skip_spaces rest with
        | [] => Some (if negative then - value else value)
        | _ :: _ => None
        end
    | _ => None
    end.

Inductive decode_result : Type :=
| Decoded (balance : Z)
| DecodeError.   (* the [ValueError] of [int] *)

Definition decode_balance_result (result : string) : decode_result :=
  if String.eqb result "0x" then Decoded 0
  else match int16 result with
       | Some n => Decoded n
       | None => DecodeError
       end.

(** The number written by a list of hex digits, most significant first. *)
Definition hex_number (digits : list ascii) : Z :=
  fold_left (fun acc c =>
               16 * acc + match hex_value c with Some v => v | None => 0 end)
            digits 0.

(** The characters a literal accepted by [int(s, 16)] is made of. *)
Definition literal_char (c : ascii) : bool :=
  is_hex c || is_space c || Ascii.eqb c "_" || Ascii.eqb c "x"
  || Ascii.eqb c "X" || Ascii.eqb c "+" || Ascii.eqb c "-".

Definition literal_chars (s : list ascii) : Prop :=
  Forall (fun c => literal_char c = true) s.

(** ** Timestamps of a day: [date_to_timestamps] *)

(** Days before January 1st of year [y], and before the first of month
    [m] in year [y], as [datetime] counts them. *)
Definition days_before_year (y : Z) : Z :=
  let y' := y - 1 in y' * 365 + y' / 4 - y' / 100 + y' / 400.

Definition days_before_month (y m : Z) : Z :=
  nth (Z.to_nat m)
      [-1; 0; 31; 59; 90; 120; 151; 181; 212; 243; 273; 304; 334] 0
  + (if (2 <? m) && is_leap y then 1 else 0).

(** [date.toordinal()]: 1 for 0001-01-01. *)
Definition toordinal (d : date) : Z :=
  days_before_year (year d) + days_before_month (year d) (month d) + day d.

Section Timestamps.

(** [datetime.timestamp()] of a naive datetime goes through the local
    time zone of the platform. *)
Variable mktime : datetime -> Z.

(** [int(date_obj.timestamp())].  For an aware datetime the value is
    [(date_obj - datetime(1970, 1, 1, tzinfo=utc)).total_seconds()], a
    whole number of seconds here, which the float holds exactly. *)
Definition timestamp (date_obj : datetime) : Z :=
  match tzinfo date_obj with
  | Some UTC =>
      (toordinal (dt_date date_obj) - 719163) * 86400
      + hour date_obj * 3600 + minute date_obj * 60 + second date_obj
  | None => mktime date_obj
  end.

Definition date_to_timestamps (date_obj : datetime) : Z * Z :=
  let start_of_day := timestamp date_obj in
  let end_of_day := start_of_day + 86399 in
  (start_of_day, end_of_day).

End Timestamps.

(** Midnight UTC of a date, as [validate_date] returns it. *)
Definition utc_midnight (d : date) : datetime :=
  mk_datetime d 0 0 0 (Some UTC).

(** ** Heights in requests: [hex] *)

Definition hex_digit (d : Z) : ascii :=
  ascii_of_nat (Z.to_nat (if d <? 10 then 48 + d else 87 + d)).

(** The digits of [n >= 0] in base 16, most significant first. *)
Equations? hex_digits (n : Z) : list ascii by wf (Z.to_nat (Z.log2 n)) lt :=
  hex_digits n with inspect (n <? 16) := {
    | exist _ true _ => [hex_digit n]
    | exist _ false Hge => hex_digits (n / 16) ++ [hex_digit (n mod 16)]
  }.
Proof.
  apply Z.ltb_ge in Hge.
  pose proof (Z.log2_le_mono 16 n Hge) as Hlog.
  change (Z.log2 16) with 4 in Hlog.
  change 16 with (2 ^ 4). rewrite <- Z.shiftr_div_pow2 by lia.
  rewrite Z.log2_shiftr by lia. lia.
Qed.

(** [hex(n)]. *)
Definition hex (n : Z) : string :=
  if n <? 0
  then ("-0x" ++ string_of_list_ascii (hex_digits (- n)))%string
  else ("0x" ++ string_of_list_ascii (hex_digits n))%string.

(** ** The client methods and the query: [get_block_number],
       [get_block_by_number], [get_balance], [call_contract],
       [find_last_block_of_day] over the gateway, [get_wkava_balance],
       [get_balance_on_date] *)

Module Client.

(** Exceptions that travel through the client and the query. *)
Inductive exception : Type :=
| GatewayException (e : rpc_exception)  (* raised by [_make_rpc_call] *)
| IntTypeError                     (* [int(x, 16)], [x] not a string *)
| IntValueError (literal : string) (* [int(s, 16)], [s] not a literal *)
| SubscriptTypeError               (* [x["timestamp"]], [x] not a dict *)
| SubscriptKeyError (key : string) (* [d["timestamp"]], key missing *)
| DateValueError (message : string)     (* raised by [validate_date] *)
| NoBlocksFound (date_str : string)
                       (* Exception("No blocks found for date ...") *)
| FromTimestampError   (* [datetime.fromtimestamp] out of range *)
| DivisionOverflow.    (* [wei_amount / 10 ** 18] too large for a float *)

Inductive outcome (A : Type) : Type :=
| Returned (a : A)
| Raised (e : exception).
Arguments Returned {A} a.
Arguments Raised {A} e.

(** Lines written by [print]; the text of a line is not modelled, only
    what it reports. *)
Inductive output_line : Type :=
| FindingLine (address date_str : string)
| LookingLine (end_timestamp : Z)
| WarningLine (mid : Z) (e : exception).

(** The requests posted and the lines printed so far. *)
Record world : Type := mk_world {
  posted : list json;
  printed : list output_line
}.

Definition lift (r : rpc_result) : outcome json :=
  match r with
  | Returns value => Returned value
  | Fails e => Raised (GatewayException e)
  end.

(** [int(x, 16)] on a value of a reply. *)
Definition int_json (x : json) : outcome Z :=
  match x with
  | JString s =>
      match int16 s with
      | Some n => Returned n
      | None => Raised (IntValueError s)
      end
  | _ => Raised IntTypeError
  end.

(** [x[key]] on a value of a reply, [key] a string. *)
Definition subscript (x : json) (key : string) : outcome json :=
  match x with
  | JObject fields =>
      match dict_get key fields with
      | Some value => Returned value
      | None => Raised (SubscriptKeyError key)
      end
  | _ => Raised SubscriptTypeError
  end.

(** [self.decode_balance_result(result)] on a value of a reply. *)
Definition decode_json (result : json) : outcome Z :=
  match result with
  | JString s =>
      match decode_balance_result s with
      | Decoded n => Returned n
      | DecodeError => Raised (IntValueError s)
      end
  | _ => Raised IntTypeError
  end.

Definition WKAVA_CONTRACT : string :=
  "0xc86c7C0eFbd6A49B35E8714C5f59D99De09A225b".

(** The params of the requests. *)
Definition block_params (block_number : Z) (include_transactions : bool)
  : list json :=
  [JString (hex block_number); JBool include_transactions].

Definition balance_params (address : string) (block_number : Z)
  : list json :=
  [JString address; JString (hex block_number)].

Definition call_params (to_address data : string) (block_number : Z)
  : list json :=
  [JObject [("to", JString to_address); ("data", JString data)]%string;
   JString (hex block_number)].

Section Methods.

Variable json_loads : string -> option json.
Variable urlopen : list json -> json -> transport_outcome.

Definition call (method : string) (params : list json) (sent : list json)
  : outcome json * list json :=
  let (result, sent') := _make_rpc_call json_loads urlopen method params sent in
  (lift result, sent').

Definition get_block_number (sent : list json) : outcome Z * list json :=
  let (result, sent') := call "eth_blockNumber" [] sent in
  (match result with
   | Returned value => int_json value
   | Raised e => Raised e
   end, sent').

Definition get_block_by_number (block_number : Z)
           (include_transactions : bool) (sent : list json)
  : outcome json * list json :=
  call "eth_getBlockByNumber"
       (block_params block_number include_transactions) sent.

Definition get_balance (address : string) (block_number : Z)
           (sent : list json) : outcome Z * list json :=
  let (result, sent') :=
    call "eth_getBalance" (balance_params address block_number) sent in
  (match result with
   | Returned value => int_json value
   | Raised e => Raised e
   end, sent').

Definition call_contract (to_address data : string) (block_number : Z)
           (sent : list json) : outcome json * list json :=
  call "eth_call" (call_params to_address data block_number) sent.

Definition get_wkava_balance (address : string) (block_number : Z)
           (sent : list json) : outcome Z * list json :=
  let call_data := encode_balance_of_call address in
  let (result, sent') :=
    call_contract WKAVA_CONTRACT call_data block_number sent in
  (match result with
   | Returned value => decode_json value
   | Raised e => Raised e
   end, sent').

(** The [try] block of the search loop for the height [mid]: the block's
    timestamp, [None] for an absent block, or the exception caught by
    [except Exception]. *)
Definition read_timestamp (block : json) : outcome Z :=
  match subscript block "timestamp" with
  | Returned value => int_json value
  | Raised e => Raised e
  end.

Definition probe_block (mid : Z) (sent : list json)
  : outcome (option Z) * list json :=
  let (block, sent') := get_block_by_number mid false sent in
  (match block with
   | Raised e => Raised e
   | Returned JNull => Returned None
   | Returned block =>
       match read_timestamp block with
       | Returned block_timestamp => Returned (Some block_timestamp)
       | Raised e => Raised e
       end
   end, sent').

Definition probe_outcome_of (r : outcome (option Z)) : probe_outcome :=
  match r with
  | Raised _ => Raises
  | Returned None => NoBlock
  | Returned (Some block_timestamp) => Block block_timestamp
  end.

(** The warning printed by the [except] clause. *)
Definition warning (mid : Z) (r : outcome (option Z)) : list output_line :=
  match r with
  | Raised e => [WarningLine mid e]
  | Returned _ => []
  end.

(** Guard and body of the search loop, run against the gateway: the body
    is [iteration] with the probe answered by the reply to the request
    posted now. *)
Definition rpc_iteration (target_timestamp : Z) (st : search_state)
           (w : world) : option (search_state * world) :=
  let probe h := probe_outcome_of (fst (probe_block h (posted w))) in
  match iteration probe target_timestamp st with
  | Some st' =>
      let (r, sent') := probe_block (midpoint st) (posted w) in
      Some (st', mk_world sent' (printed w ++ warning (midpoint st) r))
  | None => None
  end.

Equations? while_loop (target_timestamp : Z) (st : search_state) (w : world)
  : option Z * world by wf (interval_size st) lt :=
  while_loop target_timestamp st w
    with inspect (rpc_iteration target_timestamp st w) := {
    | exist _ (Some (st', w')) Hit => while_loop target_timestamp st' w'
    | exist _ None _ => (result_block st, w)
  }.
Proof.
  unfold rpc_iteration in Hit.
  destruct (iteration _ target_timestamp st) as [st0 |] eqn:Hstep;
    [| discriminate].
  destruct (probe_block (midpoint st) (posted w)).
  injection Hit as <- _.
  exact (iteration_shrinks _ _ _ _ Hstep).
Qed.

Definition find_last_block_of_day (target_timestamp : Z) (w : world)
  : outcome (option Z) * world :=
  let (latest, sent') := get_block_number (posted w) in
  match latest with
  | Raised e => (Raised e, mk_world sent' (printed w))
  | Returned latest_block =>
      let (result_block, w') :=
        while_loop target_timestamp (entry_state latest_block)
                   (mk_world sent' (printed w)) in
      (Returned result_block, w')
  end.

End Methods.

(** The dict returned by [get_balance_on_date]; [balance] is the entry
    ["balance_kava"] or ["balance_wkava"]. *)
Record report (float : Type) : Type := mk_report {
  report_date : string;
  report_address : string;
  block_number : Z;
  block_timestamp : Z;
  block_datetime : string;
  balance_wei : Z;
  balance : float
}.
Arguments mk_report {float}.
Arguments report_date {float}.
Arguments report_address {float}.
Arguments block_number {float}.
Arguments block_timestamp {float}.
Arguments block_datetime {float}.
Arguments balance_wei {float}.
Arguments balance {float}.

Section Query.

Variable json_loads : string -> option json.
Variable urlopen : list json -> json -> transport_outcome.

(** The clock and the library parts that are not modelled: the current
    UTC day, the local time zone, [datetime.fromtimestamp(ts, tz=utc)]
    with its two renderings ([str] and [strftime]), and the true division
    of integers into a float. *)
Variable today : date.
Variable mktime : datetime -> Z.
Variable utc_datetime : Type.
Variable fromtimestamp : Z -> option utc_datetime.
Variable strftime : utc_datetime -> string.
Variable float : Type.
Variable true_divide : Z -> Z -> option float.

(** [wei_to_kava] and [wei_to_wkava]. *)
Definition wei_to_kava (wei_amount : Z) : outcome float :=
  match true_divide wei_amount (10 ^ 18) with
  | Some x => Returned x
  | None => Raised DivisionOverflow
  end.

(** [get_balance_on_date] of both checkers; they differ in the method
    [read_balance] that reads the balance at the block found. *)
Definition get_balance_on_date_with
           (read_balance : string -> Z -> list json -> outcome Z * list json)
           (address date_str : string) (w : world)
  : outcome (report float) * world :=
  match validate_date date_str today with
  | RaisesValueError message => (Raised (DateValueError message), w)
  | Valid date_obj =>
      let (start_timestamp, end_timestamp) :=
        date_to_timestamps mktime date_obj in
      let w1 :=
        mk_world (posted w) (printed w ++ [FindingLine address date_str]) in
      match fromtimestamp end_timestamp with
      | None => (Raised FromTimestampError, w1)
      | Some _ =>
          let w2 :=
            mk_world (posted w1) (printed w1 ++ [LookingLine end_timestamp]) in
          let (last_block, w3) :=
            find_last_block_of_day json_loads urlopen end_timestamp w2 in
          match last_block with
          | Raised e => (Raised e, w3)
          | Returned None => (Raised (NoBlocksFound date_str), w3)
          | Returned (Some last_block) =>
              let (block_details, sent4) :=
                get_block_by_number json_loads urlopen last_block false
                                    (posted w3) in
              let w4 := mk_world sent4 (printed w3) in
              match block_details with
              | Raised e => (Raised e, w4)
              | Returned block_details =>
                  match read_timestamp block_details with
                  | Raised e => (Raised e, w4)
                  | Returned block_timestamp =>
                      match fromtimestamp block_timestamp with
                      | None => (Raised FromTimestampError, w4)
                      | Some block_datetime =>
                          let (balance_wei, sent5) :=
                            read_balance address last_block (posted w4) in
                          let w5 := mk_world sent5 (printed w4) in
                          match balance_wei with
                          | Raised e => (Raised e, w5)
                          | Returned balance_wei =>
                              match wei_to_kava balance_wei with
                              | Raised e => (Raised e, w5)
                              | Returned balance_kava =>
                                  (Returned
                                     (mk_report date_str address last_block
                                                block_timestamp
                                                (strftime block_datetime)
                                                balance_wei balance_kava),
                                   w5)
                              end
                          end
                      end
                  end
              end
          end
      end
  end.

(** [KavaBalanceChecker.get_balance_on_date]. *)
Definition get_balance_on_date : string -> string -> world ->
                                 outcome (report float) * world :=
  get_balance_on_date_with (get_balance json_loads urlopen).

(** [WKAVABalanceChecker.get_balance_on_date]. *)
Definition get_wkava_balance_on_date : string -> string -> world ->
                                       outcome (report float) * world :=
  get_balance_on_date_with (get_wkava_balance json_loads urlopen).

End Query.

End Client.

(** The request posted for the block at height [h]. *)
Definition block_request (h : Z) : json :=
  payload "eth_getBlockByNumber" (Client.block_params h false).

(** What the search sees of a node whose replies to block requests do
    not depend on the requests posted before: the outcome of the probe of
    each height. *)
Definition observed_chain (json_loads : string -> option json)
           (urlopen : list json -> json -> transport_outcome) (h : Z)
  : probe_outcome :=
  Client.probe_outcome_of (fst (Client.probe_block json_loads urlopen h [])).

Definition is_raise (o : probe_outcome) : bool :=
  match o with
  | Raises => true
  | _ => false
  end.

(** A node serving the mock chain: head 100 ([0x64]), the block at
    height [h] has timestamp [h * 1000], every balance is [10^18].  The
    body of a reply names what was asked, and [mock_loads] reads it. *)
Definition mock_urlopen (_ : list json) (request : json)
  : transport_outcome :=
  match dict_get "method"
          match request with JObject fields => fields | _ => [] end,
        dict_get "params"
          match request with JObject fields => fields | _ => [] end
  with
  | Some (JString method), Some (JArray params) =>
      if String.eqb method "eth_blockNumber" then ResponseText "head"
      else if String.eqb method "eth_getBlockByNumber" then
        match params with
        | JString block_hex :: _ => ResponseText ("block " ++ block_hex)
        | _ => RaisesURLError "bad request"
        end
      else ResponseText "balance"
  | _, _ => RaisesURLError "bad request"
  end.

Definition mock_loads (body : string) : option json :=
  if String.eqb body "head"
  then Some (JObject [("result", JString "0x64")]%string)
  else if String.eqb body "balance"
  then Some (JObject [("result", JString "0xde0b6b3a7640000")]%string)
  else if String.prefix "block " body then
    match int16 (slice_from 6 body) with
    | Some h =>
        Some (JObject
                [("result",
                  JObject [("timestamp", JString (hex (h * 1000)))])]%string)
    | None => None
    end
  else None.

(** The node's reply to a block request does not depend on the requests
    posted before. *)
Definition stable_node (json_loads : string -> option json)
           (urlopen : list json -> json -> transport_outcome) : Prop :=
  forall h sent1 sent2,
    fst (Client.get_block_by_number json_loads urlopen h false sent1)
    = fst (Client.get_block_by_number json_loads urlopen h false sent2).

(** The requests posted to read a balance at the block [h]. *)
Definition balance_request (address : string) (h : Z) : json :=
  payload "eth_getBalance" (Client.balance_params address h).

Definition wkava_request (address : string) (h : Z) : json :=
  payload "eth_call"
          (Client.call_params Client.WKAVA_CONTRACT
                              (encode_balance_of_call address) h).

(** The two queries against the mock node, on 2024-06-15, with integers
    standing for the datetimes and the floats. *)
Definition mock_query : string -> string -> Client.world ->
                        Client.outcome (Client.report Z) * Client.world :=
  Client.get_balance_on_date mock_loads mock_urlopen (mk_date 2024 6 15)
                             (fun _ => 0) Z (fun ts => Some ts)
                             (fun _ => EmptyString) Z
                             (fun a b => Some (a / b)).

Definition mock_wkava_query : string -> string -> Client.world ->
                              Client.outcome (Client.report Z) * Client.world :=
  Client.get_wkava_balance_on_date mock_loads mock_urlopen
                                   (mk_date 2024 6 15)
                                   (fun _ => 0) Z (fun ts => Some ts)
                                   (fun _ => EmptyString) Z
                                   (fun a b => Some (a / b)).

(** ** The call encoding, stated without [str.lower] *)

(** The lower-case spelling of a hex digit, letter by letter. *)
Definition lowercase_hex_digit (c : ascii) : ascii :=
  match c with
  | "A" => "a" | "B" => "b" | "C" => "c"
  | "D" => "d" | "E" => "e" | "F" => "f"
  | _ => c
  end%char.

Fixpoint lowercase_hex_digits (s : string) : string :=
  match s with
  | EmptyString => EmptyString
  | String c rest =>
      String (lowercase_hex_digit c) (lowercase_hex_digits rest)
  end.

(** One of [0-9a-f]. *)
Definition is_lowercase_hex (c : ascii) : bool :=
  is_digit c || in_range 97 102 c.

(** An ASCII character: a code point below 128. *)
Definition is_ascii (c : ascii) : bool := Nat.ltb (code c) 128.

(** Two characters that are equal or are the two cases of one ASCII
    letter. *)
Definition same_letter (c d : ascii) : Prop :=
  c = d \/
  (in_range 65 90 c = true /\ code d = (code c + 32)%nat) \/
  (in_range 65 90 d = true /\ code c = (code d + 32)%nat).

(** Two characters that [int] reads alike: the same character, or two
    white-space characters. *)
Definition same_reading (a b : ascii) : Prop :=
  a = b \/ (is_space a = true /\ is_space b = true).

(** *** The literals of [int(s, 16)], stated without the scanner *)

(** What may follow the first digit of a literal: further hex digits,
    each one possibly preceded by a single underscore.  [digits] are the
    digits met, in order. *)
Inductive digits_tail : list ascii -> list ascii -> Prop :=
| tail_end : digits_tail [] []
| tail_digit c body digits :
    is_hex c = true -> digits_tail body digits ->
    digits_tail (c :: body) (c :: digits)
| tail_underscore c body digits :
    is_hex c = true -> digits_tail body digits ->
    digits_tail ("_"%char :: c :: body) (c :: digits).

(** One or more hex digits with single underscores between them. *)
Definition digit_groups (body digits : list ascii) : Prop :=
  exists c body' digits',
    body = c :: body' /\ digits = c :: digits' /\
    is_hex c = true /\ digits_tail body' digits'.

(** Where a run of digits stops: at the end, or before a character that
    is neither a digit nor an underscore. *)
Definition run_stops (rest : list ascii) : Prop :=
  match rest with
  | [] => True
  | c :: _ => hex_value c = None /\ Ascii.eqb c "_" = false
  end.

(** No sign, ["+"] or ["-"]. *)
Definition sign_text (t : list ascii) (negative : bool) : Prop :=
  (t = [] /\ negative = false) \/
  (t = ["+"%char] /\ negative = false) \/
  (t = ["-"%char] /\ negative = true).

(** No prefix, or ["0x"] or ["0X"], after which one underscore may
    stand. *)
Definition prefix_text (t : list ascii) : Prop :=
  t = [] \/
  exists x, (x = "x"%char \/ x = "X"%char) /\
            (t = ["0"%char; x] \/ t = ["0"%char; x; "_"%char]).

(** [s] writes the integer [n] in base 16: white space, a sign, a prefix,
    groups of digits, white space. *)
Definition literal16 (s : list ascii) (n : Z) : Prop :=
  exists ws1 sg negative pre body digits ws2,
    s = ws1 ++ sg ++ pre ++ body ++ ws2 /\
    forallb is_space ws1 = true /\ forallb is_space ws2 = true /\
    sign_text sg negative /\ prefix_text pre /\
    digit_groups body digits /\
    n = if negative then - hex_number digits else hex_number digits.

(** ** Text of any code points

    A Python [str] holds Unicode code points.  [strptime] and [int] read
    two properties of a character from the Unicode character database:
    whether it is white space, and its value if it is a decimal digit
    (of any script).  For the code points from 128 on, the two tables
    are taken as given. *)

Module Unicode.

Definition text : Type := list N.

Definition of_string (s : string) : text :=
  map N_of_ascii (list_ascii_of_string s).

Inductive decimal_digit : Type :=
| D0 | D1 | D2 | D3 | D4 | D5 | D6 | D7 | D8 | D9.

Definition digit_value (d : decimal_digit) : Z :=
  match d with
  | D0 => 0 | D1 => 1 | D2 => 2 | D3 => 3 | D4 => 4
  | D5 => 5 | D6 => 6 | D7 => 7 | D8 => 8 | D9 => 9
  end.

Definition between (lo hi c : N) : bool := ((lo <=? c) && (c <=? hi))%N.

(** [hay.startswith(needle)] and [needle in hay]. *)
Fixpoint starts_with (needle hay : text) : bool :=
  match needle, hay with
  | [], _ => true
  | a :: needle', b :: hay' => (a =? b)%N && starts_with needle' hay'
  | _ :: _, [] => false
  end.

Fixpoint contains (needle hay : text) : bool :=
  starts_with needle hay ||
  match hay with
  | [] => false
  | _ :: rest => contains needle rest
  end.

(** The value of the ASCII digit [c]. *)
Definition ascii_value (c : N) : Z := Z.of_N c - 48.

Inductive validate_result : Type :=
| Valid (date_obj : datetime)
| RaisesValueError (message : text).

Definition InvalidDateFormat : validate_result :=
  RaisesValueError (of_string "Invalid date format. Use YYYY-MM-DD format").

Definition FutureDateError : validate_result :=
  RaisesValueError (of_string "Date cannot be in the future").

(** The [except ValueError as e] clause. *)
Definition on_value_error (message : text) : validate_result :=
  if contains (of_string "time data") message
  then RaisesValueError
         (of_string "Invalid date format. Use YYYY-MM-DD format")
  else RaisesValueError message.

(** [repr] of a string (escapes are not modelled). *)
Definition py_repr (s : text) : text := of_string "'" ++ s ++ of_string "'".

(** [s == t]. *)
Fixpoint eqb (s t : text) : bool :=
  match s, t with
  | [], [] => true
  | a :: s', b :: t' => (a =? b)%N && eqb s' t'
  | _, _ => false
  end.

Section Database.

(** [str.isspace] and the decimal value of a character, for the code
    points from 128 on. *)
Variable unicode_space : N -> bool.
Variable unicode_decimal : N -> option decimal_digit.

(** White space: among the ASCII characters, tab to carriage return, the
    four separators [0x1c..0x1f] and the space. *)
Definition isspace (c : N) : bool :=
  if (c <? 128)%N then between 9 13 c || between 28 32 c
  else unicode_space c.

(** The value of a decimal digit: among the ASCII characters, ['0'..'9']. *)
Definition todecimal (c : N) : option Z :=
  if (c <? 128)%N
  then (if between 48 57 c then Some (ascii_value c) else None)
  else option_map digit_value (unicode_decimal c).

(** *** [datetime.strptime(date_str, "%Y-%m-%d")]

    In the regular expression of the format, [\d] takes a decimal digit
    of any script and a range such as [[0-2]] takes ASCII digits only;
    the value of a group is [int] of its text. *)

Definition match_Y (s : text) : option (Z * text) :=
  match s with
  | a :: b :: c :: d :: rest =>
      match todecimal a, todecimal b, todecimal c, todecimal d with
      | Some va, Some vb, Some vc, Some vd =>
          Some (1000 * va + 100 * vb + 10 * vc + vd, rest)
      | _, _, _, _ => None
      end
  | _ => None
  end.

Definition match_dash (s : text) : option text :=
  match s with
  | c :: rest => if (c =? 45)%N then Some rest else None
  | [] => None
  end.

Definition m_alternatives (s : text) : list (Z * text) :=
  match s with
  | a :: b :: rest =>
      (if (a =? 49)%N && between 48 50 b
       then [(10 + ascii_value b, rest)] else []) ++
      (if (a =? 48)%N && between 49 57 b
       then [(ascii_value b, rest)] else []) ++
      (if between 49 57 a then [(ascii_value a, b :: rest)] else [])
  | [a] => if between 49 57 a then [(ascii_value a, [])] else []
  | [] => []
  end.

Definition match_d (s : text) : option (Z * text) :=
  match s with
  | a :: s' =>
      match s' with
      | b :: rest =>
          if (a =? 51)%N && between 48 49 b
          then Some (30 + ascii_value b, rest)
          else
            match (if between 49 50 a then todecimal b else None) with
            | Some vb => Some (10 * ascii_value a + vb, rest)
            | None =>
                if (a =? 48)%N && between 49 57 b
                then Some (ascii_value b, rest)
                else if between 49 57 a
                then Some (ascii_value a, s')
                else if (a =? 32)%N && between 49 57 b
                then Some (ascii_value b, rest)
                else None
            end
      | [] => if between 49 57 a then Some (ascii_value a, []) else None
      end
  | [] => None
  end.

Fixpoint match_m_dash_d (alts : list (Z * text)) : option (Z * Z * text) :=
  match alts with
  | [] => None
  | (m, after_m) :: alts' =>
      match match_dash after_m with
      | Some after_dash =>
          match match_d after_dash with
          | Some (d, rest) => Some (m, d, rest)
          | None => match_m_dash_d alts'
          end
      | None => match_m_dash_d alts'
      end
  end.

Definition regex_match (s : text) : option (Z * Z * Z * text) :=
  match match_Y s with
  | Some (y, after_y) =>
      match match_dash after_y with
      | Some after_dash =>
          match match_m_dash_d (m_alternatives after_dash) with
          | Some (m, d, rest) => Some (y, m, d, rest)
          | None => None
          end
      | None => None
      end
  | None => None
  end.

Definition strptime (date_str : text) : datetime + text :=
  match regex_match date_str with
  | None =>
      inr (of_string "time data " ++ py_repr date_str
           ++ of_string " does not match format '%Y-%m-%d'")
  | Some (y, m, d, rest) =>
      match rest with
      | _ :: _ => inr (of_string "unconverted data remains: " ++ rest)
      | [] =>
          if y <? 1 then inr (of_string "year 0 is out of range")
          else if days_in_month y m <? d
          then inr (of_string "day is out of range for month")
          else inl (mk_datetime (mk_date y m d) 0 0 0 None)
      end
  end.

(** [validate_date(date_str)], where [today] is
    [datetime.now(timezone.utc).date()]. *)
Definition validate_date (date_str : text) (today : date)
  : validate_result :=
  match strptime date_str with
  | inr message => on_value_error message
  | inl parsed =>
      let date_obj :=
        mk_datetime (dt_date parsed) (hour parsed) (minute parsed)
                    (second parsed) (Some UTC) in
      if date_gt (dt_date date_obj) today
      then on_value_error (of_string "Date cannot be in the future")
      else Valid date_obj
  end.

(** *** The texts the format accepts, stated without the matcher *)

(** An ASCII digit and its value. *)
Definition ascii_digit (c : N) (v : Z) : Prop :=
  (48 <= c <= 57)%N /\ v = Z.of_N c - 48.

(** Four decimal digits, of any script, writing [y]. *)
Definition year_text (t : text) (y : Z) : Prop :=
  exists a b c d va vb vc vd,
    t = [a; b; c; d] /\
    todecimal a = Some va /\ todecimal b = Some vb /\
    todecimal c = Some vc /\ todecimal d = Some vd /\
    y = 1000 * va + 100 * vb + 10 * vc + vd.

(** A month [1..12] in one or two ASCII digits. *)
Definition month_text (t : text) (m : Z) : Prop :=
  1 <= m <= 12 /\
  ((exists a b va vb, t = [a; b] /\ ascii_digit a va /\ ascii_digit b vb /\
                      m = 10 * va + vb) \/
   (exists a, t = [a] /\ ascii_digit a m)).

(** A day [1..31] in one or two ASCII digits, or a space and one ASCII
    digit; the second digit of a day [10..29] may be a decimal digit of
    any script. *)
Definition day_text (t : text) (d : Z) : Prop :=
  1 <= d <= 31 /\
  ((exists a b va vb,
       t = [a; b] /\ ascii_digit a va /\ d = 10 * va + vb /\
       (ascii_digit b vb \/ (10 <= d <= 29 /\ todecimal b = Some vb))) \/
   (exists a, t = [a] /\ ascii_digit a d) \/
   (exists a, t = [32%N; a] /\ ascii_digit a d)).

(** [s] starts with a year, a month and a day text separated by ["-"],
    and [rest] follows. *)
Definition pattern_prefix (s : text) (y m d : Z) (rest : text) : Prop :=
  exists yt mt dt,
    s = yt ++ 45%N :: mt ++ 45%N :: dt ++ rest /\
    year_text yt y /\ month_text mt m /\ day_text dt d.

(** *** [int(result, 16)]

    An ASCII string is scanned as it is.  In another string, each
    character from 127 on is first replaced: white space by a space, a
    decimal digit by the ASCII digit of its value; at a character that
    is neither, a ["?"] ends the text to scan. *)
Fixpoint transform_from (s : text) : list ascii :=
  match s with
  | [] => []
  | c :: rest =>
      if (c <? 127)%N then ascii_of_N c :: transform_from rest
      else if isspace c then " "%char :: transform_from rest
      else
        match todecimal c with
        | Some v => ascii_of_N (48 + Z.to_N v) :: transform_from rest
        | None => ["?"%char]
        end
  end.

Definition is_ascii_text (s : text) : bool :=
  forallb (fun c => (c <? 128)%N) s.

Definition transform (s : text) : list ascii :=
  if is_ascii_text s then map ascii_of_N s else transform_from s.

Definition int16 (s : text) : option Z :=
  int16 (string_of_list_ascii (transform s)).

Definition decode_balance_result (result : text) : decode_result :=
  if eqb result (of_string "0x") then Decoded 0
  else match int16 result with
       | Some n => Decoded n
       | None => DecodeError
       end.

(** How [int] reads one character of a string it accepts: an ASCII
    character as itself, other white space as a space, another decimal
    digit as the ASCII digit of its value. *)
Definition reads_as (c : N) (a : ascii) : Prop :=
  ((c < 127)%N /\ a = ascii_of_N c) \/
  ((127 <= c)%N /\ isspace c = true /\ a = " "%char) \/
  ((127 <= c)%N /\ isspace c = false /\
   exists v, todecimal c = Some v /\ a = ascii_of_N (48 + Z.to_N v)).

End Database.

(** A part of the character database: the white space [U+0085],
    [U+00A0] and [U+2003], the Arabic-Indic digits [U+0660..U+0669] and
    the fullwidth digits [U+FF10..U+FF19]. *)
Definition sample_space (c : N) : bool :=
  ((c =? 133) || (c =? 160) || (c =? 8195))%N.

Definition digit_of (n : N) : option decimal_digit :=
  match n with
  | 0 => Some D0 | 1 => Some D1 | 2 => Some D2 | 3 => Some D3
  | 4 => Some D4 | 5 => Some D5 | 6 => Some D6 | 7 => Some D7
  | 8 => Some D8 | 9 => Some D9
  | _ => None
  end%N.

Definition sample_decimal (c : N) : option decimal_digit :=
  if between 1632 1641 c then digit_of (c - 1632)
  else if between 65296 65305 c then digit_of (c - 65296)
  else None.

End Unicode.

(** ** Properties of the block resolver *)

Section ResolverFacts.

Variable probe : Z -> probe_outcome.
Variable target : Z.

Lemma while_loop_step st :
  while_loop probe target st =
  match iteration probe target st with
  | Some st' => while_loop probe target st'
  | None => result_block st
  end.
Proof.
  funelim (while_loop probe target st).
  - rewrite Hit. reflexivity.
  - rewrite e. reflexivity.
Qed.

Lemma probed_heights_step st :
  probed_heights probe target st =
  match iteration probe target st with
  | Some st' => midpoint st :: probed_heights probe target st'
  | None => []
  end.
Proof.
  funelim (probed_heights probe target st).
  - rewrite Hit. reflexivity.
  - rewrite e. reflexivity.
Qed.

Lemma midpoint_bounds st :
  left st <= right st -> left st <= midpoint st <= right st.
Proof.
  unfold midpoint. intros Hle.
  pose proof (Z.div_mod (left st + right st) 2 ltac:(lia)).
  pose proof (Z.mod_pos_bound (left st + right st) 2 ltac:(lia)).
  lia.
Qed.

(** The body only looks at whether the probe confirms the midpoint. *)
Lemma iteration_confirmed st :
  iteration probe target st =
  if left st <=? right st then
    if confirmed probe target (midpoint st)
    then Some (mk_state (midpoint st + 1) (right st) (Some (midpoint st)))
    else Some (mk_state (left st) (midpoint st - 1) (result_block st))
  else None.
Proof.
  unfold iteration, confirmed. cbv zeta.
  destruct (left st <=? right st); [| reflexivity].
  destruct (probe (midpoint st)); reflexivity.
Qed.

(** Induction along the iterations of the loop. *)
Lemma loop_induction (P : search_state -> Prop) :
  (forall st,
      (forall st', iteration probe target st = Some st' -> P st') -> P st) ->
  forall st, P st.
Proof.
  intros Hrec st.
  remember (interval_size st) as n eqn:Hn.
  revert st Hn.
  induction n as [n IH] using lt_wf_ind.
  intros st ->. apply Hrec. intros st' Hit.
  apply (IH (interval_size st')); [| reflexivity].
  now apply (iteration_shrinks probe target).
Qed.

(** Rule for an invariant of the loop: it holds at the state in which
    the guard fails, and the function returns that state's
    [result_block]. *)
Lemma while_loop_rule (I : search_state -> Prop) :
  (forall st st', I st -> iteration probe target st = Some st' -> I st') ->
  forall st, I st ->
  exists st_f, I st_f /\ iteration probe target st_f = None /\
               while_loop probe target st = result_block st_f.
Proof.
  intros Hstep st. induction st as [st IH] using loop_induction.
  intros HI. rewrite while_loop_step.
  destruct (iteration probe target st) as [st' |] eqn:Hit.
  - apply (IH st' eq_refl). now apply (Hstep st).
  - exists st. auto.
Qed.

End ResolverFacts.

Section ResolverInvariants.

Variable probe : Z -> probe_outcome.
Variable target : Z.

Lemma confirmed_spec h :
  confirmed probe target h = true <->
  exists ts, probe h = Block ts /\ ts <= target.
Proof.
  unfold confirmed. destruct (probe h) as [ | | ts].
  - split; [discriminate | intros (? & [=] & _)].
  - split; [discriminate | intros (? & [=] & _)].
  - rewrite Z.leb_le. split.
    + intros Hle. exists ts. auto.
    + intros (ts' & [= ->] & Hle). exact Hle.
Qed.

Lemma reaches_invariant latest hs st :
  reaches probe target latest hs st ->
  resolver_invariant probe target latest hs st.
Proof.
  induction 1 as [ | hs st st' Hreach IH Hit].
  - unfold resolver_invariant, entry_state; cbn.
    refine (conj _ (conj _ (conj _ (conj _ _)))); first [lia | contradiction].
  - destruct IH as (Hl & Hr & Hrange & Hbelow & Hres).
    rewrite iteration_confirmed in Hit.
    destruct (Z.leb_spec (left st) (right st)) as [Hle | Hgt]; [| discriminate].
    pose proof (midpoint_bounds st Hle) as Hmid.
    destruct (confirmed probe target (midpoint st)) eqn:Hc;
      injection Hit as <-; unfold resolver_invariant;
      cbn [left right result_block];
      refine (conj _ (conj _ (conj _ (conj _ _)))); try lia.
    + intros h [<- | Hin]; [lia | auto].
    + intros h [<- | Hin] Hh; [lia |]. specialize (Hbelow h Hin Hh). lia.
    + refine (conj _ (conj Hc _)); [now left |].
      intros h [<- | Hin] Hh; [lia |]. specialize (Hbelow h Hin Hh). lia.
    + intros h [<- | Hin]; [lia | auto].
    + intros h [<- | Hin] Hh; [congruence | auto].
    + destruct (result_block st) as [b |].
      * destruct Hres as (Hin & Hb & Hmax).
        refine (conj _ (conj Hb _)); [now right |].
        intros h [<- | Hin'] Hh; [congruence | auto].
      * intros h [<- | Hin]; auto.
Qed.

(** The run of the function passes through reachable states only and
    ends in one where the guard fails. *)
Lemma while_loop_reaches latest hs st :
  reaches probe target latest hs st ->
  exists hs_f st_f,
    reaches probe target latest hs_f st_f /\
    iteration probe target st_f = None /\
    while_loop probe target st = result_block st_f /\
    rev hs_f = rev hs ++ probed_heights probe target st.
Proof.
  revert hs. induction st as [st IH] using (loop_induction probe target).
  intros hs Hreach. rewrite while_loop_step, probed_heights_step.
  destruct (iteration probe target st) as [st' |] eqn:Hit.
  - destruct (IH st' eq_refl (midpoint st :: hs))
      as (hs_f & st_f & ? & ? & ? & Hrev).
    { now apply reaches_iteration. }
    exists hs_f, st_f. repeat split; auto.
    rewrite Hrev. cbn [rev]. rewrite <- app_assoc. reflexivity.
  - exists hs, st. repeat split; auto. now rewrite app_nil_r.
Qed.


Lemma probed_heights_in_range st h :
  In h (probed_heights probe target st) -> left st <= h <= right st.
Proof.
  induction st as [st IH] using (loop_induction probe target).
  rewrite probed_heights_step.
  destruct (iteration probe target st) as [st' |] eqn:Hit; [| contradiction].
  specialize (IH st' eq_refl).
  rewrite iteration_confirmed in Hit.
  destruct (Z.leb_spec (left st) (right st)) as [Hle | Hgt]; [| discriminate].
  pose proof (midpoint_bounds st Hle) as Hmid.
  intros [<- | Hin]; [lia |]. specialize (IH Hin).
  destruct (confirmed probe target (midpoint st));
    injection Hit as <-; cbn [left right] in IH; lia.
Qed.


End ResolverInvariants.


(** A returned height was probed, is in range and is confirmed. *)
Lemma returned_height_confirmed probe target latest h :
  find_last_block_of_day probe target latest = Some h ->
  0 <= h <= latest /\
  In h (probed_heights probe target (entry_state latest)) /\
  confirmed probe target h = true.
Proof.
  unfold find_last_block_of_day. intros Hfind.
  destruct (while_loop_reaches probe target latest [] (entry_state latest))
    as (hs_f & st_f & Hreach & _ & Hres & Hrev); [constructor |].
  apply reaches_invariant in Hreach.
  destruct Hreach as (_ & _ & Hrange & _ & Hbest).
  rewrite <- Hres, Hfind in Hbest. destruct Hbest as (Hin & Hc & _).
  refine (conj (Hrange h Hin) (conj _ Hc)).
  cbn [rev app] in Hrev. rewrite <- Hrev, <- in_rev. exact Hin.
Qed.

(** C10. Whatever the probes do (no monotonicity, any failures or absent
    blocks), a height [h] returned by [find_last_block_of_day] lies in
    [0..latest_height], was probed by the search, and its probe succeeded
    with a block whose timestamp is at most the target. *)
Theorem find_last_block_of_day_sound probe target latest h :
  find_last_block_of_day probe target latest = Some h ->
  0 <= h <= latest /\
  In h (probed_heights probe target (entry_state latest)) /\
  exists ts, probe h = Block ts /\ ts <= target.
Proof.
  intros Hfind.
  destruct (returned_height_confirmed probe target latest h Hfind)
    as (Hrange & Hin & Hc).
  refine (conj Hrange (conj Hin _)). now apply confirmed_spec.
Qed.

Lemma find_last_block_of_day_sound_witness :
  find_last_block_of_day mock_chain 50500 100 = Some 50 /\
  (0 <= 50 <= 100 /\
   In 50 (probed_heights mock_chain 50500 (entry_state 100)) /\
   exists ts, mock_chain 50 = Block ts /\ ts <= 50500).
Proof.
  split; [vm_compute; reflexivity |].
  apply (find_last_block_of_day_sound mock_chain 50500 100 50).
  vm_compute; reflexivity.
Defined.

(** C3. At every guard evaluation of the loop, for any probe oracle,
    [result_block] is unset only while no probe has confirmed a height,
    and otherwise it is the highest height probed so far whose probe
    succeeded with a timestamp at most the target.  The property holds
    on entry and after every iteration, whichever branch was taken. *)
Theorem result_block_is_highest_confirmed probe target latest hs st :
  reaches probe target latest hs st ->
  match result_block st with
  | None => forall h, In h hs -> confirmed probe target h = false
  | Some b =>
      In b hs /\ confirmed probe target b = true /\
      forall h, In h hs -> confirmed probe target h = true -> h <= b
  end.
Proof.
  intros Hreach. apply reaches_invariant in Hreach. apply Hreach.
Qed.

Lemma result_block_is_highest_confirmed_witness :
  reaches mock_chain 50500 100 [50] (mk_state 51 100 (Some 50)) /\
  (In 50 [50] /\ confirmed mock_chain 50500 50 = true /\
   forall h, In h [50] -> confirmed mock_chain 50500 h = true -> h <= 50).
Proof.
  assert (Hreach : reaches mock_chain 50500 100 [50]
                           (mk_state 51 100 (Some 50))).
  { apply (reaches_iteration mock_chain 50500 100 [] (entry_state 100)).
    - apply reaches_entry.
    - reflexivity. }
  split; [exact Hreach |].
  exact (result_block_is_highest_confirmed mock_chain 50500 100 [50] _ Hreach).
Defined.



Section MonotoneChain.

Variable probe : Z -> probe_outcome.
Variable ts : Z -> Z.
Variables target latest : Z.

Hypothesis probe_total :
  forall h, 0 <= h <= latest -> probe h = Block (ts h).
Hypothesis ts_monotone :
  forall h1 h2, 0 <= h1 <= h2 -> h2 <= latest -> ts h1 <= ts h2.

Lemma confirmed_total h :
  0 <= h <= latest -> confirmed probe target h = (ts h <=? target).
Proof. intros Hh. unfold confirmed. now rewrite probe_total. Qed.

Lemma bisection_invariant_preserved st st' :
  bisection_invariant ts target latest st ->
  iteration probe target st = Some st' ->
  bisection_invariant ts target latest st'.
Proof.
  intros (Hl & Hr & Hlow & Hhigh & Hres). rewrite iteration_confirmed.
  destruct (Z.leb_spec (left st) (right st)) as [Hle | Hgt]; [| discriminate].
  pose proof (midpoint_bounds st Hle) as Hmid.
  rewrite confirmed_total by lia.
  destruct (Z.leb_spec (ts (midpoint st)) target) as [Hq | Hq];
    intros [= <-]; unfold bisection_invariant; cbn [left right result_block];
    refine (conj _ (conj _ (conj _ (conj _ _)))); try lia; try assumption.
  - intros h Hh.
    pose proof (ts_monotone h (midpoint st) ltac:(lia) ltac:(lia)). lia.
  - destruct (Z.eqb_spec (midpoint st + 1) 0); [lia |]. f_equal. lia.
  - intros h Hh. destruct (Z_le_gt_dec h (right st)) as [Hin | Hout].
    + pose proof (ts_monotone (midpoint st) h ltac:(lia) ltac:(lia)). lia.
    + apply Hhigh. lia.
Qed.

(** The search ends with [right] at the last qualifying height, or at
    [-1] when there is none. *)
Lemma bisection_final :
  exists r, -1 <= r <= Z.max latest (-1) /\
    (forall h, 0 <= h <= r -> ts h <= target) /\
    (forall h, r < h <= latest -> target < ts h) /\
    find_last_block_of_day probe target latest =
    if r =? -1 then None else Some r.
Proof.
  destruct (Z_lt_ge_dec latest (-1)) as [Hneg | Hpos].
  - exists (-1). unfold find_last_block_of_day.
    rewrite while_loop_step, iteration_confirmed. unfold entry_state; cbn.
    destruct (Z.leb_spec 0 latest); [lia |]. cbn.
    refine (conj _ (conj _ (conj _ eq_refl))); intros; lia.
  - destruct (while_loop_rule probe target
                (bisection_invariant ts target latest)
                bisection_invariant_preserved (entry_state latest))
      as (st_f & (Hl & Hr & Hlow & Hhigh & Hres) & Hexit & Hfind).
    { unfold bisection_invariant, entry_state; cbn.
      refine (conj _ (conj _ (conj _ (conj _ _))));
        first [lia | reflexivity | intros; lia]. }
    rewrite iteration_confirmed in Hexit.
    destruct (Z.leb_spec (left st_f) (right st_f)) as [Hle | Hgt].
    { destruct (confirmed probe target (midpoint st_f)); discriminate. }
    exists (right st_f). unfold find_last_block_of_day. rewrite Hfind, Hres.
    assert (Heq : left st_f = right st_f + 1) by lia.
    refine (conj _ (conj _ (conj Hhigh _)));
      [lia | intros h Hh; apply Hlow; lia |].
    rewrite Heq.
    destruct (Z.eqb_spec (right st_f + 1) 0), (Z.eqb_spec (right st_f) (-1));
      try lia; [reflexivity | f_equal; lia].
Qed.


End MonotoneChain.

(** C1. Over a chain whose probes all succeed and whose timestamps do not
    decrease with the height on [0..latest_height],
    [find_last_block_of_day] returns exactly the height [h] in range with
    [timestamp(h) <= target_timestamp] and either [h = latest_height] or
    [timestamp(h+1) > target_timestamp] (the equivalence makes it unique);
    it returns [None] exactly when no height in range has a timestamp at
    most the target; and a target at or after the head timestamp resolves
    to [latest_height]. *)
Theorem find_last_block_of_day_monotone probe ts target latest :
  (forall h, 0 <= h <= latest -> probe h = Block (ts h)) ->
  (forall h1 h2, 0 <= h1 <= h2 -> h2 <= latest -> ts h1 <= ts h2) ->
  (forall h, find_last_block_of_day probe target latest = Some h <->
             0 <= h <= latest /\ ts h <= target /\
             (h = latest \/ target < ts (h + 1))) /\
  (find_last_block_of_day probe target latest = None <->
   forall h, 0 <= h <= latest -> target < ts h) /\
  (0 <= latest -> ts latest <= target ->
   find_last_block_of_day probe target latest = Some latest).
Proof.
  intros Htotal Hmono.
  destruct (bisection_final probe ts target latest Htotal Hmono)
    as (r & Hr & Hlow & Hhigh & Hfind).
  rewrite Hfind. clear Hfind.
  assert (Hsome : forall h,
             0 <= h <= latest /\ ts h <= target /\
             (h = latest \/ target < ts (h + 1)) -> h = r).
  { intros h (Hh & Hq & Hnext).
    destruct (Z_lt_le_dec r h) as [Hgt | Hle].
    - specialize (Hhigh h ltac:(lia)). lia.
    - destruct (Z.eq_dec h r) as [-> | Hne]; [reflexivity |].
      specialize (Hlow (h + 1) ltac:(lia)). lia. }
  split; [| split].
  - intros h. split.
    + destruct (Z.eqb_spec r (-1)) as [-> | Hne]; [discriminate |].
      intros [= <-]. split; [lia |]. split; [apply Hlow; lia |].
      destruct (Z.eq_dec r latest) as [-> | Hne']; [now left | right].
      apply Hhigh. lia.
    + intros Hspec. pose proof (Hsome h Hspec) as ->.
      destruct (Z.eqb_spec r (-1)); [lia | reflexivity].
  - split.
    + destruct (Z.eqb_spec r (-1)) as [-> | Hne]; [| discriminate].
      intros _ h Hh. apply Hhigh. lia.
    + intros Hall. destruct (Z.eqb_spec r (-1)) as [-> | Hne]; [reflexivity |].
      specialize (Hall r ltac:(lia)). specialize (Hlow r ltac:(lia)). lia.
  - intros Hlatest Hhead.
    rewrite <- (Hsome latest); [| repeat split; try lia; now left].
    destruct (Z.eqb_spec latest (-1)); [lia | reflexivity].
Qed.

Lemma find_last_block_of_day_monotone_witness :
  (forall h, 0 <= h <= 100 -> mock_chain h = Block (h * 1000)) /\
  (forall h1 h2, 0 <= h1 <= h2 -> h2 <= 100 -> h1 * 1000 <= h2 * 1000) /\
  find_last_block_of_day mock_chain 50500 100 = Some 50 /\
  find_last_block_of_day mock_chain 100000 100 = Some 100.
Proof.
  assert (Htotal : forall h, 0 <= h <= 100 -> mock_chain h = Block (h * 1000)).
  { intros h _. reflexivity. }
  assert (Hmono : forall h1 h2, 0 <= h1 <= h2 -> h2 <= 100 ->
                                h1 * 1000 <= h2 * 1000).
  { intros h1 h2 H1 H2. lia. }
  split; [exact Htotal |]. split; [exact Hmono |]. split.
  - apply (find_last_block_of_day_monotone mock_chain (fun h => h * 1000)
             50500 100 Htotal Hmono).
    cbv beta. lia.
  - apply (find_last_block_of_day_monotone mock_chain (fun h => h * 1000)
             100000 100 Htotal Hmono); cbv beta; lia.
Defined.




(** ** Properties of the RPC gateway *)

Lemma dict_has_get key fields :
  dict_has key fields = true <-> exists v, dict_get key fields = Some v.
Proof.
  unfold dict_has. destruct (dict_get key fields) as [v |].
  - split; [intros _; now exists v | reflexivity].
  - split; [discriminate | intros (v & [=])].
Qed.





(** ** Properties of date validation *)

Lemma in_range_spec lo hi c :
  in_range lo hi c = true <-> (lo <= code c <= hi)%nat.
Proof.
  unfold in_range. rewrite andb_true_iff, !Nat.leb_le. reflexivity.
Qed.

Lemma is_digit_spec c : is_digit c = true <-> (48 <= code c <= 57)%nat.
Proof. apply in_range_spec. Qed.

(** Turns the character tests among the hypotheses into facts about
    codes. *)
Ltac char_facts :=
  repeat match goal with
    | H : _ && _ = true |- _ => apply andb_true_iff in H; destruct H
    | H : Ascii.eqb _ _ = true |- _ => apply Ascii.eqb_eq in H; subst
    | H : in_range _ _ _ = true |- _ => apply in_range_spec in H
    | H : is_digit _ = true |- _ => apply is_digit_spec in H
    end.

Ltac eval_codes :=
  repeat match goal with
    | |- context [code ?c] =>
        lazymatch c with
        | Ascii _ _ _ _ _ _ _ _ =>
            let v := eval vm_compute in (code c) in change (code c) with v
        end
    end.

Ltac char_goal :=
  repeat match goal with |- _ /\ _ => split end;
  try reflexivity;
  try apply is_digit_spec;
  unfold digit_value; eval_codes; try lia.

Lemma match_dash_some s rest :
  match_dash s = Some rest -> s = "-"%char :: rest.
Proof.
  destruct s as [| c s']; cbn; [discriminate |].
  destruct (Ascii.eqb c "-") eqn:Hc; [| discriminate].
  intros [= <-]. char_facts. reflexivity.
Qed.

Lemma match_Y_sound s y rest :
  match_Y s = Some (y, rest) -> exists yt, s = yt ++ rest /\ year_text yt y.
Proof.
  destruct s as [| a [| b [| c [| d s']]]]; cbn; try discriminate.
  destruct (is_digit a && is_digit b && is_digit c && is_digit d) eqn:Hd;
    [| discriminate].
  intros [= <- <-]. exists [a; b; c; d]. split; [reflexivity |].
  apply andb_true_iff in Hd. destruct Hd as (Hd & Hdd).
  apply andb_true_iff in Hd. destruct Hd as (Hd & Hdc).
  apply andb_true_iff in Hd. destruct Hd as (Hda & Hdb).
  exists a, b, c, d. auto 10.
Qed.

Lemma some_pair_inv {A B : Type} (a c : A) (b d : B) :
  Some (a, b) = Some (c, d) -> a = c /\ b = d.
Proof. intros H. inversion H. auto. Qed.

(** The single element of a list of alternatives, and the content of a
    successful match. *)
Ltac take_alternative H :=
  let Heq := fresh "Heq" in
  destruct H as [Heq | []]; apply pair_equal_spec in Heq;
  destruct Heq as [<- <-].

Ltac open_some :=
  let Heq := fresh "Heq" in
  intros Heq; apply some_pair_inv in Heq; destruct Heq as [<- <-].

Lemma m_alternatives_sound s m rest :
  In (m, rest) (m_alternatives s) ->
  exists mt, s = mt ++ rest /\ month_text mt m.
Proof.
  destruct s as [| a [| b s']]; cbn [m_alternatives]; [contradiction | |].
  - destruct (in_range 49 57 a) eqn:Ha; [| contradiction].
    intros Hin. take_alternative Hin.
    exists [a]. split; [reflexivity |].
    char_facts. unfold month_text. split; [char_goal |].
    right. exists a. char_goal.
  - rewrite !in_app_iff. intros [Hin | [Hin | Hin]].
    + destruct (Ascii.eqb a "1" && in_range 48 50 b) eqn:Hc; [| contradiction].
      take_alternative Hin. exists ["1"%char; b].
      char_facts. split; [reflexivity |]. unfold month_text.
      split; [char_goal |]. left. exists "1"%char, b. char_goal.
    + destruct (Ascii.eqb a "0" && in_range 49 57 b) eqn:Hc; [| contradiction].
      take_alternative Hin. exists ["0"%char; b].
      char_facts. split; [reflexivity |]. unfold month_text.
      split; [char_goal |]. left. exists "0"%char, b. char_goal.
    + destruct (in_range 49 57 a) eqn:Ha; [| contradiction].
      take_alternative Hin. exists [a].
      char_facts. split; [reflexivity |]. unfold month_text.
      split; [char_goal |]. right. exists a. char_goal.
Qed.

Lemma match_d_sound s d rest :
  match_d s = Some (d, rest) -> exists dt, s = dt ++ rest /\ day_text dt d.
Proof.
  destruct s as [| a [| b s']]; cbn [match_d]; [discriminate | |].
  - destruct (in_range 49 57 a) eqn:Ha; [| discriminate].
    open_some. exists [a]. char_facts. split; [reflexivity |].
    unfold day_text. split; [char_goal |]. right; left. exists a. char_goal.
  - destruct (Ascii.eqb a "3" && in_range 48 49 b) eqn:H1.
    { open_some. exists ["3"%char; b]. char_facts.
      split; [reflexivity |]. unfold day_text. split; [char_goal |].
      left. exists "3"%char, b. char_goal. }
    destruct (in_range 49 50 a && is_digit b) eqn:H2.
    { open_some. exists [a; b]. char_facts.
      split; [reflexivity |]. unfold day_text. split; [char_goal |].
      left. exists a, b. char_goal. }
    destruct (Ascii.eqb a "0" && in_range 49 57 b) eqn:H3.
    { open_some. exists ["0"%char; b]. char_facts.
      split; [reflexivity |]. unfold day_text. split; [char_goal |].
      left. exists "0"%char, b. char_goal. }
    destruct (in_range 49 57 a) eqn:H4.
    { open_some. exists [a]. char_facts.
      split; [reflexivity |]. unfold day_text. split; [char_goal |].
      right; left. exists a. char_goal. }
    destruct (Ascii.eqb a " " && in_range 49 57 b) eqn:H5; [| discriminate].
    open_some. exists [" "%char; b]. char_facts.
    split; [reflexivity |]. unfold day_text. split; [char_goal |].
    right; right. exists b. char_goal.
Qed.

Lemma match_m_dash_d_sound s alts m d rest :
  (forall m' r, In (m', r) alts -> In (m', r) (m_alternatives s)) ->
  match_m_dash_d alts = Some (m, d, rest) ->
  exists mt dt, s = mt ++ "-"%char :: dt ++ rest /\
                month_text mt m /\ day_text dt d.
Proof.
  induction alts as [| [m0 after_m] alts IH]; cbn [match_m_dash_d];
    [discriminate |].
  intros Hsub.
  assert (Htail : match_m_dash_d alts = Some (m, d, rest) ->
                  exists mt dt, s = mt ++ "-"%char :: dt ++ rest /\
                                month_text mt m /\ day_text dt d).
  { apply IH. intros m' r Hin. apply Hsub. now right. }
  destruct (match_dash after_m) as [after_dash |] eqn:Hdash; [| exact Htail].
  destruct (match_d after_dash) as [[d0 rest0] |] eqn:Hd; [| exact Htail].
  intros [= <- <- <-].
  destruct (m_alternatives_sound s m0 after_m) as (mt & -> & Hmt);
    [apply Hsub; now left |].
  apply match_dash_some in Hdash. subst after_m.
  destruct (match_d_sound _ _ _ Hd) as (dt & -> & Hdt).
  now exists mt, dt.
Qed.

(** The matcher only succeeds on a text of the stated shape. *)
Lemma regex_match_sound s y m d rest :
  regex_match s = Some (y, m, d, rest) -> pattern_prefix s y m d rest.
Proof.
  unfold regex_match.
  destruct (match_Y s) as [[y0 after_y] |] eqn:HY; [| discriminate].
  destruct (match_dash after_y) as [after_dash |] eqn:Hdash; [| discriminate].
  destruct (match_m_dash_d (m_alternatives after_dash))
    as [[[m0 d0] rest0] |] eqn:Hmd; [| discriminate].
  intros [= <- <- <- <-].
  destruct (match_Y_sound _ _ _ HY) as (yt & -> & Hyt).
  apply match_dash_some in Hdash. subst after_y.
  destruct (match_m_dash_d_sound after_dash _ _ _ _ (fun _ _ H => H) Hmd)
    as (mt & dt & -> & Hmt & Hdt).
  now exists yt, mt, dt.
Qed.

Lemma on_value_error_not_valid message date_obj :
  on_value_error message <> Valid date_obj.
Proof. unfold on_value_error. destruct (contains _ _); discriminate. Qed.

Lemma year_text_bounds t y : year_text t y -> 0 <= y <= 9999.
Proof.
  intros (a & b & c & d & _ & Ha & Hb & Hc & Hd & ->).
  char_facts. unfold digit_value. lia.
Qed.

(** A successful parse: the matcher consumed the whole string, the date
    exists in the calendar, and the result is naive midnight. *)
Lemma strptime_parsed date_str parsed :
  strptime date_str = inl parsed ->
  exists y m d,
    regex_match (list_ascii_of_string date_str) = Some (y, m, d, []) /\
    1 <= y /\ d <= days_in_month y m /\
    parsed = mk_datetime (mk_date y m d) 0 0 0 None.
Proof.
  unfold strptime.
  destruct (regex_match _) as [[[[y m] d] rest] |]; [| discriminate].
  destruct rest; [| discriminate].
  destruct (Z.ltb_spec y 1); [discriminate |].
  destruct (Z.ltb_spec (days_in_month y m) d); [discriminate |].
  intros [= <-]. exists y, m, d. auto.
Qed.

Lemma validate_date_parsed date_str today parsed :
  strptime date_str = inl parsed ->
  validate_date date_str today =
  if date_gt (dt_date parsed) today then FutureDateError
  else Valid (mk_datetime (dt_date parsed) 0 0 0 (Some UTC)).
Proof.
  intros Hparse. unfold validate_date. rewrite Hparse.
  destruct (strptime_parsed _ _ Hparse) as (y & m & d & _ & _ & _ & ->).
  cbn [dt_date hour minute second].
  destruct (date_gt _ _); reflexivity.
Qed.

Lemma date_gt_irrefl d : date_gt d d = false.
Proof.
  unfold date_gt. rewrite !Z.ltb_irrefl, !Z.eqb_refl. reflexivity.
Qed.

Lemma date_gt_next_day d : valid_date d -> date_gt (next_day d) d = true.
Proof.
  intros (Hy & Hm & Hd). unfold next_day, date_gt.
  destruct (Z.ltb_spec (day d) (days_in_month (year d) (month d)));
    [| destruct (Z.ltb_spec (month d) 12)]; cbn [year month day];
    rewrite ?orb_true_iff, ?andb_true_iff, ?Z.ltb_lt, ?Z.eqb_eq; lia.
Qed.

(** C6, as stated, fails: ["2024-1-5"] is not in the strict ten-character
    form, yet it is accepted (here with today being 2024-06-15). *)
Lemma validate_date_accepts_short_form :
  strict_form "2024-1-5" = false /\
  validate_date "2024-1-5" (mk_date 2024 6 15)
  = Valid (mk_datetime (mk_date 2024 1 5) 0 0 0 (Some UTC)) /\
  validate_date "2024-1-5" (mk_date 2024 6 15) <> InvalidDateFormat.
Proof.
  split; [reflexivity |]. split; [reflexivity |]. discriminate.
Qed.

(** The input ["2024-02-30"] matches the format but names no date:
    [strptime] raises a [ValueError] whose message does not contain
    ["time data"], and the handler re-raises it unchanged. *)
Lemma validate_date_feb_30 today :
  validate_date "2024-02-30" today
  = RaisesValueError "day is out of range for month".
Proof. reflexivity. Qed.

(** C7. For every input that [strptime] parses, [validate_date] fails with
    the future-date error exactly when the parsed day is after today's
    UTC day, and otherwise returns the parsed day at 00:00:00 UTC; so
    today's date is accepted and tomorrow's is refused. *)
Theorem validate_date_future date_str today parsed :
  strptime date_str = inl parsed ->
  (validate_date date_str today = FutureDateError <->
   date_gt (dt_date parsed) today = true) /\
  (date_gt (dt_date parsed) today = false ->
   validate_date date_str today
   = Valid (mk_datetime (dt_date parsed) 0 0 0 (Some UTC))) /\
  (dt_date parsed = today ->
   validate_date date_str today
   = Valid (mk_datetime today 0 0 0 (Some UTC))) /\
  (valid_date today -> dt_date parsed = next_day today ->
   validate_date date_str today = FutureDateError).
Proof.
  intros Hparse. rewrite (validate_date_parsed _ today _ Hparse).
  split; [| split; [| split]].
  - destruct (date_gt (dt_date parsed) today).
    + split; reflexivity.
    + split; discriminate.
  - intros ->. reflexivity.
  - intros ->. rewrite date_gt_irrefl. reflexivity.
  - intros Hvalid ->. rewrite date_gt_next_day by exact Hvalid. reflexivity.
Qed.

Lemma validate_date_future_witness :
  strptime "2024-03-01"
  = inl (mk_datetime (mk_date 2024 3 1) 0 0 0 None) /\
  validate_date "2024-03-01" (mk_date 2024 2 29) = FutureDateError.
Proof.
  assert (Hparse : strptime "2024-03-01"
                   = inl (mk_datetime (mk_date 2024 3 1) 0 0 0 None))
    by reflexivity.
  split; [exact Hparse |].
  destruct (validate_date_future "2024-03-01" (mk_date 2024 2 29) _ Hparse)
    as (_ & _ & _ & Htomorrow).
  apply Htomorrow.
  - unfold valid_date; cbn. lia.
  - reflexivity.
Defined.

(** ** Properties of the call encoding *)

Lemma length_app_string (s1 s2 : string) :
  String.length (s1 ++ s2) = (String.length s1 + String.length s2)%nat.
Proof. induction s1 as [| c s1 IH]; cbn; [reflexivity | now rewrite IH]. Qed.

Lemma lower_length s : String.length (lower s) = String.length s.
Proof. induction s as [| c s IH]; cbn; [reflexivity | now rewrite IH]. Qed.

Lemma zeros_length n : String.length (zeros n) = n.
Proof. induction n as [| n IH]; cbn; [reflexivity | now rewrite IH]. Qed.

(** Lower-casing a hex digit gives neither sign character. *)
Lemma lower_hex_not_sign c :
  is_hex c = true ->
  Ascii.eqb (lower_char c) "+" || Ascii.eqb (lower_char c) "-" = false.
Proof.
  destruct c as [[] [] [] [] [] [] [] []]; cbv; intros H;
    first [reflexivity | discriminate H].
Qed.

Lemma zfill_unsigned width s :
  (String.length s < width)%nat ->
  match s with
  | String c _ => Ascii.eqb c "+" || Ascii.eqb c "-" = false
  | EmptyString => True
  end ->
  zfill width s = (zeros (width - String.length s) ++ s)%string.
Proof.
  intros Hlen Hsign. unfold zfill.
  destruct (Nat.leb_spec width (String.length s)); [lia |].
  destruct s as [| c rest].
  - clear. induction (width - String.length "")%nat as [| n IH]; cbn;
      [reflexivity | now rewrite <- IH].
  - now rewrite Hsign.
Qed.

(** On a hex digit, [str.lower] gives the lower-case spelling of the
    digit: one of [0-9a-f], with the value of the digit. *)
Lemma lower_hex_digit c :
  is_hex c = true ->
  lower_char c = lowercase_hex_digit c /\
  is_lowercase_hex (lowercase_hex_digit c) = true /\
  hex_value (lowercase_hex_digit c) = hex_value c.
Proof.
  destruct c as [[] [] [] [] [] [] [] []]; cbv; intros H;
    first [discriminate H | repeat split].
Qed.

Lemma lower_hex_digits s :
  forallb is_hex (list_ascii_of_string s) = true ->
  lower s = lowercase_hex_digits s /\
  forallb is_lowercase_hex
          (list_ascii_of_string (lowercase_hex_digits s)) = true /\
  map hex_value (list_ascii_of_string (lowercase_hex_digits s))
  = map hex_value (list_ascii_of_string s).
Proof.
  induction s as [| c s IH];
    cbn [list_ascii_of_string forallb lower lowercase_hex_digits map];
    [auto |].
  intros H. apply andb_true_iff in H. destruct H as (Hc & Hs).
  destruct (lower_hex_digit c Hc) as (-> & -> & ->).
  destruct (IH Hs) as (-> & -> & ->). auto.
Qed.

Lemma lowercase_hex_digits_length s :
  String.length (lowercase_hex_digits s) = String.length s.
Proof. induction s as [| c s IH]; cbn; [reflexivity | now rewrite IH]. Qed.

(** C8. For an owner address written ["0x"] followed by 40 hex
    characters, [encode_balance_of_call] returns ["0x"], the selector
    ["70a08231"], 24 zero characters and the 40 digits in lower case,
    that is with [A-F] written [a-f] and the other digits as they are: 74
    characters in all, the last 40 being digits [0-9a-f] with the values
    of the digits of the address.  For 40 times ["a"] the result is
    ["0x70a08231"], 24 zeros and 40 times ["a"]. *)
Theorem encode_balance_of_call_padded (digits : string) :
  String.length digits = 40%nat ->
  forallb is_hex (list_ascii_of_string digits) = true ->
  encode_balance_of_call ("0x" ++ digits)
  = ("0x" ++ "70a08231" ++ zeros 24 ++ lowercase_hex_digits digits)%string /\
  String.length (encode_balance_of_call ("0x" ++ digits)) = 74%nat /\
  String.length (zeros 24 ++ lowercase_hex_digits digits) = 64%nat /\
  forallb is_lowercase_hex
          (list_ascii_of_string (lowercase_hex_digits digits)) = true /\
  map hex_value (list_ascii_of_string (lowercase_hex_digits digits))
  = map hex_value (list_ascii_of_string digits) /\
  encode_balance_of_call "0xaaaaaaaaaaaaaaaaaaaaaaaaaaaaaaaaaaaaaaaa"
  = "0x70a08231000000000000000000000000aaaaaaaaaaaaaaaaaaaaaaaaaaaaaaaaaaaaaaaa"%string.
Proof.
  intros Hlen Hhex.
  destruct (lower_hex_digits digits Hhex) as (Hlower & Hdigits & Hvalues).
  assert (Henc : encode_balance_of_call ("0x" ++ digits)
                 = ("0x" ++ "70a08231" ++ zeros 24
                         ++ lowercase_hex_digits digits)%string).
  { unfold encode_balance_of_call. cbn [append slice_from].
    rewrite zfill_unsigned.
    - rewrite lower_length, Hlen, Hlower. reflexivity.
    - rewrite lower_length, Hlen. lia.
    - destruct digits as [| c rest]; [exact I |].
      cbn [lower]. apply lower_hex_not_sign.
      cbn in Hhex. now apply andb_true_iff in Hhex. }
  split; [exact Henc |]. rewrite Henc.
  rewrite !length_app_string, zeros_length, lowercase_hex_digits_length, Hlen.
  auto 10.
Qed.

(** The theorem at the address of the source's example, written with
    letters of both cases, and at 40 times ["a"]. *)
Lemma encode_balance_of_call_padded_witness :
  encode_balance_of_call "0x7D5CEA2e5fBDFecca8CcfbFe85AC021C817a7f38"
  = "0x70a082310000000000000000000000007d5cea2e5fbdfecca8ccfbfe85ac021c817a7f38"%string /\
  encode_balance_of_call "0xaaaaaaaaaaaaaaaaaaaaaaaaaaaaaaaaaaaaaaaa"
  = "0x70a08231000000000000000000000000aaaaaaaaaaaaaaaaaaaaaaaaaaaaaaaaaaaaaaaa"%string.
Proof.
  split.
  - apply (encode_balance_of_call_padded
             "7D5CEA2e5fBDFecca8CcfbFe85AC021C817a7f38");
      vm_compute; reflexivity.
  - apply (encode_balance_of_call_padded
             "aaaaaaaaaaaaaaaaaaaaaaaaaaaaaaaaaaaaaaaa");
      vm_compute; reflexivity.
Defined.

(** ** Properties of the result decoding *)

Lemma is_hex_value c :
  is_hex c = true -> exists v, hex_value c = Some v /\ 0 <= v.
Proof.
  unfold is_hex, hex_value, digit_value.
  destruct (is_digit c), (in_range 97 102 c), (in_range 65 70 c);
    first [discriminate | intros _; eexists; split; [reflexivity | lia]].
Qed.

Lemma is_hex_plain c :
  is_hex c = true ->
  is_space c = false /\ Ascii.eqb c "_" = false /\
  Ascii.eqb c "+" = false /\ Ascii.eqb c "-" = false.
Proof.
  destruct c as [[] [] [] [] [] [] [] []]; cbv; intros H;
    first [discriminate H | repeat split].
Qed.

(** A run of hex digits is scanned to its end and valued most significant
    digit first. *)
Lemma scan_digits_hex digits value count :
  forallb is_hex digits = true ->
  scan_digits digits value count false
  = Some (fold_left
            (fun acc c =>
               16 * acc + match hex_value c with Some v => v | None => 0 end)
            digits value,
          (count + List.length digits)%nat, []).
Proof.
  revert value count.
  induction digits as [| c digits IH]; intros value count Hhex;
    cbn [scan_digits fold_left List.length].
  - now rewrite Nat.add_0_r.
  - cbn in Hhex. apply andb_true_iff in Hhex. destruct Hhex as (Hc & Hrest).
    destruct (is_hex_value c Hc) as (v & -> & _).
    rewrite IH by exact Hrest.
    replace (S count + List.length digits)%nat
      with (count + S (List.length digits))%nat by lia.
    reflexivity.
Qed.

Lemma fold_hex_nonneg digits value :
  0 <= value ->
  0 <= fold_left
         (fun acc c =>
            16 * acc + match hex_value c with Some v => v | None => 0 end)
         digits value.
Proof.
  revert value. induction digits as [| c digits IH]; intros value Hvalue;
    cbn [fold_left]; [exact Hvalue |].
  apply IH. destruct (hex_value c) as [v |] eqn:Hv; [| lia].
  assert (Hc : is_hex c = true) by (unfold is_hex; now rewrite Hv).
  destruct (is_hex_value c Hc) as (v' & Hv' & Hpos).
  rewrite Hv in Hv'. injection Hv' as <-. lia.
Qed.

Lemma literal_chars_cons c s :
  literal_char c = true -> literal_chars s -> literal_chars (c :: s).
Proof. intros Hc Hs. now constructor. Qed.

Lemma literal_chars_nil : literal_chars [].
Proof. constructor. Qed.

Lemma literal_char_cases c :
  is_hex c = true \/ is_space c = true \/ Ascii.eqb c "_" = true \/
  Ascii.eqb c "x" = true \/ Ascii.eqb c "X" = true \/
  Ascii.eqb c "+" = true \/ Ascii.eqb c "-" = true ->
  literal_char c = true.
Proof.
  unfold literal_char. rewrite !orb_true_iff. tauto.
Qed.

Lemma skip_spaces_literal s :
  literal_chars (skip_spaces s) -> literal_chars s.
Proof.
  induction s as [| c s IH]; cbn; [auto |].
  destruct (is_space c) eqn:Hc; [| auto].
  intros H. apply literal_chars_cons; [apply literal_char_cases; tauto | auto].
Qed.

Lemma skip_spaces_nil_literal s : skip_spaces s = [] -> literal_chars s.
Proof.
  intros H. apply skip_spaces_literal. rewrite H. apply literal_chars_nil.
Qed.

Lemma skip_sign_literal s :
  literal_chars (snd (skip_sign s)) -> literal_chars s.
Proof.
  destruct s as [| c s]; cbn; [auto |].
  destruct (Ascii.eqb c "+") eqn:Hplus; cbn.
  { intros H.
    apply literal_chars_cons; [apply literal_char_cases; tauto | auto]. }
  destruct (Ascii.eqb c "-") eqn:Hminus; cbn; [| auto].
  intros H. apply literal_chars_cons; [apply literal_char_cases; tauto | auto].
Qed.

Lemma skip_underscore_literal s :
  literal_chars (skip_underscore s) -> literal_chars s.
Proof.
  destruct s as [| c s]; cbn; [auto |].
  destruct (Ascii.eqb c "_") eqn:Hc; [| auto].
  intros H. apply literal_chars_cons; [apply literal_char_cases; tauto | auto].
Qed.

Lemma skip_prefix_literal s :
  literal_chars (skip_prefix s) -> literal_chars s.
Proof.
  destruct s as [| z [| x s]]; cbn [skip_prefix]; auto.
  destruct (Ascii.eqb z "0" && (Ascii.eqb x "x" || Ascii.eqb x "X")) eqn:Hp;
    [| auto].
  apply andb_true_iff in Hp. destruct Hp as (Hz & Hx).
  apply orb_true_iff in Hx. apply Ascii.eqb_eq in Hz. subst z.
  intros H. apply skip_underscore_literal in H.
  apply literal_chars_cons; [reflexivity |].
  apply literal_chars_cons; [apply literal_char_cases; tauto | exact H].
Qed.

Lemma scan_digits_literal s value count after result :
  scan_digits s value count after = Some result ->
  literal_chars (snd result) -> literal_chars s.
Proof.
  revert value count after.
  induction s as [| c s IH]; intros value count after; cbn.
  - intros _ _. apply literal_chars_nil.
  - destruct (hex_value c) as [v |] eqn:Hv.
    + intros Hscan Hrest. apply literal_chars_cons; [| eapply IH; eauto].
      apply literal_char_cases. left. unfold is_hex. now rewrite Hv.
    + destruct (Ascii.eqb c "_") eqn:Hc.
      * destruct after; [discriminate |].
        intros Hscan Hrest. apply literal_chars_cons; [| eapply IH; eauto].
        apply literal_char_cases. tauto.
      * destruct after; [discriminate |].
        intros [= <-]. cbn. auto.
Qed.

(** Every character of a string that [int(s, 16)] accepts is a hex digit,
    white space, an underscore, [x], [X] or a sign. *)
Lemma int16_literal s n :
  int16 s = Some n -> literal_chars (list_ascii_of_string s).
Proof.
  unfold int16.
  destruct (skip_sign (skip_spaces (list_ascii_of_string s)))
    as [negative s2] eqn:Hsign.
  destruct (starts_with_underscore (skip_prefix s2)); [discriminate |].
  destruct (scan_digits (skip_prefix s2) 0 0 false)
    as [[[value count] rest] |] eqn:Hscan; [| discriminate].
  destruct count as [| count]; [discriminate |].
  destruct (skip_spaces rest) eqn:Hrest; [| discriminate].
  intros _. apply skip_spaces_literal, skip_sign_literal. rewrite Hsign. cbn.
  apply skip_prefix_literal.
  apply (scan_digits_literal _ _ _ _ _ Hscan). cbn.
  now apply skip_spaces_nil_literal.
Qed.

(** C9, as stated, fails: ["-0x64"] is decoded, to the negative number
    [-100]; so an input exists on which the function neither fails nor
    returns an unsigned value. *)
Lemma decode_balance_result_negative :
  decode_balance_result "-0x64" = Decoded (-100) /\
  ~ (forall result,
        decode_balance_result result = DecodeError \/
        exists n, decode_balance_result result = Decoded n /\ 0 <= n).
Proof.
  split; [reflexivity |].
  intros H. destruct (H "-0x64"%string) as [Herr | (n & Hn & Hpos)].
  - discriminate Herr.
  - vm_compute in Hn. injection Hn as <-. lia.
Qed.

(** ** Further properties of the block resolver *)

(** An iteration at least halves the interval, keeps it inside the old
    one, and excludes the height it probed. *)
Lemma iteration_halves probe target st st' :
  iteration probe target st = Some st' ->
  Z.of_nat (interval_size st') <= Z.of_nat (interval_size st) / 2 /\
  left st <= left st' /\ right st' <= right st /\
  (midpoint st < left st' \/ right st' < midpoint st).
Proof.
  rewrite iteration_confirmed.
  destruct (Z.leb_spec (left st) (right st)) as [Hle | Hgt]; [| discriminate].
  unfold interval_size, midpoint.
  pose proof (Z.div_mod (left st + right st) 2 ltac:(lia)) as Hmid.
  pose proof (Z.mod_pos_bound (left st + right st) 2 ltac:(lia)) as Hrem.
  destruct (confirmed _ _ _); intros [= <-]; cbn [left right];
    (split; [| lia]);
    apply Z.div_le_lower_bound; lia.
Qed.

Lemma probed_heights_nodup probe target st :
  NoDup (probed_heights probe target st).
Proof.
  induction st as [st IH] using (loop_induction probe target).
  rewrite probed_heights_step.
  destruct (iteration probe target st) as [st' |] eqn:Hit; [| constructor].
  constructor; [| now apply IH].
  intros Hin. apply probed_heights_in_range in Hin.
  apply iteration_halves in Hit. lia.
Qed.

(** The number of probes is logarithmic in the size of the interval. *)
Lemma probed_heights_length probe target st :
  1 <= Z.of_nat (interval_size st) ->
  Z.of_nat (List.length (probed_heights probe target st))
  <= Z.log2 (Z.of_nat (interval_size st)) + 1.
Proof.
  induction st as [st IH] using (loop_induction probe target).
  intros Hsize. rewrite probed_heights_step.
  destruct (iteration probe target st) as [st' |] eqn:Hit.
  - specialize (IH st' eq_refl).
    apply iteration_halves in Hit. destruct Hit as (Hhalf & _).
    cbn [List.length]. rewrite Nat2Z.inj_succ.
    destruct (Z_lt_le_dec (Z.of_nat (interval_size st')) 1) as [Hzero | Hpos].
    + assert (Hnil : probed_heights probe target st' = []).
      { rewrite probed_heights_step, iteration_confirmed.
        unfold interval_size in Hzero.
        destruct (Z.leb_spec (left st') (right st')); [lia | reflexivity]. }
      rewrite Hnil. cbn [List.length].
      pose proof (Z.log2_nonneg (Z.of_nat (interval_size st))). lia.
    + specialize (IH Hpos).
      set (n := Z.of_nat (interval_size st)) in *.
      set (n' := Z.of_nat (interval_size st')) in *.
      assert (Hlog : Z.log2 n' + 1 <= Z.log2 n).
      { pose proof (Z.log2_double n' ltac:(lia)) as Hdouble.
        assert (Hmono : Z.log2 (2 * n') <= Z.log2 n).
        { apply Z.log2_le_mono.
          pose proof (Z.div_mod n 2 ltac:(lia)).
          pose proof (Z.mod_pos_bound n 2 ltac:(lia)). lia. }
        lia. }
      lia.
  - cbn [List.length]. pose proof (Z.log2_nonneg (Z.of_nat (interval_size st))).
    lia.
Qed.

(** X1. Whatever the probes answer, [find_last_block_of_day] probes only
    heights in [0..latest_block], and no height twice. *)
Theorem search_probes_each_height_once probe target latest :
  NoDup (probed_heights probe target (entry_state latest)) /\
  forall h, In h (probed_heights probe target (entry_state latest)) ->
            0 <= h <= latest.
Proof.
  split; [apply probed_heights_nodup |].
  intros h Hin. apply probed_heights_in_range in Hin. exact Hin.
Qed.

(** X2. Whatever the probes answer, a search over the heights
    [0..latest_block] makes at most [log2(latest_block + 1) + 1] probes. *)
Theorem search_probe_count probe target latest :
  0 <= latest ->
  Z.of_nat (List.length (probed_heights probe target (entry_state latest)))
  <= Z.log2 (latest + 1) + 1.
Proof.
  intros Hlatest.
  pose proof (probed_heights_length probe target (entry_state latest)) as H.
  unfold interval_size, entry_state in H; cbn [left right] in H.
  rewrite Z2Nat.id in H by lia.
  replace (latest - 0 + 1) with (latest + 1) in H by lia.
  apply H. lia.
Qed.

Lemma search_probe_count_witness :
  0 <= 100 /\
  Z.of_nat (List.length (probed_heights mock_chain 62500 (entry_state 100)))
  <= Z.log2 (100 + 1) + 1.
Proof.
  split; [lia |]. apply (search_probe_count mock_chain 62500 100). lia.
Defined.

(** ** Properties of the day's timestamps *)

Lemma month_cases m :
  1 <= m <= 12 ->
  m = 1 \/ m = 2 \/ m = 3 \/ m = 4 \/ m = 5 \/ m = 6 \/
  m = 7 \/ m = 8 \/ m = 9 \/ m = 10 \/ m = 11 \/ m = 12.
Proof. lia. Qed.

Lemma days_before_month_succ y m :
  1 <= m <= 11 ->
  days_before_month y (m + 1) = days_before_month y m + days_in_month y m.
Proof.
  intros Hm. unfold days_before_month, days_in_month.
  destruct (month_cases m ltac:(lia))
    as [-> | [-> | [-> | [-> | [-> | [-> |
        [-> | [-> | [-> | [-> | [-> | ->]]]]]]]]]]];
    try lia; destruct (is_leap y); reflexivity.
Qed.

Lemma days_before_month_bounds y m :
  1 <= m <= 12 ->
  0 <= days_before_month y m /\
  days_before_month y m + days_in_month y m
  <= 365 + (if is_leap y then 1 else 0).
Proof.
  intros Hm. unfold days_before_month, days_in_month.
  destruct (month_cases m Hm)
    as [-> | [-> | [-> | [-> | [-> | [-> |
        [-> | [-> | [-> | [-> | [-> | ->]]]]]]]]]]];
    destruct (is_leap y); split; apply Z.leb_le; reflexivity.
Qed.

Lemma days_in_month_bounds y m : 28 <= days_in_month y m <= 31.
Proof.
  unfold days_in_month.
  repeat match goal with
         | |- context [if ?b then _ else _] => destruct b
         end; lia.
Qed.

(** A later month starts after the earlier month has ended. *)
Lemma days_before_month_lt y m1 m2 :
  1 <= m1 -> m1 < m2 -> m2 <= 12 ->
  days_before_month y m1 + days_in_month y m1 <= days_before_month y m2.
Proof.
  intros H1 Hlt H2.
  assert (Hstep : forall k, 0 <= k -> m1 + 1 + k <= 12 ->
             days_before_month y m1 + days_in_month y m1
             <= days_before_month y (m1 + 1 + k)).
  { intros k Hk. pattern k. apply natlike_ind; [| | exact Hk].
    - intros _. rewrite Z.add_0_r, days_before_month_succ by lia. lia.
    - intros j Hj IH Hbound.
      replace (m1 + 1 + Z.succ j) with ((m1 + 1 + j) + 1) by lia.
      rewrite days_before_month_succ by lia.
      specialize (IH ltac:(lia)).
      pose proof (days_in_month_bounds y (m1 + 1 + j)). lia. }
  replace m2 with (m1 + 1 + (m2 - m1 - 1)) by lia.
  apply Hstep; lia.
Qed.

Lemma days_before_year_succ y :
  days_before_year (y + 1)
  = days_before_year y + 365 + (if is_leap y then 1 else 0).
Proof.
  unfold days_before_year, is_leap. cbv zeta.
  replace (y + 1 - 1) with y by lia.
  destruct (Z.eqb_spec (y mod 4) 0), (Z.eqb_spec (y mod 100) 0),
    (Z.eqb_spec (y mod 400) 0); cbn [andb orb negb];
    Z.div_mod_to_equations; lia.
Qed.

Lemma days_before_year_mono y1 y2 :
  y1 <= y2 -> days_before_year y1 <= days_before_year y2.
Proof.
  intros Hle. unfold days_before_year. cbv zeta.
  Z.div_mod_to_equations. lia.
Qed.

(** The ordinal of the next calendar day is one more. *)
Lemma toordinal_next_day d :
  valid_date d -> toordinal (next_day d) = toordinal d + 1.
Proof.
  intros (Hy & Hm & Hd). unfold next_day, toordinal.
  destruct (Z.ltb_spec (day d) (days_in_month (year d) (month d)));
    [cbn [year month day]; lia |].
  destruct (Z.ltb_spec (month d) 12); cbn [year month day].
  - rewrite days_before_month_succ by lia. lia.
  - assert (Hdec : month d = 12) by lia. rewrite Hdec in *.
    rewrite days_before_year_succ.
    assert (Hjan : days_before_month (year d + 1) 1 = 0) by reflexivity.
    assert (Hdecember : days_before_month (year d) 12
                        = 334 + (if is_leap (year d) then 1 else 0))
      by reflexivity.
    assert (Hdim : days_in_month (year d) 12 = 31) by reflexivity.
    rewrite Hjan, Hdecember. rewrite Hdim in *.
    destruct (is_leap (year d)); lia.
Qed.

(** A later date has a larger ordinal. *)
Lemma toordinal_lt d1 d2 :
  valid_date d1 -> valid_date d2 -> date_gt d2 d1 = true ->
  toordinal d1 < toordinal d2.
Proof.
  intros (Hy1 & Hm1 & Hd1) (Hy2 & Hm2 & Hd2) Hgt. unfold toordinal.
  unfold date_gt in Hgt.
  repeat (rewrite orb_true_iff in Hgt || rewrite andb_true_iff in Hgt).
  rewrite !Z.ltb_lt, !Z.eqb_eq in Hgt.
  pose proof (days_before_month_bounds (year d1) (month d1) Hm1) as (Hb1 & He1).
  pose proof (days_before_month_bounds (year d2) (month d2) Hm2) as (Hb2 & _).
  destruct Hgt as [Hyear | (Hyear & [Hmonth | (Hmonth & Hday)])].
  - pose proof (days_before_year_succ (year d1)) as Hsucc.
    pose proof (days_before_year_mono (year d1 + 1) (year d2) ltac:(lia)).
    lia.
  - rewrite Hyear in *.
    pose proof (days_before_month_lt (year d1) (month d1) (month d2)
                  ltac:(lia) Hmonth ltac:(lia)).
    lia.
  - rewrite Hyear, Hmonth in *. lia.
Qed.

Lemma date_gt_total a b :
  date_gt a b = false -> a = b \/ date_gt b a = true.
Proof.
  destruct a as [ya ma da], b as [yb mb db]. unfold date_gt; cbn.
  intros Hgt.
  destruct (Z.ltb_spec yb ya), (Z.eqb_spec ya yb), (Z.ltb_spec mb ma),
    (Z.eqb_spec ma mb), (Z.ltb_spec db da); cbn in Hgt; try discriminate;
    try lia;
    destruct (Z.ltb_spec ya yb), (Z.eqb_spec yb ya), (Z.ltb_spec ma mb),
      (Z.eqb_spec mb ma), (Z.ltb_spec da db); cbn; try lia; auto.
  left. f_equal; lia.
Qed.

(** What [validate_date] returns: midnight UTC of a date of the calendar
    that is not after today. *)
Lemma validate_date_valid_inv date_str today date_obj :
  validate_date date_str today = Valid date_obj ->
  date_obj = utc_midnight (dt_date date_obj) /\
  valid_date (dt_date date_obj) /\
  date_gt (dt_date date_obj) today = false.
Proof.
  unfold validate_date.
  destruct (strptime date_str) as [parsed | message] eqn:Hparse;
    [| intros H; now apply on_value_error_not_valid in H].
  destruct (strptime_parsed _ _ Hparse)
    as (y & m & d & Hmatch & Hy & Hd & ->).
  cbn [dt_date hour minute second].
  destruct (date_gt (mk_date y m d) today) eqn:Hgt;
    [intros H; now apply on_value_error_not_valid in H |].
  intros [= <-]. cbn [dt_date]. split; [reflexivity |]. split; [| exact Hgt].
  apply regex_match_sound in Hmatch.
  destruct Hmatch as (yt & mt & dt & _ & Hyt & (Hm & _) & (Hday & _)).
  apply year_text_bounds in Hyt.
  unfold valid_date; cbn [year month day]. lia.
Qed.

(** X3. The ranges of consecutive days are adjacent: the start of the
    next calendar day is one second after the end of the day. *)
Theorem consecutive_days_adjacent mktime d :
  valid_date d ->
  fst (date_to_timestamps mktime (utc_midnight (next_day d)))
  = snd (date_to_timestamps mktime (utc_midnight d)) + 1.
Proof.
  intros Hvalid. unfold date_to_timestamps, timestamp, utc_midnight.
  cbn [fst snd tzinfo dt_date hour minute second].
  rewrite (toordinal_next_day d Hvalid). lia.
Qed.

Lemma consecutive_days_adjacent_witness :
  valid_date (mk_date 2024 2 29) /\
  fst (date_to_timestamps (fun _ => 0) (utc_midnight (mk_date 2024 3 1)))
  = snd (date_to_timestamps (fun _ => 0) (utc_midnight (mk_date 2024 2 29)))
    + 1.
Proof.
  assert (Hvalid : valid_date (mk_date 2024 2 29))
    by (unfold valid_date; cbn; lia).
  split; [exact Hvalid |].
  exact (consecutive_days_adjacent (fun _ => 0) (mk_date 2024 2 29) Hvalid).
Defined.

(** X4. The ranges of different days do not overlap and follow the order
    of the dates: a later date starts after the earlier date has
    ended. *)
Theorem later_day_starts_after_end mktime d1 d2 :
  valid_date d1 -> valid_date d2 -> date_gt d2 d1 = true ->
  snd (date_to_timestamps mktime (utc_midnight d1))
  < fst (date_to_timestamps mktime (utc_midnight d2)).
Proof.
  intros H1 H2 Hgt. unfold date_to_timestamps, timestamp, utc_midnight.
  cbn [fst snd tzinfo dt_date hour minute second].
  pose proof (toordinal_lt d1 d2 H1 H2 Hgt). lia.
Qed.

Lemma later_day_starts_after_end_witness :
  valid_date (mk_date 2023 12 31) /\ valid_date (mk_date 2024 1 1) /\
  date_gt (mk_date 2024 1 1) (mk_date 2023 12 31) = true /\
  snd (date_to_timestamps (fun _ => 0) (utc_midnight (mk_date 2023 12 31)))
  < fst (date_to_timestamps (fun _ => 0) (utc_midnight (mk_date 2024 1 1))).
Proof.
  assert (H1 : valid_date (mk_date 2023 12 31))
    by (unfold valid_date; cbn; lia).
  assert (H2 : valid_date (mk_date 2024 1 1))
    by (unfold valid_date; cbn; lia).
  assert (Hgt : date_gt (mk_date 2024 1 1) (mk_date 2023 12 31) = true)
    by reflexivity.
  refine (conj H1 (conj H2 (conj Hgt _))).
  exact (later_day_starts_after_end (fun _ => 0) _ _ H1 H2 Hgt).
Defined.

(** X5. For a date that [validate_date] accepts, the timestamps do not
    depend on the local time zone: the start is midnight UTC, a multiple
    of 86400 counted from 1970-01-01, the end is 86399 seconds later,
    and the end is never after 23:59:59 UTC of the current day. *)
Theorem validated_day_timestamps mktime date_str today date_obj :
  valid_date today ->
  validate_date date_str today = Valid date_obj ->
  date_to_timestamps mktime date_obj
  = (86400 * (toordinal (dt_date date_obj) - 719163),
     86400 * (toordinal (dt_date date_obj) - 719163) + 86399) /\
  snd (date_to_timestamps mktime date_obj)
  <= snd (date_to_timestamps mktime (utc_midnight today)).
Proof.
  intros Htoday Hvalid.
  destruct (validate_date_valid_inv _ _ _ Hvalid) as (Hshape & Hdate & Hgt).
  rewrite Hshape. unfold date_to_timestamps, timestamp, utc_midnight.
  cbn [fst snd tzinfo dt_date hour minute second].
  split; [f_equal; lia |].
  destruct (date_gt_total _ _ Hgt) as [-> | Hlater]; [lia |].
  pose proof (toordinal_lt _ _ Hdate Htoday Hlater). lia.
Qed.

Lemma validated_day_timestamps_witness :
  valid_date (mk_date 2024 6 15) /\
  validate_date "2024-01-01" (mk_date 2024 6 15)
  = Valid (utc_midnight (mk_date 2024 1 1)) /\
  date_to_timestamps (fun _ => 0) (utc_midnight (mk_date 2024 1 1))
  = (1704067200, 1704153599).
Proof.
  assert (Htoday : valid_date (mk_date 2024 6 15))
    by (unfold valid_date; cbn; lia).
  assert (Hvalid : validate_date "2024-01-01" (mk_date 2024 6 15)
                   = Valid (utc_midnight (mk_date 2024 1 1)))
    by reflexivity.
  refine (conj Htoday (conj Hvalid _)).
  destruct (validated_day_timestamps (fun _ => 0) _ _ _ Htoday Hvalid)
    as (Heq & _).
  rewrite Heq. reflexivity.
Defined.

(** ** Properties of [hex] and of the encoders *)

Lemma hex_digit_value d :
  0 <= d < 16 -> hex_value (hex_digit d) = Some d.
Proof.
  intros Hd.
  assert (Hcases : d = 0 \/ d = 1 \/ d = 2 \/ d = 3 \/ d = 4 \/ d = 5 \/
                   d = 6 \/ d = 7 \/ d = 8 \/ d = 9 \/ d = 10 \/ d = 11 \/
                   d = 12 \/ d = 13 \/ d = 14 \/ d = 15) by lia.
  repeat (destruct Hcases as [-> | Hcases]; [reflexivity |]).
  subst d. reflexivity.
Qed.

Lemma hex_digit_is_hex d : 0 <= d < 16 -> is_hex (hex_digit d) = true.
Proof.
  intros Hd. unfold is_hex. now rewrite (hex_digit_value d Hd).
Qed.

Lemma hex_number_app digits c :
  hex_number (digits ++ [c])
  = 16 * hex_number digits
    + match hex_value c with Some v => v | None => 0 end.
Proof. unfold hex_number. rewrite fold_left_app. reflexivity. Qed.

Lemma hex_digits_step n :
  hex_digits n =
  if n <? 16 then [hex_digit n]
  else hex_digits (n / 16) ++ [hex_digit (n mod 16)].
Proof.
  funelim (hex_digits n).
  - rewrite e. reflexivity.
  - rewrite Hge. reflexivity.
Qed.

(** The digits of [n >= 0] are hex digits, at least one, and write [n]. *)
Lemma hex_digits_spec n :
  0 <= n ->
  forallb is_hex (hex_digits n) = true /\
  hex_digits n <> [] /\
  hex_number (hex_digits n) = n.
Proof.
  intros Hn. pattern n. apply Zlt_0_ind; [| exact Hn].
  clear n Hn. intros n IH Hn.
  rewrite hex_digits_step. destruct (Z.ltb_spec n 16) as [Hlt | Hge].
  - cbn [forallb]. rewrite hex_digit_is_hex by lia.
    refine (conj eq_refl (conj _ _)); [discriminate |].
    unfold hex_number; cbn [fold_left]. rewrite hex_digit_value by lia. lia.
  - pose proof (Z.div_mod n 16 ltac:(lia)) as Hdm.
    pose proof (Z.mod_pos_bound n 16 ltac:(lia)) as Hmod.
    destruct (IH (n / 16) ltac:(lia)) as (Hall & Hne & Hval).
    rewrite forallb_app, Hall. cbn [forallb].
    rewrite hex_digit_is_hex by lia.
    refine (conj eq_refl (conj _ _)).
    + intros Habs. now apply app_eq_nil in Habs.
    + rewrite hex_number_app, Hval, hex_digit_value by lia. lia.
Qed.

(** [int(s, 16)] on a literal made of an optional ["-"], ["0x"] and hex
    digits. *)
Lemma int16_hex_literal digits :
  digits <> [] -> forallb is_hex digits = true ->
  int16 ("0x" ++ string_of_list_ascii digits) = Some (hex_number digits) /\
  int16 ("-0x" ++ string_of_list_ascii digits)
  = Some (- hex_number digits).
Proof.
  intros Hne Hall.
  destruct digits as [| c digits]; [contradiction |].
  pose proof Hall as Hhex. cbn in Hhex.
  apply andb_true_iff in Hhex. destruct Hhex as (Hc & _).
  destruct (is_hex_plain c Hc) as (_ & Hus & _ & _).
  assert (Hbody : forall negative,
             (if starts_with_underscore
                   (skip_prefix ("0"%char :: "x"%char :: c :: digits))
              then None
              else
                match scan_digits
                        (skip_prefix ("0"%char :: "x"%char :: c :: digits))
                        0 0 false with
                | Some (value, S _, rest) =>
                    match skip_spaces rest with
                    | [] => Some (if negative : bool then - value else value)
                    | _ :: _ => None
                    end
                | _ => None
                end)
             = Some (if negative then - hex_number (c :: digits)
                     else hex_number (c :: digits))).
  { intros negative.
    change (skip_prefix ("0"%char :: "x"%char :: c :: digits))
      with (skip_underscore (c :: digits)).
    cbn [skip_underscore]. rewrite Hus. cbn [starts_with_underscore].
    rewrite Hus, (scan_digits_hex (c :: digits) 0 0 Hall).
    reflexivity. }
  unfold int16. cbn [append list_ascii_of_string].
  rewrite list_ascii_of_string_of_list_ascii.
  split.
  - change (skip_spaces ("0"%char :: "x"%char :: c :: digits))
      with ("0"%char :: "x"%char :: c :: digits).
    change (skip_sign ("0"%char :: "x"%char :: c :: digits))
      with (false, "0"%char :: "x"%char :: c :: digits).
    cbv beta iota zeta. exact (Hbody false).
  - change (skip_spaces ("-"%char :: "0"%char :: "x"%char :: c :: digits))
      with ("-"%char :: "0"%char :: "x"%char :: c :: digits).
    change (skip_sign ("-"%char :: "0"%char :: "x"%char :: c :: digits))
      with (true, "0"%char :: "x"%char :: c :: digits).
    cbv beta iota zeta. exact (Hbody true).
Qed.

(** X6. [int(hex(n), 16) == n] for every integer [n]: the height written
    into a request by [hex] is read back unchanged by the decoder of the
    results, and [hex(n)] is never the empty-data string ["0x"]. *)
Theorem int_of_hex n :
  int16 (hex n) = Some n /\ decode_balance_result (hex n) = Decoded n.
Proof.
  assert (Hint : int16 (hex n) = Some n).
  { unfold hex. destruct (Z.ltb_spec n 0) as [Hneg | Hpos].
    - destruct (hex_digits_spec (- n) ltac:(lia)) as (Hall & Hne & Hval).
      destruct (int16_hex_literal _ Hne Hall) as (_ & ->).
      rewrite Hval. f_equal. lia.
    - destruct (hex_digits_spec n Hpos) as (Hall & Hne & Hval).
      destruct (int16_hex_literal _ Hne Hall) as (-> & _).
      now rewrite Hval. }
  split; [exact Hint |].
  unfold decode_balance_result. rewrite Hint.
  destruct (String.eqb_spec (hex n) "0x") as [Heq | _]; [| reflexivity].
  rewrite Heq in Hint. discriminate Hint.
Qed.

Lemma hex_number_upper digits :
  forallb is_hex digits = true ->
  hex_number digits < 16 ^ Z.of_nat (List.length digits).
Proof.
  induction digits as [| c digits IH] using rev_ind; intros Hall.
  - reflexivity.
  - rewrite forallb_app in Hall. apply andb_true_iff in Hall.
    destruct Hall as (Hall & Hc). cbn [forallb] in Hc.
    rewrite andb_true_r in Hc.
    specialize (IH Hall). rewrite hex_number_app.
    rewrite length_app. cbn [List.length].
    rewrite Nat2Z.inj_add, Z.pow_add_r by lia.
    change (16 ^ Z.of_nat 1) with 16.
    assert (Hv : match hex_value c with Some v => v | None => 0 end < 16).
    { unfold hex_value, digit_value.
      destruct (is_digit c) eqn:Hd; [char_facts; lia |].
      destruct (in_range 97 102 c) eqn:Hl; [char_facts; lia |].
      destruct (in_range 65 70 c) eqn:Hu; [char_facts; lia | lia]. }
    lia.
Qed.

(** X7. A reply made of ["0x"] and [k >= 1] hex digits decodes to a
    balance in [0 .. 16^k - 1]; a 32-byte word (64 digits) gives a value
    below [2^256]. *)
Theorem decode_balance_result_range digits :
  digits <> [] -> forallb is_hex digits = true ->
  exists balance,
    decode_balance_result ("0x" ++ string_of_list_ascii digits)
    = Decoded balance /\
    0 <= balance < 16 ^ Z.of_nat (List.length digits) /\
    (List.length digits = 64%nat -> balance < 2 ^ 256).
Proof.
  intros Hne Hall. exists (hex_number digits).
  destruct (int16_hex_literal digits Hne Hall) as (Hint & _).
  pose proof (hex_number_upper digits Hall) as Hupper.
  pose proof (fold_hex_nonneg digits 0 ltac:(lia)) as Hlower.
  fold (hex_number digits) in Hlower.
  split; [| split; [lia |]].
  - unfold decode_balance_result. rewrite Hint.
    destruct digits as [| c digits]; [contradiction |]. reflexivity.
  - intros Hlen. rewrite Hlen in Hupper.
    change (16 ^ Z.of_nat 64) with (2 ^ 256) in Hupper. exact Hupper.
Qed.

Lemma decode_balance_result_range_witness :
  exists balance,
    decode_balance_result "0x00ff" = Decoded balance /\
    0 <= balance < 16 ^ 4.
Proof.
  destruct (decode_balance_result_range
              ["0"%char; "0"%char; "f"%char; "f"%char])
    as (balance & Hdec & Hrange & _);
    [discriminate | reflexivity |].
  exists balance. split; [exact Hdec | exact Hrange].
Defined.

Lemma slice_from_length n s :
  String.length (slice_from n s) = (String.length s - n)%nat.
Proof.
  revert s. induction n as [| n IH]; intros s; cbn [slice_from].
  - lia.
  - destruct s as [| c s]; cbn [String.length]; [reflexivity | apply IH].
Qed.

Lemma lower_slice_from n s : lower (slice_from n s) = slice_from n (lower s).
Proof.
  revert s. induction n as [| n IH]; intros s; cbn [slice_from];
    [reflexivity |].
  destruct s as [| c s]; cbn [lower slice_from]; [reflexivity | apply IH].
Qed.

Lemma zfill_length width s :
  String.length (zfill width s) = Nat.max width (String.length s).
Proof.
  unfold zfill. destruct (Nat.leb_spec width (String.length s)) as [Hle | Hlt].
  - lia.
  - destruct s as [| c rest].
    + rewrite zeros_length. cbn [String.length]. lia.
    + destruct (Ascii.eqb c "+" || Ascii.eqb c "-");
        cbn [String.length] in *;
        rewrite ?length_app_string, zeros_length; cbn [String.length]; lia.
Qed.

(** X8. For an address of ASCII characters (no other validation is
    made), the payload starts with ["0x70a08231"] and is
    [10 + max(64, len(address) - 2)] characters long: an argument longer
    than 64 characters is not cut, and the payload has 74 characters
    exactly when the address has at most 66. *)
Theorem encode_balance_of_call_length address :
  forallb is_ascii (list_ascii_of_string address) = true ->
  String.prefix "0x70a08231" (encode_balance_of_call address) = true /\
  String.length (encode_balance_of_call address)
  = (10 + Nat.max 64 (String.length address - 2))%nat /\
  (String.length (encode_balance_of_call address) = 74%nat <->
   (String.length address <= 66)%nat).
Proof.
  intros _.
  assert (Hlen : String.length (encode_balance_of_call address)
                 = (10 + Nat.max 64 (String.length address - 2))%nat).
  { unfold encode_balance_of_call. cbv zeta.
    rewrite !length_app_string, zfill_length, lower_length, slice_from_length.
    reflexivity. }
  split; [| split; [exact Hlen | rewrite Hlen; lia]].
  unfold encode_balance_of_call. cbv zeta. cbn [append String.prefix].
  rewrite ?Ascii.eqb_refl.
  destruct (zfill 64 (lower (slice_from 2 address))); reflexivity.
Qed.

Lemma encode_balance_of_call_length_witness :
  String.length
    (encode_balance_of_call "0x7D5CEA2e5fBDFecca8CcfbFe85AC021C817a7f38")
  = 74%nat /\
  String.length
    (encode_balance_of_call
       "0x7D5CEA2e5fBDFecca8CcfbFe85AC021C817a7f387D5CEA2e5fBDFecca8CcfbFe85AC021C817a7f38")
  = 90%nat.
Proof.
  split.
  - apply (encode_balance_of_call_length
             "0x7D5CEA2e5fBDFecca8CcfbFe85AC021C817a7f38");
      vm_compute; [reflexivity | lia].
  - destruct (encode_balance_of_call_length
                "0x7D5CEA2e5fBDFecca8CcfbFe85AC021C817a7f387D5CEA2e5fBDFecca8CcfbFe85AC021C817a7f38")
      as (_ & Hlen & _); [reflexivity | exact Hlen].
Defined.

(** The two cases of an ASCII letter have the same lower-case form. *)
Lemma same_letter_lower c d :
  same_letter c d -> lower_char c = lower_char d.
Proof.
  assert (Hup : forall u l,
             in_range 65 90 u = true -> code l = (code u + 32)%nat ->
             lower_char u = lower_char l).
  { intros u l Hu Hl. unfold lower_char. rewrite Hu. cbn [orb].
    pose proof Hu as Hrange. apply in_range_spec in Hrange.
    assert (H1 : in_range 65 90 l = false).
    { destruct (in_range 65 90 l) eqn:H; [| reflexivity].
      apply in_range_spec in H. lia. }
    assert (H2 : in_range 192 222 l = false).
    { destruct (in_range 192 222 l) eqn:H; [| reflexivity].
      apply in_range_spec in H. lia. }
    rewrite H1, H2. cbn [orb andb]. rewrite <- Hl.
    apply ascii_nat_embedding. }
  intros [-> | [(Hc & Hd) | (Hd & Hc)]]; [reflexivity | |].
  - now apply Hup.
  - symmetry. now apply Hup.
Qed.

Lemma same_letters_lower address1 address2 :
  Forall2 same_letter (list_ascii_of_string address1)
          (list_ascii_of_string address2) ->
  lower address1 = lower address2.
Proof.
  revert address2.
  induction address1 as [| c s IH]; intros [| d t];
    cbn [list_ascii_of_string lower]; intros H; inversion H; subst;
    [reflexivity |].
  f_equal; [now apply same_letter_lower | now apply IH].
Qed.

(** X9. The payload does not depend on the letter case of an address of
    ASCII characters: two addresses that differ only in the case of
    their letters (a checksummed and an all-lower-case spelling) are
    encoded alike. *)
Theorem encode_balance_of_call_case address1 address2 :
  forallb is_ascii (list_ascii_of_string address1) = true ->
  Forall2 same_letter (list_ascii_of_string address1)
          (list_ascii_of_string address2) ->
  encode_balance_of_call address1 = encode_balance_of_call address2.
Proof.
  intros _ Hsame. unfold encode_balance_of_call. cbv zeta.
  now rewrite !lower_slice_from, (same_letters_lower _ _ Hsame).
Qed.

Lemma encode_balance_of_call_case_witness :
  encode_balance_of_call "0x7D5CEA2e5fBDFecca8CcfbFe85AC021C817a7f38"
  = encode_balance_of_call "0x7d5cea2e5fbdfecca8ccfbfe85ac021c817a7f38".
Proof.
  apply encode_balance_of_call_case; [reflexivity |].
  cbn [list_ascii_of_string].
  repeat (constructor;
          [first [ left; reflexivity
                 | right; left; split; reflexivity ] |]).
  constructor.
Defined.

(** ** Properties of the client and of the query *)

Section ClientFacts.

Variable json_loads : string -> option json.
Variable urlopen : list json -> json -> transport_outcome.

Local Notation "'probe_block'" := (Client.probe_block json_loads urlopen).
Local Notation "'rpc_iteration'" :=
  (Client.rpc_iteration json_loads urlopen).
Local Notation "'rpc_while_loop'" := (Client.while_loop json_loads urlopen).

Lemma call_posts method params sent :
  snd (Client.call json_loads urlopen method params sent)
  = sent ++ [payload method params].
Proof. reflexivity. Qed.

Lemma probe_block_posts h sent :
  snd (probe_block h sent) = sent ++ [block_request h].
Proof. reflexivity. Qed.

Lemma rpc_while_loop_step target st w :
  rpc_while_loop target st w =
  match rpc_iteration target st w with
  | Some (st', w') => rpc_while_loop target st' w'
  | None => (result_block st, w)
  end.
Proof.
  funelim (Client.while_loop json_loads urlopen target st w).
  - rewrite Hit. reflexivity.
  - rewrite e. reflexivity.
Qed.

(** What one iteration against the gateway does to the search state, to
    the requests and to the output. *)
Lemma rpc_iteration_some target st w st' w' :
  rpc_iteration target st w = Some (st', w') ->
  iteration
    (fun h => Client.probe_outcome_of (fst (probe_block h (Client.posted w))))
    target st = Some st' /\
  Client.posted w' = Client.posted w ++ [block_request (midpoint st)] /\
  Client.printed w'
  = Client.printed w
    ++ Client.warning (midpoint st)
         (fst (probe_block (midpoint st) (Client.posted w))).
Proof.
  unfold Client.rpc_iteration.
  destruct (iteration _ target st) as [st0 |] eqn:Hstep; [| discriminate].
  pose proof (probe_block_posts (midpoint st) (Client.posted w)) as Hposts.
  destruct (probe_block (midpoint st) (Client.posted w)) as [r sent'].
  cbn [fst snd] in *. intros [= <- <-]. cbn. subst sent'. auto.
Qed.

Lemma rpc_iteration_none target st w :
  rpc_iteration target st w = None -> (right st < left st).
Proof.
  unfold Client.rpc_iteration. rewrite iteration_confirmed.
  destruct (Z.leb_spec (left st) (right st)); [| lia].
  destruct (confirmed _ _ _);
    destruct (probe_block (midpoint st) (Client.posted w)); discriminate.
Qed.

(** Induction along the iterations against the gateway. *)
Lemma rpc_loop_induction target (P : search_state -> Client.world -> Prop) :
  (forall st w,
      (forall st' w', rpc_iteration target st w = Some (st', w') -> P st' w') ->
      P st w) ->
  forall st w, P st w.
Proof.
  intros Hrec st.
  remember (interval_size st) as n eqn:Hn.
  revert st Hn.
  induction n as [n IH] using lt_wf_ind.
  intros st -> w. apply Hrec. intros st' w' Hit.
  apply (IH (interval_size st')); [| reflexivity].
  apply rpc_iteration_some in Hit. destruct Hit as (Hstep & _).
  exact (iteration_shrinks _ _ _ _ Hstep).
Qed.

(** Against any node, the loop posts block requests only, for distinct
    heights of the interval, logarithmically many, and prints warnings
    only. *)
Lemma rpc_while_loop_requests target st w :
  exists hs lines,
    Client.posted (snd (rpc_while_loop target st w))
    = Client.posted w ++ map block_request hs /\
    Client.printed (snd (rpc_while_loop target st w))
    = Client.printed w ++ lines /\
    Forall (fun line => exists h e, line = Client.WarningLine h e /\ In h hs)
           lines /\
    NoDup hs /\
    (forall h, In h hs -> left st <= h <= right st) /\
    (Z.of_nat (interval_size st) < 1 -> hs = []) /\
    (1 <= Z.of_nat (interval_size st) ->
     Z.of_nat (List.length hs) <= Z.log2 (Z.of_nat (interval_size st)) + 1).
Proof.
  revert st w. apply (rpc_loop_induction target). intros st w IH.
  rewrite rpc_while_loop_step.
  destruct (rpc_iteration target st w) as [[st' w'] |] eqn:Hit.
  - destruct (IH st' w' eq_refl)
      as (hs & lines & Hposted & Hprinted & Hlines & Hnodup & Hrange
          & Hzero & Hlog).
    destruct (rpc_iteration_some _ _ _ _ _ Hit) as (Hstep & Hp & Hw).
    pose proof (iteration_halves _ _ _ _ Hstep)
      as (Hhalf & Hleft & Hright & Hout).
    assert (Hmid : left st <= midpoint st <= right st).
    { apply midpoint_bounds. rewrite iteration_confirmed in Hstep.
      destruct (Z.leb_spec (left st) (right st)); [lia | discriminate]. }
    set (r := fst (probe_block (midpoint st) (Client.posted w))) in *.
    exists (midpoint st :: hs), (Client.warning (midpoint st) r ++ lines).
    split; [rewrite Hposted, Hp, <- app_assoc; reflexivity |].
    split; [rewrite Hprinted, Hw, <- app_assoc; reflexivity |].
    split; [| split; [| split; [| split]]].
    + apply Forall_app. split.
      * unfold Client.warning.
        destruct r as [? | e]; constructor; [| constructor].
        exists (midpoint st), e. split; [reflexivity | now left].
      * eapply Forall_impl; [| exact Hlines].
        intros line (h & e & -> & Hin). exists h, e.
        split; [reflexivity | now right].
    + constructor; [| exact Hnodup].
      intros Hin. apply Hrange in Hin. lia.
    + intros h [<- | Hin]; [exact Hmid |]. apply Hrange in Hin. lia.
    + unfold interval_size. lia.
    + intros Hsize. cbn [List.length]. rewrite Nat2Z.inj_succ.
      destruct (Z_lt_le_dec (Z.of_nat (interval_size st')) 1) as [Hz | Hpos].
      * rewrite (Hzero Hz). cbn [List.length].
        pose proof (Z.log2_nonneg (Z.of_nat (interval_size st))). lia.
      * specialize (Hlog Hpos).
        set (n := Z.of_nat (interval_size st)) in *.
        set (n' := Z.of_nat (interval_size st')) in *.
        pose proof (Z.log2_double n' ltac:(lia)) as Hdouble.
        assert (Hmono : Z.log2 (2 * n') <= Z.log2 n).
        { apply Z.log2_le_mono.
          pose proof (Z.div_mod n 2 ltac:(lia)).
          pose proof (Z.mod_pos_bound n 2 ltac:(lia)). lia. }
        lia.
  - apply rpc_iteration_none in Hit.
    exists [], []. cbn [snd map List.length]. rewrite !app_nil_r.
    repeat split; auto; try constructor; try contradiction.
    pose proof (Z.log2_nonneg (Z.of_nat (interval_size st))). lia.
Qed.

End ClientFacts.

Lemma iteration_ext probe1 probe2 target st :
  probe1 (midpoint st) = probe2 (midpoint st) ->
  iteration probe1 target st = iteration probe2 target st.
Proof. intros H. unfold iteration. cbv zeta. now rewrite H. Qed.

Lemma get_block_number_posts json_loads urlopen sent :
  snd (Client.get_block_number json_loads urlopen sent)
  = sent ++ [payload "eth_blockNumber" []].
Proof. reflexivity. Qed.

(** X10. Against any node, [find_last_block_of_day] first posts the
    [eth_blockNumber] request; when that call raises, the exception is
    passed on and nothing else is posted; otherwise a result is returned
    after block requests only, for distinct heights in
    [0..latest_block], at most [log2(latest_block + 1) + 1] of them, and
    the only lines printed are warnings for heights that were probed. *)
Theorem client_search_requests json_loads urlopen target w :
  let run := Client.find_last_block_of_day json_loads urlopen target w in
  match fst (Client.get_block_number json_loads urlopen (Client.posted w)) with
  | Client.Raised e =>
      run = (Client.Raised e,
             Client.mk_world
               (Client.posted w ++ [payload "eth_blockNumber" []])
               (Client.printed w))
  | Client.Returned latest =>
      exists result hs lines,
        fst run = Client.Returned result /\
        Client.posted (snd run)
        = Client.posted w ++ payload "eth_blockNumber" []
                          :: map block_request hs /\
        Client.printed (snd run) = Client.printed w ++ lines /\
        Forall (fun line =>
                  exists h e, line = Client.WarningLine h e /\ In h hs)
               lines /\
        NoDup hs /\
        (forall h, In h hs -> 0 <= h <= latest) /\
        (0 <= latest ->
         Z.of_nat (List.length hs) <= Z.log2 (latest + 1) + 1)
  end.
Proof.
  cbv zeta. unfold Client.find_last_block_of_day.
  pose proof (get_block_number_posts json_loads urlopen (Client.posted w))
    as Hposts.
  destruct (Client.get_block_number json_loads urlopen (Client.posted w))
    as [[latest | e] sent']; cbn [fst snd] in *; subst sent';
    [| reflexivity].
  pose proof (rpc_while_loop_requests json_loads urlopen target
                (entry_state latest)
                (Client.mk_world
                   (Client.posted w ++ [payload "eth_blockNumber" []])
                   (Client.printed w)))
    as (hs & lines & Hposted & Hprinted & Hlines & Hnodup & Hrange & _ & Hlog).
  destruct (Client.while_loop json_loads urlopen target _ _) as [result w'].
  cbn [fst snd Client.posted Client.printed] in *.
  exists result, hs, lines.
  split; [reflexivity |].
  split; [rewrite Hposted, <- app_assoc; reflexivity |].
  split; [exact Hprinted |]. split; [exact Hlines |].
  split; [exact Hnodup |]. split; [exact Hrange |].
  intros Hlatest. unfold interval_size, entry_state in Hlog.
  cbn [left right] in Hlog. rewrite Z2Nat.id in Hlog by lia.
  replace (latest - 0 + 1) with (latest + 1) in Hlog by lia.
  apply Hlog. lia.
Qed.

Section StableNode.

Variable json_loads : string -> option json.
Variable urlopen : list json -> json -> transport_outcome.

Local Notation "'probe_block'" := (Client.probe_block json_loads urlopen).
Local Notation "'chain'" := (observed_chain json_loads urlopen).

(** The node's reply to a block request does not depend on the requests
    posted before. *)
Hypothesis stable :
  forall h sent1 sent2,
    fst (Client.get_block_by_number json_loads urlopen h false sent1)
    = fst (Client.get_block_by_number json_loads urlopen h false sent2).

Lemma probe_block_fst h sent :
  fst (probe_block h sent)
  = match fst (Client.get_block_by_number json_loads urlopen h false sent) with
    | Client.Raised e => Client.Raised e
    | Client.Returned JNull => Client.Returned None
    | Client.Returned block =>
        match Client.read_timestamp block with
        | Client.Returned block_timestamp =>
            Client.Returned (Some block_timestamp)
        | Client.Raised e => Client.Raised e
        end
    end.
Proof.
  unfold Client.probe_block.
  destruct (Client.get_block_by_number json_loads urlopen h false sent).
  reflexivity.
Qed.

Lemma probe_block_stable h sent :
  Client.probe_outcome_of (fst (probe_block h sent)) = chain h.
Proof.
  unfold observed_chain. rewrite !probe_block_fst.
  now rewrite (stable h sent []).
Qed.

(** A block whose probe gave a timestamp gives the same timestamp when
    it is read again. *)
Lemma reread_timestamp h ts sent block :
  chain h = Block ts ->
  fst (Client.get_block_by_number json_loads urlopen h false sent)
  = Client.Returned block ->
  block <> JNull /\ Client.read_timestamp block = Client.Returned ts.
Proof.
  intros Hchain Hblock. rewrite <- (probe_block_stable h sent) in Hchain.
  rewrite probe_block_fst, Hblock in Hchain.
  destruct block; cbn in Hchain; try discriminate;
    (split; [discriminate |]);
    destruct (Client.read_timestamp _) as [t | e]; cbn in Hchain;
    try discriminate; now injection Hchain as ->.
Qed.

(** Over such a node the loop run against the gateway computes what the
    loop over the observed chain computes, posts one block request per
    probed height, in order, and prints one warning per probe that
    raised. *)
Lemma rpc_while_loop_refines target st w :
  exists lines,
    Client.while_loop json_loads urlopen target st w
    = (while_loop chain target st,
       Client.mk_world
         (Client.posted w
          ++ map block_request (probed_heights chain target st))
         (Client.printed w ++ lines)) /\
    Forall2 (fun line h => exists e, line = Client.WarningLine h e)
            lines
            (filter (fun h => is_raise (chain h))
                    (probed_heights chain target st)).
Proof.
  revert w. induction st as [st IH] using (loop_induction chain target).
  intros w. rewrite rpc_while_loop_step, while_loop_step, probed_heights_step.
  unfold Client.rpc_iteration.
  rewrite (iteration_ext _ chain target st)
    by apply probe_block_stable.
  destruct (iteration chain target st) as [st' |] eqn:Hit.
  - pose proof (probe_block_posts json_loads urlopen (midpoint st)
                  (Client.posted w)) as Hposts.
    pose proof (probe_block_stable (midpoint st) (Client.posted w)) as Hout.
    destruct (probe_block (midpoint st) (Client.posted w)) as [r sent'].
    cbn [fst snd] in *. subst sent'.
    destruct (IH st' eq_refl
                 (Client.mk_world
                    (Client.posted w ++ [block_request (midpoint st)])
                    (Client.printed w ++ Client.warning (midpoint st) r)))
      as (lines & Hrun & Hwarn).
    cbn [Client.posted Client.printed] in *.
    exists (Client.warning (midpoint st) r ++ lines).
    split.
    + rewrite Hrun. cbn [map]. rewrite <- !app_assoc. reflexivity.
    + cbn [filter]. rewrite <- Hout.
      destruct r as [[ts |] | e];
        cbn [Client.probe_outcome_of is_raise Client.warning app].
      * exact Hwarn.
      * exact Hwarn.
      * constructor; [now exists e | exact Hwarn].
  - exists []. cbn [map filter]. rewrite !app_nil_r.
    split; [destruct w; reflexivity | constructor].
Qed.

End StableNode.

Lemma client_search_stable json_loads urlopen target w latest :
  stable_node json_loads urlopen ->
  fst (Client.get_block_number json_loads urlopen (Client.posted w))
  = Client.Returned latest ->
  exists lines,
    Client.find_last_block_of_day json_loads urlopen target w
    = (Client.Returned
         (find_last_block_of_day (observed_chain json_loads urlopen)
                                 target latest),
       Client.mk_world
         (Client.posted w
          ++ payload "eth_blockNumber" []
             :: map block_request
                    (probed_heights (observed_chain json_loads urlopen)
                                    target (entry_state latest)))
         (Client.printed w ++ lines)) /\
    Forall2 (fun line h => exists e, line = Client.WarningLine h e)
            lines
            (filter (fun h => is_raise (observed_chain json_loads urlopen h))
                    (probed_heights (observed_chain json_loads urlopen)
                                    target (entry_state latest))).
Proof.
  intros Hstable Hlatest. unfold Client.find_last_block_of_day.
  pose proof (get_block_number_posts json_loads urlopen (Client.posted w))
    as Hposts.
  destruct (Client.get_block_number json_loads urlopen (Client.posted w))
    as [r sent']. cbn [fst snd] in *. subst r sent'.
  destruct (rpc_while_loop_refines json_loads urlopen Hstable target
              (entry_state latest)
              (Client.mk_world
                 (Client.posted w ++ [payload "eth_blockNumber" []])
                 (Client.printed w)))
    as (lines & Hrun & Hwarn).
  exists lines. rewrite Hrun. cbn [Client.posted Client.printed].
  split; [| exact Hwarn].
  unfold find_last_block_of_day. rewrite <- app_assoc. reflexivity.
Qed.


Lemma mock_node_stable : stable_node mock_loads mock_urlopen.
Proof. intros h sent1 sent2. reflexivity. Qed.


Section QueryFacts.

Variable json_loads : string -> option json.
Variable urlopen : list json -> json -> transport_outcome.
Variable today : date.
Variable mktime : datetime -> Z.
Variable utc_datetime : Type.
Variable fromtimestamp : Z -> option utc_datetime.
Variable strftime : utc_datetime -> string.
Variable float : Type.
Variable true_divide : Z -> Z -> option float.

Local Notation "'chain'" := (observed_chain json_loads urlopen).
Local Notation "'query_with'" :=
  (Client.get_balance_on_date_with json_loads urlopen today mktime
     utc_datetime fromtimestamp strftime float true_divide).

(** The query posts nothing unless the date was accepted, and then the
    first request is [eth_blockNumber]. *)
Lemma query_with_first_request read_balance address date_str w :
  (forall a h sent, exists request,
      snd (read_balance a h sent) = sent ++ [request]) ->
  (Client.posted (snd (query_with read_balance address date_str w))
   = Client.posted w /\
   exists e, fst (query_with read_balance address date_str w)
             = Client.Raised e /\
             ((exists message, e = Client.DateValueError message /\
                               validate_date date_str today
                               = RaisesValueError message /\
                               snd (query_with read_balance address date_str w)
                               = w) \/
              e = Client.FromTimestampError)) \/
  (exists date_obj rest,
      validate_date date_str today = Valid date_obj /\
      Client.posted (snd (query_with read_balance address date_str w))
      = Client.posted w ++ payload "eth_blockNumber" [] :: rest).
Proof.
  intros Hreader. unfold Client.get_balance_on_date_with.
  destruct (validate_date date_str today) as [date_obj | message] eqn:Hdate.
  2:{ left. cbn [fst snd]. split; [reflexivity |].
      exists (Client.DateValueError message). split; [reflexivity |].
      left. now exists message. }
  destruct (date_to_timestamps mktime date_obj) as [start target].
  destruct (fromtimestamp target) as [rendered |].
  2:{ left. cbn [fst snd Client.posted]. split; [reflexivity |].
      exists Client.FromTimestampError. split; [reflexivity | now right]. }
  right. exists date_obj.
  set (w2 := Client.mk_world _ (_ ++ [Client.LookingLine target])).
  pose proof (client_search_requests json_loads urlopen target w2) as Hsearch.
  cbv zeta in Hsearch.
  assert (Hfirst : exists rest,
             Client.posted
               (snd (Client.find_last_block_of_day json_loads urlopen
                                                   target w2))
             = Client.posted w ++ payload "eth_blockNumber" [] :: rest).
  { destruct (fst (Client.get_block_number json_loads urlopen
                                           (Client.posted w2))) as [latest | e].
    - destruct Hsearch as (result & hs & lines & _ & Hposted & _).
      exists (map block_request hs). exact Hposted.
    - rewrite Hsearch. exists []. reflexivity. }
  destruct Hfirst as (rest & Hrest).
  destruct (Client.find_last_block_of_day json_loads urlopen target w2)
    as [[[last_block |] | e] w3]; cbn [fst snd] in *;
    try (exists rest; split; [reflexivity | exact Hrest]).
  pose proof (call_posts json_loads urlopen "eth_getBlockByNumber"
                (Client.block_params last_block false) (Client.posted w3))
    as Hconfirm.
  unfold Client.get_block_by_number.
  destruct (Client.call json_loads urlopen "eth_getBlockByNumber" _ _)
    as [[details | e] sent4]; cbn [fst snd] in *; subst sent4;
    [| eexists; split; [reflexivity |]; cbn [Client.posted];
       rewrite Hrest, <- app_assoc; reflexivity].
  destruct (Client.read_timestamp details) as [block_timestamp | e];
    [| eexists; split; [reflexivity |]; cbn [Client.posted];
       rewrite Hrest, <- app_assoc; reflexivity].
  destruct (fromtimestamp block_timestamp) as [block_datetime |];
    [| eexists; split; [reflexivity |]; cbn [Client.posted];
       rewrite Hrest, <- app_assoc; reflexivity].
  cbn [Client.posted Client.printed].
  destruct (Hreader address last_block
                    (Client.posted w3
                     ++ [payload "eth_getBlockByNumber"
                                 (Client.block_params last_block false)]))
    as (request & Hread).
  destruct (read_balance address last_block _) as [[wei | e] sent5];
    cbn [fst snd] in *; subst sent5.
  - destruct (Client.wei_to_kava float true_divide wei);
      eexists; (split; [reflexivity |]); cbn [snd Client.posted];
      rewrite Hrest, <- !app_assoc; reflexivity.
  - eexists; (split; [reflexivity |]); cbn [snd Client.posted];
      rewrite Hrest, <- !app_assoc; reflexivity.
Qed.

(** A report comes from the block found by the search over the chain the
    node shows, read once more and then used for the balance. *)
Lemma query_with_success read_balance request_of address date_str w rep w' :
  stable_node json_loads urlopen ->
  (forall a h sent, snd (read_balance a h sent) = sent ++ [request_of a h]) ->
  query_with read_balance address date_str w = (Client.Returned rep, w') ->
  exists date_obj latest ts lines,
    let target := snd (date_to_timestamps mktime date_obj) in
    let h := Client.block_number rep in
    let probes := probed_heights chain target (entry_state latest) in
    let sent :=
      Client.posted w
      ++ payload "eth_blockNumber" []
         :: map block_request probes ++ [block_request h] in
    validate_date date_str today = Valid date_obj /\
    fst (Client.get_block_number json_loads urlopen (Client.posted w))
    = Client.Returned latest /\
    find_last_block_of_day chain target latest = Some h /\
    0 <= h <= latest /\
    chain h = Block ts /\ Client.block_timestamp rep = ts /\ ts <= target /\
    Client.report_date rep = date_str /\
    Client.report_address rep = address /\
    fst (read_balance address h sent)
    = Client.Returned (Client.balance_wei rep) /\
    Client.posted w' = sent ++ [request_of address h] /\
    Client.printed w'
    = Client.printed w
      ++ Client.FindingLine address date_str
         :: Client.LookingLine target :: lines /\
    Forall2 (fun line h => exists e, line = Client.WarningLine h e)
            lines (filter (fun h => is_raise (chain h)) probes).
Proof.
  intros Hstable Hreader. unfold Client.get_balance_on_date_with.
  destruct (validate_date date_str today) as [date_obj | message] eqn:Hdate;
    [| discriminate].
  destruct (date_to_timestamps mktime date_obj) as [start target] eqn:Hdtt.
  cbn [snd].
  destruct (fromtimestamp target) as [rendered |]; [| discriminate].
  set (w2 := Client.mk_world _ (_ ++ [Client.LookingLine target])).
  destruct (fst (Client.get_block_number json_loads urlopen (Client.posted w2)))
    as [latest | e] eqn:Hnum.
  2:{ assert (Hraise : fst (Client.find_last_block_of_day json_loads urlopen
                                                          target w2)
                       = Client.Raised e).
      { unfold Client.find_last_block_of_day.
        destruct (Client.get_block_number json_loads urlopen _) as [r sent'].
        cbn [fst] in Hnum. subst r. reflexivity. }
      destruct (Client.find_last_block_of_day json_loads urlopen target w2)
        as [r w3]. cbn [fst] in Hraise. subst r. discriminate. }
  destruct (client_search_stable json_loads urlopen target w2 latest
              Hstable Hnum) as (lines & Hrun & Hwarn).
  rewrite Hrun.
  destruct (find_last_block_of_day chain target latest) as [h |] eqn:Hfind;
    [| discriminate].
  destruct (returned_height_confirmed _ _ _ _ Hfind) as (Hrange & _ & Hconf).
  apply confirmed_spec in Hconf. destruct Hconf as (ts & Hchain & Hts).
  set (probes := probed_heights chain target (entry_state latest)) in *.
  cbn [Client.posted Client.printed].
  pose proof (call_posts json_loads urlopen "eth_getBlockByNumber"
                (Client.block_params h false)
                (Client.posted w2 ++ payload "eth_blockNumber" []
                                  :: map block_request probes))
    as Hconfirm.
  destruct (Client.get_block_by_number json_loads urlopen h false
              (Client.posted w2 ++ payload "eth_blockNumber" []
                                :: map block_request probes))
    as [[details | e] sent4] eqn:Hread; [| discriminate].
  unfold Client.get_block_by_number in Hread. rewrite Hread in Hconfirm.
  cbn [snd] in Hconfirm. subst sent4.
  destruct (reread_timestamp json_loads urlopen Hstable h ts
              (Client.posted w2 ++ payload "eth_blockNumber" []
                                :: map block_request probes) details Hchain)
    as (_ & Hagain).
  { unfold Client.get_block_by_number. now rewrite Hread. }
  rewrite Hagain.
  destruct (fromtimestamp ts) as [block_datetime |]; [| discriminate].
  cbn [Client.posted Client.printed].
  pose proof (Hreader address h
                      ((Client.posted w2
                        ++ payload "eth_blockNumber" []
                           :: map block_request probes)
                       ++ [payload "eth_getBlockByNumber"
                                   (Client.block_params h false)]))
    as Hposts.
  destruct (read_balance address h _) as [[wei | e] sent5] eqn:Hbalance;
    [| discriminate].
  cbn [snd] in Hposts. subst sent5.
  destruct (Client.wei_to_kava float true_divide wei) as [kava | e];
    [| discriminate].
  intros [= <- <-].
  exists date_obj, latest, ts, lines. cbv zeta. rewrite Hdtt.
  cbn [Client.block_number Client.block_timestamp Client.report_date
       Client.report_address Client.balance_wei Client.posted
       Client.printed snd].
  subst w2. cbn [Client.posted Client.printed] in *.
  assert (Hsent : (Client.posted w ++ payload "eth_blockNumber" []
                                   :: map block_request probes)
                  ++ [payload "eth_getBlockByNumber"
                              (Client.block_params h false)]
                  = Client.posted w
                    ++ payload "eth_blockNumber" []
                       :: map block_request probes ++ [block_request h]).
  { rewrite <- app_assoc. reflexivity. }
  rewrite Hsent in *. subst probes.
  repeat match goal with |- _ /\ _ => split end;
    try reflexivity; try assumption; try lia.
  - now rewrite Hbalance.
  - rewrite <- !app_assoc. reflexivity.
Qed.

End QueryFacts.

(** X12. Over a node whose replies to block requests do not depend on the
    requests posted before, a report of
    [KavaBalanceChecker.get_balance_on_date] names the block that
    [find_last_block_of_day] finds for the end of the accepted day over
    the chain the node shows; its timestamp is the one probed and is not
    after that end; the balance is what [get_balance] returned at that
    block; and the requests posted are, in order, [eth_blockNumber], one
    block request per probe, the block request for the block found and
    the [eth_getBalance] request at that block. *)
Theorem query_reports_resolved_block
        json_loads urlopen today mktime utc_datetime fromtimestamp strftime
        float true_divide address date_str w rep w' :
  stable_node json_loads urlopen ->
  Client.get_balance_on_date json_loads urlopen today mktime utc_datetime
                             fromtimestamp strftime float true_divide
                             address date_str w
  = (Client.Returned rep, w') ->
  exists date_obj latest ts lines,
    let chain := observed_chain json_loads urlopen in
    let target := snd (date_to_timestamps mktime date_obj) in
    let h := Client.block_number rep in
    let probes := probed_heights chain target (entry_state latest) in
    let sent :=
      Client.posted w
      ++ payload "eth_blockNumber" []
         :: map block_request probes ++ [block_request h] in
    validate_date date_str today = Valid date_obj /\
    fst (Client.get_block_number json_loads urlopen (Client.posted w))
    = Client.Returned latest /\
    find_last_block_of_day chain target latest = Some h /\
    0 <= h <= latest /\
    chain h = Block ts /\ Client.block_timestamp rep = ts /\ ts <= target /\
    Client.report_date rep = date_str /\
    Client.report_address rep = address /\
    fst (Client.get_balance json_loads urlopen address h sent)
    = Client.Returned (Client.balance_wei rep) /\
    Client.posted w' = sent ++ [balance_request address h] /\
    Client.printed w'
    = Client.printed w
      ++ Client.FindingLine address date_str
         :: Client.LookingLine target :: lines /\
    Forall2 (fun line h => exists e, line = Client.WarningLine h e)
            lines (filter (fun h => is_raise (chain h)) probes).
Proof.
  intros Hstable Hrun.
  apply (query_with_success json_loads urlopen today mktime utc_datetime
           fromtimestamp strftime float true_divide
           (Client.get_balance json_loads urlopen) balance_request
           address date_str w rep w' Hstable); [| exact Hrun].
  intros a h sent. reflexivity.
Qed.

(** X13. The same for [WKAVABalanceChecker.get_balance_on_date]: the
    balance is what [get_wkava_balance] returned at the block found, and
    the last request is the [eth_call] to the WKAVA contract with the
    encoded [balanceOf] of the address at that block. *)
Theorem wkava_query_reports_resolved_block
        json_loads urlopen today mktime utc_datetime fromtimestamp strftime
        float true_divide address date_str w rep w' :
  stable_node json_loads urlopen ->
  Client.get_wkava_balance_on_date json_loads urlopen today mktime
                                   utc_datetime fromtimestamp strftime
                                   float true_divide address date_str w
  = (Client.Returned rep, w') ->
  exists date_obj latest ts lines,
    let chain := observed_chain json_loads urlopen in
    let target := snd (date_to_timestamps mktime date_obj) in
    let h := Client.block_number rep in
    let probes := probed_heights chain target (entry_state latest) in
    let sent :=
      Client.posted w
      ++ payload "eth_blockNumber" []
         :: map block_request probes ++ [block_request h] in
    validate_date date_str today = Valid date_obj /\
    fst (Client.get_block_number json_loads urlopen (Client.posted w))
    = Client.Returned latest /\
    find_last_block_of_day chain target latest = Some h /\
    0 <= h <= latest /\
    chain h = Block ts /\ Client.block_timestamp rep = ts /\ ts <= target /\
    Client.report_date rep = date_str /\
    Client.report_address rep = address /\
    fst (Client.get_wkava_balance json_loads urlopen address h sent)
    = Client.Returned (Client.balance_wei rep) /\
    Client.posted w' = sent ++ [wkava_request address h] /\
    Client.printed w'
    = Client.printed w
      ++ Client.FindingLine address date_str
         :: Client.LookingLine target :: lines /\
    Forall2 (fun line h => exists e, line = Client.WarningLine h e)
            lines (filter (fun h => is_raise (chain h)) probes).
Proof.
  intros Hstable Hrun.
  apply (query_with_success json_loads urlopen today mktime utc_datetime
           fromtimestamp strftime float true_divide
           (Client.get_wkava_balance json_loads urlopen) wkava_request
           address date_str w rep w' Hstable); [| exact Hrun].
  intros a h sent. reflexivity.
Qed.

Lemma query_reports_resolved_block_witness :
  stable_node mock_loads mock_urlopen /\
  exists rep w',
    mock_query "0x7D5CEA2e5fBDFecca8CcfbFe85AC021C817a7f38" "1970-01-01"
               (Client.mk_world [] [])
    = (Client.Returned rep, w') /\
    Client.block_number rep = 86 /\
    Client.block_timestamp rep <= 86399 /\
    exists sent, Client.posted w'
                 = sent ++ [balance_request
                              "0x7D5CEA2e5fBDFecca8CcfbFe85AC021C817a7f38" 86].
Proof.
  split; [exact mock_node_stable |].
  destruct (mock_query "0x7D5CEA2e5fBDFecca8CcfbFe85AC021C817a7f38"
                       "1970-01-01" (Client.mk_world [] []))
    as [[rep | e] w'] eqn:Hrun;
    [| vm_compute in Hrun; discriminate Hrun].
  exists rep, w'. split; [reflexivity |].
  assert (Hblock : Client.block_number rep = 86).
  { vm_compute in Hrun. now injection Hrun as <- _. }
  destruct (query_reports_resolved_block _ _ _ _ _ _ _ _ _ _ _ _ _ _
              mock_node_stable Hrun)
    as (date_obj & latest & ts & lines & Hvalid & _ & _ & _ & _ & Hts & Hle
        & _ & _ & _ & Hposted & _).
  split; [exact Hblock |]. split.
  - rewrite Hts. vm_compute in Hvalid. injection Hvalid as <-.
    exact Hle.
  - rewrite Hblock in Hposted. eexists. exact Hposted.
Defined.

Lemma wkava_query_reports_resolved_block_witness :
  stable_node mock_loads mock_urlopen /\
  exists rep w',
    mock_wkava_query "0x7D5CEA2e5fBDFecca8CcfbFe85AC021C817a7f38"
                     "1970-01-01" (Client.mk_world [] [])
    = (Client.Returned rep, w') /\
    Client.block_number rep = 86 /\
    Client.block_timestamp rep <= 86399 /\
    exists sent, Client.posted w'
                 = sent ++ [wkava_request
                              "0x7D5CEA2e5fBDFecca8CcfbFe85AC021C817a7f38" 86].
Proof.
  split; [exact mock_node_stable |].
  destruct (mock_wkava_query "0x7D5CEA2e5fBDFecca8CcfbFe85AC021C817a7f38"
                             "1970-01-01" (Client.mk_world [] []))
    as [[rep | e] w'] eqn:Hrun;
    [| vm_compute in Hrun; discriminate Hrun].
  exists rep, w'. split; [reflexivity |].
  assert (Hblock : Client.block_number rep = 86).
  { vm_compute in Hrun. now injection Hrun as <- _. }
  destruct (wkava_query_reports_resolved_block _ _ _ _ _ _ _ _ _ _ _ _ _ _
              mock_node_stable Hrun)
    as (date_obj & latest & ts & lines & Hvalid & _ & _ & _ & _ & Hts & Hle
        & _ & _ & _ & Hposted & _).
  split; [exact Hblock |]. split.
  - rewrite Hts. vm_compute in Hvalid. injection Hvalid as <-.
    exact Hle.
  - rewrite Hblock in Hposted. eexists. exact Hposted.
Defined.

(** X14. Both queries leave the node alone unless the date is accepted: a
    date that [validate_date] rejects makes the query raise that
    [ValueError] with nothing posted and nothing printed, and whenever a
    query has posted a request, the date was accepted and the first
    request posted is [eth_blockNumber]. *)
Theorem query_posts_only_for_accepted_dates
        json_loads urlopen today mktime utc_datetime fromtimestamp strftime
        float true_divide query address date_str w :
  query = Client.get_balance_on_date json_loads urlopen today mktime
            utc_datetime fromtimestamp strftime float true_divide \/
  query = Client.get_wkava_balance_on_date json_loads urlopen today mktime
            utc_datetime fromtimestamp strftime float true_divide ->
  (forall message,
      validate_date date_str today = RaisesValueError message ->
      query address date_str w
      = (Client.Raised (Client.DateValueError message), w)) /\
  (Client.posted (snd (query address date_str w)) <> Client.posted w ->
   exists date_obj rest,
     validate_date date_str today = Valid date_obj /\
     Client.posted (snd (query address date_str w))
     = Client.posted w ++ payload "eth_blockNumber" [] :: rest).
Proof.
  intros Hquery. split.
  - intros message Hdate.
    destruct Hquery as [-> | ->];
      unfold Client.get_balance_on_date, Client.get_wkava_balance_on_date,
        Client.get_balance_on_date_with;
      now rewrite Hdate.
  - intros Hposted.
    assert (Hfirst :
              (Client.posted (snd (query address date_str w))
               = Client.posted w /\
               exists e, fst (query address date_str w) = Client.Raised e /\
                         ((exists message,
                              e = Client.DateValueError message /\
                              validate_date date_str today
                              = RaisesValueError message /\
                              snd (query address date_str w) = w) \/
                          e = Client.FromTimestampError)) \/
              (exists date_obj rest,
                  validate_date date_str today = Valid date_obj /\
                  Client.posted (snd (query address date_str w))
                  = Client.posted w ++ payload "eth_blockNumber" [] :: rest)).
    { destruct Hquery as [-> | ->];
        apply query_with_first_request; intros a h sent; eexists;
        reflexivity. }
    destruct Hfirst as [(Hsame & _) | Hright]; [contradiction | exact Hright].
Qed.

Lemma query_posts_only_for_accepted_dates_witness :
  mock_query "0x7D5CEA2e5fBDFecca8CcfbFe85AC021C817a7f38" "2024-02-30"
             (Client.mk_world [] [])
  = (Client.Raised (Client.DateValueError "day is out of range for month"),
     Client.mk_world [] []).
Proof.
  destruct (query_posts_only_for_accepted_dates
              mock_loads mock_urlopen (mk_date 2024 6 15) (fun _ => 0) Z
              (fun ts => Some ts) (fun _ => EmptyString) Z
              (fun a b => Some (a / b)) mock_query
              "0x7D5CEA2e5fBDFecca8CcfbFe85AC021C817a7f38" "2024-02-30"
              (Client.mk_world [] []))
    as (Hrejected & _); [left; reflexivity |].
  apply Hrejected. reflexivity.
Defined.



(** X16. Over a node whose replies to block requests do not depend on the
    requests posted before and which shows, for the heights
    [0..latest_block], blocks with timestamps that do not decrease, the
    block named in a report of either query is the last block of the
    day: its timestamp is not after 23:59:59 UTC of the accepted date,
    and it is the head or the next block is after that time. *)
Theorem query_reports_last_block_of_day
        json_loads urlopen today mktime utc_datetime fromtimestamp strftime
        float true_divide query address date_str w rep w' latest ts :
  query = Client.get_balance_on_date json_loads urlopen today mktime
            utc_datetime fromtimestamp strftime float true_divide \/
  query = Client.get_wkava_balance_on_date json_loads urlopen today mktime
            utc_datetime fromtimestamp strftime float true_divide ->
  stable_node json_loads urlopen ->
  fst (Client.get_block_number json_loads urlopen (Client.posted w))
  = Client.Returned latest ->
  (forall h, 0 <= h <= latest ->
             observed_chain json_loads urlopen h = Block (ts h)) ->
  (forall h1 h2, 0 <= h1 <= h2 -> h2 <= latest -> ts h1 <= ts h2) ->
  query address date_str w = (Client.Returned rep, w') ->
  exists date_obj,
    let target := snd (date_to_timestamps mktime date_obj) in
    let h := Client.block_number rep in
    validate_date date_str today = Valid date_obj /\
    0 <= h <= latest /\
    Client.block_timestamp rep = ts h /\
    ts h <= target /\
    (h = latest \/ target < ts (h + 1)).
Proof.
  intros Hquery Hstable Hnum Htotal Hmono Hrun.
  assert (Hsuccess :
            exists date_obj latest' t,
              validate_date date_str today = Valid date_obj /\
              fst (Client.get_block_number json_loads urlopen (Client.posted w))
              = Client.Returned latest' /\
              find_last_block_of_day (observed_chain json_loads urlopen)
                (snd (date_to_timestamps mktime date_obj)) latest'
              = Some (Client.block_number rep) /\
              observed_chain json_loads urlopen (Client.block_number rep)
              = Block t /\
              Client.block_timestamp rep = t).
  { destruct Hquery as [-> | ->].
    - destruct (query_with_success json_loads urlopen today mktime
                  utc_datetime fromtimestamp strftime float true_divide
                  (Client.get_balance json_loads urlopen) balance_request
                  address date_str w rep w' Hstable
                  (fun a h sent => eq_refl) Hrun)
        as (date_obj & latest' & t & lines & Hv & Hn & Hf & _ & Hc & Ht & _).
      now exists date_obj, latest', t.
    - destruct (query_with_success json_loads urlopen today mktime
                  utc_datetime fromtimestamp strftime float true_divide
                  (Client.get_wkava_balance json_loads urlopen) wkava_request
                  address date_str w rep w' Hstable
                  (fun a h sent => eq_refl) Hrun)
        as (date_obj & latest' & t & lines & Hv & Hn & Hf & _ & Hc & Ht & _).
      now exists date_obj, latest', t. }
  destruct Hsuccess as (date_obj & latest' & t & Hvalid & Hnum' & Hfind
                        & Hchain & Hstamp).
  rewrite Hnum in Hnum'. injection Hnum' as <-.
  exists date_obj. cbv zeta.
  set (target := snd (date_to_timestamps mktime date_obj)) in *.
  set (h := Client.block_number rep) in *.
  destruct (bisection_final (observed_chain json_loads urlopen) ts target
              latest Htotal Hmono) as (r & Hr & Hlow & Hhigh & Hresult).
  rewrite Hfind in Hresult.
  destruct (Z.eqb_spec r (-1)) as [_ | Hne]; [discriminate |].
  injection Hresult as Hh.
  assert (Hrange : 0 <= h <= latest) by lia.
  rewrite (Htotal h Hrange) in Hchain. injection Hchain as <-.
  refine (conj Hvalid (conj Hrange (conj Hstamp (conj _ _)))).
  - apply Hlow. lia.
  - destruct (Z.eq_dec h latest) as [-> | Hnot]; [now left | right].
    apply Hhigh. lia.
Qed.

Lemma query_reports_last_block_of_day_witness :
  stable_node mock_loads mock_urlopen /\
  exists rep w',
    mock_query "0x7D5CEA2e5fBDFecca8CcfbFe85AC021C817a7f38" "1970-01-01"
               (Client.mk_world [] [])
    = (Client.Returned rep, w') /\
    Client.block_timestamp rep = Client.block_number rep * 1000 /\
    Client.block_number rep * 1000 <= 86399 /\
    (Client.block_number rep = 100
     \/ 86399 < (Client.block_number rep + 1) * 1000).
Proof.
  split; [exact mock_node_stable |].
  destruct (mock_query "0x7D5CEA2e5fBDFecca8CcfbFe85AC021C817a7f38"
                       "1970-01-01" (Client.mk_world [] []))
    as [[rep | e] w'] eqn:Hrun;
    [| vm_compute in Hrun; discriminate Hrun].
  exists rep, w'. split; [reflexivity |].
  assert (Htotal : forall h, 0 <= h <= 100 ->
                             observed_chain mock_loads mock_urlopen h
                             = Block (h * 1000)).
  { intros h Hrange.
    assert (Hall : forallb
                     (fun k =>
                        match observed_chain mock_loads mock_urlopen k with
                        | Block t => t =? k * 1000
                        | _ => false
                        end)
                     (map Z.of_nat (seq 0 101)) = true)
      by (vm_compute; reflexivity).
    rewrite forallb_forall in Hall. specialize (Hall h).
    assert (Hin : In h (map Z.of_nat (seq 0 101))).
    { apply in_map_iff. exists (Z.to_nat h). split; [lia |].
      apply in_seq. lia. }
    specialize (Hall Hin).
    destruct (observed_chain mock_loads mock_urlopen h) as [| | t];
      try discriminate Hall.
    apply Z.eqb_eq in Hall. now subst t. }
  destruct (query_reports_last_block_of_day
              mock_loads mock_urlopen (mk_date 2024 6 15) (fun _ => 0) Z
              (fun t => Some t) (fun _ => EmptyString) Z
              (fun a b => Some (a / b)) mock_query
              "0x7D5CEA2e5fBDFecca8CcfbFe85AC021C817a7f38" "1970-01-01"
              (Client.mk_world [] []) rep w' 100 (fun h => h * 1000)
              (or_introl eq_refl) mock_node_stable eq_refl Htotal
              ltac:(intros; cbv beta; lia) Hrun)
    as (date_obj & Hvalid & _ & Hstamp & Hle & Hnext).
  vm_compute in Hvalid. injection Hvalid as <-.
  change (snd (date_to_timestamps (fun _ : datetime => 0)
                 (mk_datetime (mk_date 1970 1 1) 0 0 0 (Some UTC))))
    with 86399 in *.
  auto.
Defined.

(** ** The scanner of [int(s, 16)] and the literals *)

Local Notation "'hex_fold'" :=
  (fold_left
     (fun acc c =>
        16 * acc + match hex_value c with Some v => v | None => 0 end)).

Lemma is_hex_some c : is_hex c = true -> exists v, hex_value c = Some v.
Proof.
  unfold is_hex. destruct (hex_value c) as [v |]; [now exists v | discriminate].
Qed.

Lemma is_hex_not_x c :
  is_hex c = true -> Ascii.eqb c "x" = false /\ Ascii.eqb c "X" = false.
Proof.
  destruct c as [[] [] [] [] [] [] [] []]; cbv; intros H;
    first [discriminate H | split; reflexivity].
Qed.

Lemma is_space_plain c :
  is_space c = true ->
  hex_value c = None /\ Ascii.eqb c "_" = false /\
  Ascii.eqb c "x" = false /\ Ascii.eqb c "X" = false /\
  Ascii.eqb c "+" = false /\ Ascii.eqb c "-" = false /\
  Ascii.eqb c "0" = false.
Proof.
  destruct c as [[] [] [] [] [] [] [] []]; cbv; intros H;
    first [discriminate H | repeat split].
Qed.

Lemma skip_spaces_split s :
  exists ws, s = ws ++ skip_spaces s /\ forallb is_space ws = true.
Proof.
  induction s as [| c s (ws & Heq & Hws)]; cbn [skip_spaces].
  - now exists [].
  - destruct (is_space c) eqn:Hc.
    + exists (c :: ws). cbn [app forallb]. rewrite Hc, Hws, <- Heq. auto.
    + now exists [].
Qed.

Lemma skip_spaces_all s :
  skip_spaces s = [] <-> forallb is_space s = true.
Proof.
  induction s as [| c s IH]; cbn [skip_spaces forallb]; [tauto |].
  destruct (is_space c); cbn [andb]; [exact IH |].
  split; discriminate.
Qed.

Lemma skip_spaces_app ws s :
  forallb is_space ws = true -> skip_spaces (ws ++ s) = skip_spaces s.
Proof.
  induction ws as [| c ws IH]; cbn [forallb app skip_spaces]; [reflexivity |].
  intros H. apply andb_true_iff in H. destruct H as (-> & Hws). now apply IH.
Qed.

Lemma skip_sign_split s negative s2 :
  skip_sign s = (negative, s2) ->
  exists sg, s = sg ++ s2 /\ sign_text sg negative.
Proof.
  unfold skip_sign, sign_text. destruct s as [| c s].
  - intros [= <- <-]. exists []. auto.
  - destruct (Ascii.eqb_spec c "+") as [-> | _].
    { intros [= <- <-]. exists ["+"%char]. auto. }
    destruct (Ascii.eqb_spec c "-") as [-> | _].
    { intros [= <- <-]. exists ["-"%char]. auto. }
    intros [= <- <-]. exists []. auto.
Qed.

Lemma skip_prefix_split s :
  exists pre, s = pre ++ skip_prefix s /\ prefix_text pre.
Proof.
  unfold prefix_text.
  destruct s as [| z [| x rest]]; cbn [skip_prefix];
    try (exists []; split; [reflexivity | now left]).
  destruct (Ascii.eqb_spec z "0") as [-> | _]; cbn [andb];
    [| exists []; split; [reflexivity | now left]].
  destruct (Ascii.eqb x "x" || Ascii.eqb x "X") eqn:Hx;
    [| exists []; split; [reflexivity | now left]].
  assert (Hx' : x = "x"%char \/ x = "X"%char).
  { apply orb_true_iff in Hx. destruct Hx as [Hx | Hx];
      apply Ascii.eqb_eq in Hx; auto. }
  destruct rest as [| u rest]; cbn [skip_underscore].
  - exists ["0"%char; x]. split; [reflexivity |]. right. exists x. auto.
  - destruct (Ascii.eqb_spec u "_") as [-> | _].
    + exists ["0"%char; x; "_"%char]. split; [reflexivity |].
      right. exists x. auto.
    + exists ["0"%char; x]. split; [reflexivity |]. right. exists x. auto.
Qed.

(** What the scanner takes is a run of digits and single underscores,
    each underscore before a digit; after an underscore the run starts
    with a digit. *)
Lemma scan_digits_sound s :
  forall value count after value' count' rest,
    scan_digits s value count after = Some (value', count', rest) ->
    exists body digits,
      digits_tail body digits /\
      value' = hex_fold digits value /\
      count' = (count + List.length digits)%nat /\
      if after : bool
      then s = body ++ rest /\
           exists c body', body = c :: body' /\ is_hex c = true
      else s = body ++ rest.
Proof.
  induction s as [| c s IH]; intros value count after value' count' rest;
    cbn [scan_digits].
  - destruct after; [discriminate |]. intros [= <- <- <-].
    exists [], []. cbn. repeat split; [constructor | lia].
  - destruct (hex_value c) as [v |] eqn:Hv.
    + intros Hscan.
      destruct (IH _ _ _ _ _ _ Hscan) as (body & digits & Ht & Hval & Hc & Hs).
      assert (Hhex : is_hex c = true) by (unfold is_hex; now rewrite Hv).
      exists (c :: body), (c :: digits).
      split; [now constructor |].
      split; [cbn [fold_left]; now rewrite Hv |].
      split; [cbn [List.length]; lia |].
      cbn [app]. rewrite Hs. destruct after; [| reflexivity].
      split; [reflexivity |]. now exists c, body.
    + destruct (Ascii.eqb_spec c "_") as [-> | Hne].
      * destruct after; [discriminate |]. intros Hscan.
        destruct (IH _ _ _ _ _ _ Hscan)
          as (body & digits & Ht & Hval & Hc & Hs & c' & body' & -> & Hhex).
        inversion Ht as [| c0 b0 d0 Hh Ht' | c0 b0 d0 Hh Ht']; subst.
        -- exists ("_"%char :: c' :: body'), (c' :: d0).
           split; [now constructor |]. auto.
        -- discriminate Hhex.
      * destruct after; [discriminate |]. intros [= <- <- <-].
        exists [], []. cbn. repeat split; [constructor | lia].
Qed.

Lemma scan_digits_complete body digits :
  digits_tail body digits ->
  forall rest value count,
    run_stops rest ->
    scan_digits (body ++ rest) value count false
    = Some (hex_fold digits value, (count + List.length digits)%nat, rest).
Proof.
  induction 1 as [| c body digits Hc Ht IH | c body digits Hc Ht IH];
    intros rest value count Hstop.
  - cbn [app fold_left List.length]. rewrite Nat.add_0_r.
    destruct rest as [| c rest]; [reflexivity |].
    destruct Hstop as (Hv & Hus). cbn [scan_digits]. now rewrite Hv, Hus.
  - destruct (is_hex_some c Hc) as (v & Hv).
    cbn [app scan_digits fold_left List.length]. rewrite Hv.
    rewrite IH by exact Hstop. now rewrite Nat.add_succ_r.
  - destruct (is_hex_some c Hc) as (v & Hv).
    cbn [app scan_digits fold_left List.length].
    change (hex_value "_") with (@None Z). cbn [Ascii.eqb Bool.eqb].
    rewrite Hv. rewrite IH by exact Hstop. now rewrite Nat.add_succ_r.
Qed.

Lemma spaces_run_stops ws : forallb is_space ws = true -> run_stops ws.
Proof.
  destruct ws as [| c ws]; cbn [forallb run_stops]; [auto |].
  intros H. apply andb_true_iff in H. destruct H as (Hc & _).
  destruct (is_space_plain c Hc) as (Hv & Hus & _). auto.
Qed.

(** [int(s, 16)] returns [n] exactly when [s] is a literal writing [n]. *)
Lemma int16_sound s n :
  int16 s = Some n -> literal16 (list_ascii_of_string s) n.
Proof.
  unfold int16.
  destruct (skip_spaces_split (list_ascii_of_string s)) as (ws1 & Hs1 & Hws1).
  destruct (skip_sign (skip_spaces (list_ascii_of_string s)))
    as [negative s2] eqn:Hsign.
  destruct (skip_sign_split _ _ _ Hsign) as (sg & Hs2 & Hsg).
  destruct (skip_prefix_split s2) as (pre & Hs3 & Hpre).
  destruct (starts_with_underscore (skip_prefix s2)) eqn:Hus; [discriminate |].
  destruct (scan_digits (skip_prefix s2) 0 0 false)
    as [[[value count] rest] |] eqn:Hscan; [| discriminate].
  destruct count as [| count]; [discriminate |].
  destruct (skip_spaces rest) eqn:Hrest; [| discriminate].
  intros [= <-].
  destruct (scan_digits_sound _ _ _ _ _ _ _ Hscan)
    as (body & digits & Ht & Hval & Hcount & Hs4).
  apply skip_spaces_all in Hrest.
  exists ws1, sg, negative, pre, body, digits, rest.
  split; [rewrite Hs1 at 1; rewrite Hs2, Hs3 at 1; now rewrite Hs4 at 1 |].
  split; [exact Hws1 |]. split; [exact Hrest |].
  split; [exact Hsg |]. split; [exact Hpre |].
  split; [| unfold hex_number; now rewrite Hval].
  rewrite Hs4 in Hus.
  inversion Ht as [| c b d Hh Ht' | c b d Hh Ht']; subst.
  - cbn in Hcount. lia.
  - now exists c, b, d.
  - cbn in Hus. discriminate Hus.
Qed.

Lemma int16_complete s n :
  literal16 (list_ascii_of_string s) n -> int16 s = Some n.
Proof.
  intros (ws1 & sg & negative & pre & body & digits & ws2 &
          Hs & Hws1 & Hws2 & Hsg & Hpre &
          (c & body' & digits' & -> & -> & Hc & Ht) & ->).
  unfold int16. rewrite Hs. clear Hs.
  destruct (is_hex_plain c Hc) as (Hsp & Hus & Hplus & Hminus).
  destruct (is_hex_not_x c Hc) as (Hx & HX).
  destruct (is_hex_some c Hc) as (v & Hv).
  rewrite skip_spaces_app by exact Hws1.
  assert (Hscan : scan_digits ((c :: body') ++ ws2) 0 0 false
                  = Some (hex_number (c :: digits'),
                          S (List.length digits'), ws2)).
  { cbn [app scan_digits]. rewrite Hv.
    rewrite (scan_digits_complete _ _ Ht) by now apply spaces_run_stops.
    unfold hex_number. cbn [fold_left]. now rewrite Hv. }
  assert (Hend : skip_spaces ws2 = []) by now apply skip_spaces_all.
  assert (Hbody : forall neg : bool,
             (if starts_with_underscore ((c :: body') ++ ws2) then None
              else
                match scan_digits ((c :: body') ++ ws2) 0 0 false with
                | Some (value, S _, rest) =>
                    match skip_spaces rest with
                    | [] => Some (if neg then - value else value)
                    | _ :: _ => None
                    end
                | _ => None
                end)
             = Some (if neg then - hex_number (c :: digits')
                     else hex_number (c :: digits'))).
  { intros neg. rewrite Hscan, Hend. cbn [app starts_with_underscore].
    now rewrite Hus. }
  assert (Hprefix : skip_prefix (pre ++ (c :: body') ++ ws2)
                    = (c :: body') ++ ws2).
  { destruct Hpre as [-> | (x & Hx' & [-> | ->])].
    - cbn [app skip_prefix].
      destruct (body' ++ ws2) as [| x rest] eqn:Hrest; [reflexivity |].
      destruct (Ascii.eqb c "0"); cbn [andb]; [| reflexivity].
      assert (Hnx : Ascii.eqb x "x" || Ascii.eqb x "X" = false).
      { destruct body' as [| b body'].
        - cbn [app] in Hrest. subst ws2. cbn [forallb] in Hws2.
          apply andb_true_iff in Hws2. destruct Hws2 as (Hb & _).
          destruct (is_space_plain x Hb) as (_ & _ & -> & -> & _).
          reflexivity.
        - cbn [app] in Hrest. injection Hrest as -> _.
          inversion Ht as [| c0 b0 d0 Hh Ht' | c0 b0 d0 Hh Ht']; subst.
          + destruct (is_hex_not_x x Hh) as (-> & ->). reflexivity.
          + reflexivity. }
      now rewrite Hnx.
    - cbn [app skip_prefix Ascii.eqb Bool.eqb andb].
      assert (Hxx : Ascii.eqb x "x" || Ascii.eqb x "X" = true)
        by (destruct Hx' as [-> | ->]; reflexivity).
      rewrite Hxx. cbn [skip_underscore]. now rewrite Hus.
    - cbn [app skip_prefix Ascii.eqb Bool.eqb andb].
      assert (Hxx : Ascii.eqb x "x" || Ascii.eqb x "X" = true)
        by (destruct Hx' as [-> | ->]; reflexivity).
      rewrite Hxx. reflexivity. }
  assert (Hhead : exists h t, pre ++ (c :: body') ++ ws2 = h :: t /\
                              is_space h = false /\
                              Ascii.eqb h "+" = false /\
                              Ascii.eqb h "-" = false).
  { destruct Hpre as [-> | (x & Hx' & [-> | ->])].
    - exists c, (body' ++ ws2). auto.
    - eexists _, _. split; [reflexivity |]. repeat split.
    - eexists _, _. split; [reflexivity |]. repeat split. }
  destruct Hhead as (h & t & Hht & Hhsp & Hhplus & Hhminus).
  remember (pre ++ (c :: body') ++ ws2) as literal eqn:Hliteral.
  remember ((c :: body') ++ ws2) as unsigned eqn:Hunsigned.
  destruct Hsg as [(-> & ->) | [(-> & ->) | (-> & ->)]]; cbn [app].
  - rewrite Hht. cbn [skip_spaces]. rewrite Hhsp. cbn [skip_sign].
    rewrite Hhplus, Hhminus. rewrite <- Hht, Hprefix. exact (Hbody false).
  - cbn [skip_spaces]. change (is_space "+") with false. cbn [skip_sign].
    cbn [Ascii.eqb Bool.eqb]. rewrite Hprefix. exact (Hbody false).
  - cbn [skip_spaces]. change (is_space "-") with false. cbn [skip_sign].
    cbn [Ascii.eqb Bool.eqb]. rewrite Hprefix. exact (Hbody true).
Qed.

(** ** Decoding over text of any code points *)

Section UnicodeLiterals.

Variable unicode_space : N -> bool.
Variable unicode_decimal : N -> option Unicode.decimal_digit.

Local Notation "'isspace'" := (Unicode.isspace unicode_space).
Local Notation "'todecimal'" := (Unicode.todecimal unicode_decimal).
Local Notation "'reads_as'" :=
  (Unicode.reads_as unicode_space unicode_decimal).
Local Notation "'transform_from'" :=
  (Unicode.transform_from unicode_space unicode_decimal).
Local Notation "'transform'" :=
  (Unicode.transform unicode_space unicode_decimal).
Local Notation "'decode'" :=
  (Unicode.decode_balance_result unicode_space unicode_decimal).

Lemma literal_chars_inv c s :
  literal_chars (c :: s) -> literal_char c = true /\ literal_chars s.
Proof. intros H. inversion H. auto. Qed.

(** The text that [int] scans, when it holds no character foreign to a
    literal, is the input read character by character. *)
Lemma transform_from_reads s :
  literal_chars (transform_from s) -> Forall2 reads_as s (transform_from s).
Proof.
  induction s as [| c s IH]; cbn [Unicode.transform_from]; [constructor |].
  destruct (N.ltb_spec c 127) as [Hlt | Hge].
  { intros H. apply literal_chars_inv in H. destruct H as (_ & Hs).
    constructor; [left; auto | auto]. }
  destruct (isspace c) eqn:Hsp.
  { intros H. apply literal_chars_inv in H. destruct H as (_ & Hs).
    constructor; [right; left; auto | auto]. }
  destruct (todecimal c) as [v |] eqn:Hv.
  - intros H. apply literal_chars_inv in H. destruct H as (_ & Hs).
    constructor; [| auto]. right; right. eauto.
  - intros H. apply literal_chars_inv in H. destruct H as (H & _).
    discriminate H.
Qed.

Lemma transform_reads s :
  literal_chars (transform s) -> Forall2 reads_as s (transform s).
Proof.
  unfold Unicode.transform.
  destruct (Unicode.is_ascii_text s) eqn:Hascii;
    [| apply transform_from_reads].
  induction s as [| c s IH]; cbn [map]; [constructor |].
  cbn [Unicode.is_ascii_text forallb] in Hascii.
  apply andb_true_iff in Hascii. destruct Hascii as (Hc & Hs).
  intros H. apply literal_chars_inv in H. destruct H as (Hlit & Hrest).
  constructor; [| now apply IH].
  left. split; [| reflexivity].
  apply N.ltb_lt in Hc.
  assert (Hne : c <> 127%N) by (intros ->; discriminate Hlit).
  lia.
Qed.

Lemma reads_transform_from s t :
  Forall2 reads_as s t -> transform_from s = t.
Proof.
  induction 1 as [| c a s t Hc _ IH]; [reflexivity |].
  cbn [Unicode.transform_from].
  destruct Hc as [(Hlt & ->) | [(Hge & Hsp & ->) | (Hge & Hsp & v & Hv & ->)]].
  - apply N.ltb_lt in Hlt. now rewrite Hlt, IH.
  - apply N.ltb_ge in Hge. now rewrite Hge, Hsp, IH.
  - apply N.ltb_ge in Hge. now rewrite Hge, Hsp, Hv, IH.
Qed.

Lemma reads_transform s t : Forall2 reads_as s t -> transform s = t.
Proof.
  intros Hreads. unfold Unicode.transform.
  destruct (Unicode.is_ascii_text s) eqn:Hascii;
    [| now apply reads_transform_from].
  induction Hreads as [| c a s t Hc _ IH]; [reflexivity |].
  cbn [Unicode.is_ascii_text forallb] in Hascii.
  apply andb_true_iff in Hascii. destruct Hascii as (Hlt & Hs).
  cbn [map]. rewrite (IH Hs). f_equal.
  apply N.ltb_lt in Hlt.
  destruct Hc as [(_ & ->) | [(Hge & Hsp & _) | (Hge & _ & v & Hv & _)]];
    [reflexivity | |].
  - assert (c = 127%N) as -> by lia. discriminate Hsp.
  - assert (c = 127%N) as -> by lia. discriminate Hv.
Qed.

Lemma text_eqb_spec s t : Unicode.eqb s t = true <-> s = t.
Proof.
  revert t. induction s as [| a s IH]; intros [| b t]; cbn [Unicode.eqb];
    try (split; [discriminate | intros [=]]); [tauto |].
  rewrite andb_true_iff, N.eqb_eq, IH. split.
  - intros (-> & ->). reflexivity.
  - intros [= -> ->]. auto.
Qed.

(** The decoder returns [n] exactly on ["0x"], with [n = 0], and on the
    texts read as a literal writing [n]. *)
Lemma decode_decoded result n :
  decode result = Decoded n <->
  (result = Unicode.of_string "0x" /\ n = 0) \/
  (exists t, Forall2 reads_as result t /\ literal16 t n).
Proof.
  unfold Unicode.decode_balance_result, Unicode.int16.
  destruct (Unicode.eqb result (Unicode.of_string "0x")) eqn:H0x.
  - apply text_eqb_spec in H0x. subst result. split.
    + intros [= <-]. now left.
    + intros [(_ & ->) | (t & Hreads & Hlit)]; [reflexivity |].
      apply reads_transform in Hreads. subst t.
      apply (int16_complete "0x") in Hlit. discriminate Hlit.
  - assert (Hne : result <> Unicode.of_string "0x").
    { intros Heq. apply text_eqb_spec in Heq. congruence. }
    destruct (int16 (string_of_list_ascii (transform result)))
      as [n' |] eqn:Hint.
    + pose proof (int16_literal _ _ Hint) as Hchars.
      pose proof (int16_sound _ _ Hint) as Hlit.
      rewrite list_ascii_of_string_of_list_ascii in Hchars, Hlit.
      split.
      * intros [= <-]. right. exists (transform result).
        split; [now apply transform_reads | exact Hlit].
      * intros [(Heq & _) | (t & Hreads & Hlit')]; [contradiction |].
        apply reads_transform in Hreads. subst t.
        rewrite <- (list_ascii_of_string_of_list_ascii (transform result))
          in Hlit'.
        apply int16_complete in Hlit'. congruence.
    + split; [discriminate |].
      intros [(Heq & _) | (t & Hreads & Hlit')]; [contradiction |].
      apply reads_transform in Hreads. subst t.
      rewrite <- (list_ascii_of_string_of_list_ascii (transform result))
        in Hlit'.
      apply int16_complete in Hlit'. congruence.
Qed.

(** On a string of ASCII characters the decoder is the decoder of the
    8-bit strings. *)
Lemma transform_ascii s :
  forallb is_ascii (list_ascii_of_string s) = true ->
  transform (Unicode.of_string s) = list_ascii_of_string s.
Proof.
  intros Hascii. unfold Unicode.transform, Unicode.of_string.
  assert (Hall : Unicode.is_ascii_text
                   (map N_of_ascii (list_ascii_of_string s)) = true).
  { induction (list_ascii_of_string s) as [| c l IH]; [reflexivity |].
    cbn [forallb map Unicode.is_ascii_text] in *.
    apply andb_true_iff in Hascii. destruct Hascii as (Hc & Hl).
    apply andb_true_iff. split; [| now apply IH].
    unfold is_ascii, code in Hc. apply Nat.ltb_lt in Hc.
    apply N.ltb_lt. rewrite <- (N2Nat.id (N_of_ascii c)).
    change (N.to_nat (N_of_ascii c)) with (nat_of_ascii c). lia. }
  rewrite Hall, map_map.
  rewrite (map_ext _ (fun a => a)) by apply ascii_N_embedding.
  apply map_id.
Qed.

Lemma of_string_0x s :
  Unicode.eqb (Unicode.of_string s) (Unicode.of_string "0x")
  = String.eqb s "0x".
Proof.
  destruct (String.eqb_spec s "0x") as [-> | Hne]; [reflexivity |].
  destruct (Unicode.eqb _ _) eqn:Heq; [| reflexivity].
  apply text_eqb_spec in Heq. exfalso. apply Hne.
  rewrite <- (string_of_list_ascii_of_string s).
  rewrite <- (string_of_list_ascii_of_string "0x"). f_equal.
  unfold Unicode.of_string in Heq.
  revert Heq. generalize (list_ascii_of_string "0x").
  induction (list_ascii_of_string s) as [| a l IH]; intros [| b l'];
    cbn [map]; try discriminate; [reflexivity |].
  intros [= Hab Hl]. f_equal; [| now apply IH].
  rewrite <- (ascii_N_embedding a), <- (ascii_N_embedding b). now rewrite Hab.
Qed.

Lemma decode_ascii s :
  forallb is_ascii (list_ascii_of_string s) = true ->
  decode (Unicode.of_string s) = decode_balance_result s.
Proof.
  intros Hascii.
  unfold Unicode.decode_balance_result, decode_balance_result, Unicode.int16.
  rewrite of_string_0x, (transform_ascii s Hascii).
  now rewrite string_of_list_ascii_of_string.
Qed.

Lemma is_hex_ascii c : is_hex c = true -> is_ascii c = true.
Proof.
  destruct c as [[] [] [] [] [] [] [] []]; cbv; intros H;
    first [discriminate H | reflexivity].
Qed.

End UnicodeLiterals.

(** ** Date validation over text of any code points *)

Lemma between_spec lo hi c :
  reflect (lo <= c <= hi)%N (Unicode.between lo hi c).
Proof.
  apply iff_reflect. unfold Unicode.between.
  rewrite andb_true_iff, !N.leb_le. reflexivity.
Qed.

(** Settles the character tests of the goal from the facts at hand. *)
Ltac settle_tests :=
  repeat match goal with
    | |- context [(?x =? ?k)%N] => destruct (N.eqb_spec x k); try lia
    | |- context [Unicode.between ?lo ?hi ?x] =>
        destruct (between_spec lo hi x); try lia
    end;
  cbn [andb orb app].

Section UnicodeDates.

Variable unicode_decimal : N -> option Unicode.decimal_digit.

Local Notation "'todecimal'" := (Unicode.todecimal unicode_decimal).
Local Notation "'year_text'" := (Unicode.year_text unicode_decimal).
Local Notation "'day_text'" := (Unicode.day_text unicode_decimal).
Local Notation "'pattern_prefix'" :=
  (Unicode.pattern_prefix unicode_decimal).
Local Notation "'match_Y'" := (Unicode.match_Y unicode_decimal).
Local Notation "'match_d'" := (Unicode.match_d unicode_decimal).
Local Notation "'match_m_dash_d'" :=
  (Unicode.match_m_dash_d unicode_decimal).
Local Notation "'regex_match'" := (Unicode.regex_match unicode_decimal).
Local Notation "'strptime'" := (Unicode.strptime unicode_decimal).
Local Notation "'validate'" := (Unicode.validate_date unicode_decimal).

Lemma todecimal_range c v : todecimal c = Some v -> 0 <= v <= 9.
Proof.
  unfold Unicode.todecimal, Unicode.ascii_value.
  destruct (c <? 128)%N.
  - destruct (between_spec 48 57 c); [| discriminate]. intros [= <-]. lia.
  - destruct (unicode_decimal c) as [[] |]; cbn; intros [= <-]; lia.
Qed.

Lemma todecimal_ascii c v : Unicode.ascii_digit c v -> todecimal c = Some v.
Proof.
  intros (Hc & ->). unfold Unicode.todecimal, Unicode.ascii_value.
  destruct (N.ltb_spec c 128); [| lia].
  destruct (between_spec 48 57 c); [reflexivity | lia].
Qed.

Lemma match_dash_inv s rest :
  Unicode.match_dash s = Some rest -> s = 45%N :: rest.
Proof.
  destruct s as [| c s]; cbn; [discriminate |].
  destruct (N.eqb_spec c 45) as [-> | _]; [| discriminate].
  now intros [= <-].
Qed.

Lemma match_Y_text s y rest :
  match_Y s = Some (y, rest) -> exists yt, s = yt ++ rest /\ year_text yt y.
Proof.
  destruct s as [| a [| b [| c [| d s']]]]; cbn [Unicode.match_Y];
    try discriminate.
  destruct (todecimal a) as [va |] eqn:Ha; [| discriminate].
  destruct (todecimal b) as [vb |] eqn:Hb; [| discriminate].
  destruct (todecimal c) as [vc |] eqn:Hc; [| discriminate].
  destruct (todecimal d) as [vd |] eqn:Hd; [| discriminate].
  intros Heq. apply some_pair_inv in Heq. destruct Heq as [<- <-].
  exists [a; b; c; d]. split; [reflexivity |].
  exists a, b, c, d, va, vb, vc, vd. auto 10.
Qed.

Lemma year_text_match yt y rest :
  year_text yt y -> match_Y (yt ++ rest) = Some (y, rest).
Proof.
  intros (a & b & c & d & va & vb & vc & vd & -> & Ha & Hb & Hc & Hd & ->).
  cbn [app Unicode.match_Y]. now rewrite Ha, Hb, Hc, Hd.
Qed.

Lemma year_text_range yt y : year_text yt y -> 0 <= y <= 9999.
Proof.
  intros (a & b & c & d & va & vb & vc & vd & _ & Ha & Hb & Hc & Hd & ->).
  apply todecimal_range in Ha, Hb, Hc, Hd. lia.
Qed.

Lemma m_alternatives_text s m rest :
  In (m, rest) (Unicode.m_alternatives s) ->
  exists mt, s = mt ++ rest /\ Unicode.month_text mt m.
Proof.
  unfold Unicode.month_text, Unicode.ascii_digit.
  destruct s as [| a [| b s']]; cbn [Unicode.m_alternatives];
    [contradiction | |].
  - destruct (between_spec 49 57 a); [| contradiction].
    intros Hin. take_alternative Hin. exists [a]. split; [reflexivity |].
    unfold Unicode.ascii_value. split; [lia |]. right. exists a.
    split; [reflexivity |]. lia.
  - rewrite !in_app_iff. intros [Hin | [Hin | Hin]].
    + destruct (N.eqb_spec a 49) as [-> | _]; [| contradiction].
      destruct (between_spec 48 50 b); [| contradiction].
      cbn [andb] in Hin. take_alternative Hin.
      exists [49%N; b]. split; [reflexivity |].
      unfold Unicode.ascii_value. split; [lia |]. left.
      exists 49%N, b, 1, (Z.of_N b - 48). repeat split; lia.
    + destruct (N.eqb_spec a 48) as [-> | _]; [| contradiction].
      destruct (between_spec 49 57 b); [| contradiction].
      cbn [andb] in Hin. take_alternative Hin.
      exists [48%N; b]. split; [reflexivity |].
      unfold Unicode.ascii_value. split; [lia |]. left.
      exists 48%N, b, 0, (Z.of_N b - 48). repeat split; lia.
    + destruct (between_spec 49 57 a); [| contradiction].
      take_alternative Hin. exists [a]. split; [reflexivity |].
      unfold Unicode.ascii_value. split; [lia |]. right. exists a.
      split; [reflexivity |]. lia.
Qed.

Lemma match_d_text s d rest :
  match_d s = Some (d, rest) -> exists dt, s = dt ++ rest /\ day_text dt d.
Proof.
  unfold Unicode.day_text, Unicode.ascii_digit.
  destruct s as [| a [| b s']]; cbn [Unicode.match_d]; [discriminate | |].
  - destruct (between_spec 49 57 a); [| discriminate].
    open_some. exists [a]. split; [reflexivity |].
    unfold Unicode.ascii_value. split; [lia |]. right; left. exists a.
    split; [reflexivity |]. lia.
  - destruct (N.eqb_spec a 51) as [-> | Hne3]; cbn [andb].
    { destruct (between_spec 48 49 b).
      - open_some. exists [51%N; b]. split; [reflexivity |].
        unfold Unicode.ascii_value. split; [lia |]. left.
        exists 51%N, b, 3, (Z.of_N b - 48).
        split; [reflexivity |]. split; [lia |]. split; [lia |].
        left. lia.
      - destruct (between_spec 49 50 51); [lia |].
        destruct (N.eqb_spec 51 48); [lia |]. cbn [andb].
        destruct (between_spec 49 57 51); [| lia].
        open_some. exists [51%N]. split; [reflexivity |].
        unfold Unicode.ascii_value. split; [lia |]. right; left.
        exists 51%N. split; [reflexivity |]. lia. }
    destruct (between_spec 49 50 a) as [Ha12 | Ha12].
    { destruct (todecimal b) as [vb |] eqn:Hb.
      - open_some. pose proof (todecimal_range _ _ Hb) as Hvb.
        exists [a; b]. split; [reflexivity |].
        unfold Unicode.ascii_value. split; [lia |]. left.
        exists a, b, (Z.of_N a - 48), vb.
        split; [reflexivity |]. split; [lia |]. split; [lia |].
        right. split; [lia | exact Hb].
      - destruct (N.eqb_spec a 48); [lia |]. cbn [andb].
        destruct (between_spec 49 57 a); [| lia].
        open_some. exists [a]. split; [reflexivity |].
        unfold Unicode.ascii_value. split; [lia |]. right; left.
        exists a. split; [reflexivity |]. lia. }
    destruct (N.eqb_spec a 48) as [-> | Hne0]; cbn [andb].
    { destruct (between_spec 49 57 b).
      - open_some. exists [48%N; b]. split; [reflexivity |].
        unfold Unicode.ascii_value. split; [lia |]. left.
        exists 48%N, b, 0, (Z.of_N b - 48).
        split; [reflexivity |]. split; [lia |]. split; [lia |].
        left. lia.
      - destruct (between_spec 49 57 48); [lia |].
        destruct (N.eqb_spec 48 32); [lia |]. discriminate. }
    destruct (between_spec 49 57 a).
    { open_some. exists [a]. split; [reflexivity |].
      unfold Unicode.ascii_value. split; [lia |]. right; left.
      exists a. split; [reflexivity |]. lia. }
    destruct (N.eqb_spec a 32) as [-> | _]; [| discriminate]. cbn [andb].
    destruct (between_spec 49 57 b); [| discriminate].
    open_some. exists [32%N; b]. split; [reflexivity |].
    unfold Unicode.ascii_value. split; [lia |]. right; right.
    exists b. split; [reflexivity |]. lia.
Qed.

(** A whole day text is taken by the day group, with its value. *)
Lemma day_text_match dt d : day_text dt d -> match_d dt = Some (d, []).
Proof.
  unfold Unicode.day_text, Unicode.ascii_digit.
  intros (Hd & [(a & b & va & vb & -> & (Ha & ->) & -> & Hb)
               | [(a & -> & Ha & ->) | (a & -> & Ha & ->)]]).
  - cbn [Unicode.match_d].
    assert (Hvb : 0 <= vb <= 9 /\ todecimal b = Some vb).
    { destruct Hb as [Hb | (_ & Hb)].
      - split; [destruct Hb; lia | now apply todecimal_ascii].
      - split; [now apply todecimal_range in Hb | exact Hb]. }
    destruct Hvb as (Hvb & Hdec).
    destruct (N.eqb_spec a 51) as [-> | Hne3]; cbn [andb].
    { destruct Hb as [(Hb & ->) | (Hrange & _)]; [| lia].
      destruct (between_spec 48 49 b); [| lia].
      unfold Unicode.ascii_value. do 2 f_equal. }
    destruct (between_spec 49 50 a) as [Ha12 | Ha12].
    { rewrite Hdec. reflexivity. }
    destruct Hb as [(Hb & ->) | (Hrange & _)]; [| lia].
    destruct (todecimal b) eqn:Hskip; clear Hskip.
    + destruct (N.eqb_spec a 48) as [-> | Hne0]; [| lia]. cbn [andb].
      destruct (between_spec 49 57 b); [| lia].
      unfold Unicode.ascii_value. do 2 f_equal.
    + destruct (N.eqb_spec a 48) as [-> | Hne0]; [| lia]. cbn [andb].
      destruct (between_spec 49 57 b); [| lia].
      unfold Unicode.ascii_value. do 2 f_equal.
  - cbn [Unicode.match_d]. destruct (between_spec 49 57 a); [| lia].
    reflexivity.
  - cbn [Unicode.match_d]. settle_tests; reflexivity.
Qed.

Lemma match_m_dash_d_text s alts m d rest :
  (forall m' r, In (m', r) alts -> In (m', r) (Unicode.m_alternatives s)) ->
  match_m_dash_d alts = Some (m, d, rest) ->
  exists mt dt, s = mt ++ 45%N :: dt ++ rest /\
                Unicode.month_text mt m /\ day_text dt d.
Proof.
  induction alts as [| [m0 after_m] alts IH]; cbn [Unicode.match_m_dash_d];
    [discriminate |].
  intros Hsub.
  assert (Htail : match_m_dash_d alts = Some (m, d, rest) ->
                  exists mt dt, s = mt ++ 45%N :: dt ++ rest /\
                                Unicode.month_text mt m /\ day_text dt d).
  { apply IH. intros m' r Hin. apply Hsub. now right. }
  destruct (Unicode.match_dash after_m) as [after_dash |] eqn:Hdash;
    [| exact Htail].
  destruct (match_d after_dash) as [[d0 rest0] |] eqn:Hd; [| exact Htail].
  intros [= <- <- <-].
  destruct (m_alternatives_text s m0 after_m) as (mt & -> & Hmt);
    [apply Hsub; now left |].
  apply match_dash_inv in Hdash. subst after_m.
  destruct (match_d_text _ _ _ Hd) as (dt & -> & Hdt).
  now exists mt, dt.
Qed.

(** A month text, ["-"] and a whole day text are taken with their values:
    the first alternative of the month group that applies is the one of
    the text. *)
Lemma month_day_text_match mt dt m d :
  Unicode.month_text mt m -> day_text dt d ->
  match_m_dash_d (Unicode.m_alternatives (mt ++ 45%N :: dt))
  = Some (m, d, []).
Proof.
  unfold Unicode.month_text, Unicode.ascii_digit.
  intros (Hm & [(a & b & va & vb & -> & (Ha & ->) & (Hb & ->) & ->)
               | (a & -> & Ha & ->)]) Hday;
    apply day_text_match in Hday;
    cbn [app Unicode.m_alternatives].
  - destruct (N.eqb_spec a 49) as [-> | Hne1]; cbn [andb].
    + destruct (between_spec 48 50 b); [| lia].
      cbn [app Unicode.match_m_dash_d Unicode.match_dash].
      change (45 =? 45)%N with true. cbv iota. rewrite Hday.
      unfold Unicode.ascii_value. do 2 f_equal. 
    + destruct (N.eqb_spec a 48) as [-> | Hne0]; [| lia]. cbn [andb].
      destruct (between_spec 49 57 b); [| lia].
      cbn [app Unicode.match_m_dash_d Unicode.match_dash].
      change (45 =? 45)%N with true. cbv iota. rewrite Hday.
      unfold Unicode.ascii_value. do 2 f_equal. 
  - destruct (between_spec 48 50 45); [lia |].
    destruct (between_spec 49 57 45); [lia |].
    rewrite !andb_false_r. cbn [app].
    destruct (between_spec 49 57 a); [| lia].
    cbn [Unicode.match_m_dash_d Unicode.match_dash].
    change (45 =? 45)%N with true. cbv iota. rewrite Hday. reflexivity.
Qed.

Lemma regex_match_text s y m d rest :
  regex_match s = Some (y, m, d, rest) -> pattern_prefix s y m d rest.
Proof.
  unfold Unicode.regex_match.
  destruct (match_Y s) as [[y0 after_y] |] eqn:HY; [| discriminate].
  destruct (Unicode.match_dash after_y) as [after_dash |] eqn:Hdash;
    [| discriminate].
  destruct (match_m_dash_d (Unicode.m_alternatives after_dash))
    as [[[m0 d0] rest0] |] eqn:Hmd; [| discriminate].
  intros [= <- <- <- <-].
  destruct (match_Y_text _ _ _ HY) as (yt & -> & Hyt).
  apply match_dash_inv in Hdash. subst after_y.
  destruct (match_m_dash_d_text after_dash _ _ _ _ (fun _ _ H => H) Hmd)
    as (mt & dt & -> & Hmt & Hdt).
  now exists yt, mt, dt.
Qed.

Lemma whole_text_match s y m d :
  pattern_prefix s y m d [] -> regex_match s = Some (y, m, d, []).
Proof.
  intros (yt & mt & dt & -> & Hyt & Hmt & Hdt).
  unfold Unicode.regex_match. rewrite (year_text_match _ _ _ Hyt).
  cbn [Unicode.match_dash]. change (45 =? 45)%N with true. cbv iota.
  rewrite app_nil_r. now rewrite (month_day_text_match _ _ _ _ Hmt Hdt).
Qed.

Lemma wide_error_not_valid message date_obj :
  Unicode.on_value_error message <> Unicode.Valid date_obj.
Proof.
  unfold Unicode.on_value_error. destruct (Unicode.contains _ _); discriminate.
Qed.

Lemma starts_with_app needle extra :
  Unicode.starts_with needle (needle ++ extra) = true.
Proof.
  induction needle as [| c needle IH]; cbn; [reflexivity |].
  now rewrite N.eqb_refl.
Qed.

Lemma contains_app needle extra :
  Unicode.contains needle (needle ++ extra) = true.
Proof.
  destruct needle as [| c needle]; [destruct extra; reflexivity |].
  cbn [Unicode.contains app]. fold (app (c :: needle) extra).
  change (c :: needle ++ extra) with ((c :: needle) ++ extra).
  now rewrite starts_with_app.
Qed.

(** What [validate_date] does, by the outcome of the match. *)
Lemma validate_no_match s today :
  regex_match s = None -> validate s today = Unicode.InvalidDateFormat.
Proof.
  intros Hnone. unfold Unicode.validate_date, Unicode.strptime.
  rewrite Hnone. unfold Unicode.on_value_error.
  change (Unicode.of_string "time data " ++ Unicode.py_repr s
          ++ Unicode.of_string " does not match format '%Y-%m-%d'")
    with (Unicode.of_string "time data"
          ++ (32%N :: Unicode.py_repr s
                ++ Unicode.of_string " does not match format '%Y-%m-%d'")).
  now rewrite contains_app.
Qed.

Lemma validate_valid s today date_obj :
  validate s today = Unicode.Valid date_obj <->
  exists y m d,
    regex_match s = Some (y, m, d, []) /\
    1 <= y /\ d <= days_in_month y m /\
    date_gt (mk_date y m d) today = false /\
    date_obj = utc_midnight (mk_date y m d).
Proof.
  unfold Unicode.validate_date, Unicode.strptime.
  destruct (regex_match s) as [[[[y m] d] rest] |]; cycle 1.
  { split; [intros Hv; now apply wide_error_not_valid in Hv |].
    intros (y & m & d & [=] & _). }
  destruct rest as [| c rest].
  2:{ split; [intros Hv; now apply wide_error_not_valid in Hv |].
      intros (y' & m' & d' & [=] & _). }
  destruct (Z.ltb_spec y 1).
  { split; [intros Hv; now apply wide_error_not_valid in Hv |].
    intros (y' & m' & d' & [= <- <- <-] & Hy & _). lia. }
  destruct (Z.ltb_spec (days_in_month y m) d).
  { split; [intros Hv; now apply wide_error_not_valid in Hv |].
    intros (y' & m' & d' & [= <- <- <-] & _ & Hd & _). lia. }
  cbn [dt_date hour minute second].
  destruct (date_gt (mk_date y m d) today) eqn:Hgt.
  { split; [intros Hv; now apply wide_error_not_valid in Hv |].
    intros (y' & m' & d' & [= <- <- <-] & _ & _ & Hgt' & _). congruence. }
  split.
  - intros [= <-]. exists y, m, d. auto 10.
  - intros (y' & m' & d' & [= <- <- <-] & _ & _ & _ & ->). reflexivity.
Qed.

End UnicodeDates.

(** C6, amended. For every text [date_str], whatever its characters:
    [validate_date] fails with the invalid-format error when [date_str]
    does not start with four decimal digits, ["-"], a month [1..12] in one
    or two ASCII digits, ["-"] and a day [1..31] in one or two digits (or
    a space and a digit); it accepts [date_str] exactly when the whole of
    it is of that form and names a date of the calendar that is not after
    today, and then returns that date at midnight UTC; in particular
    ["2024-02-30"] is never accepted. *)
Theorem validate_date_format unicode_decimal date_str today :
  let validate_date := Unicode.validate_date unicode_decimal in
  let pattern_prefix := Unicode.pattern_prefix unicode_decimal in
  ((forall y m d rest, ~ pattern_prefix date_str y m d rest) ->
   validate_date date_str today = Unicode.InvalidDateFormat) /\
  (forall date_obj,
      validate_date date_str today = Unicode.Valid date_obj <->
      exists y m d,
        pattern_prefix date_str y m d [] /\
        valid_date (mk_date y m d) /\
        date_gt (mk_date y m d) today = false /\
        date_obj = utc_midnight (mk_date y m d)) /\
  (forall date_obj,
      validate_date (Unicode.of_string "2024-02-30") today
      <> Unicode.Valid date_obj).
Proof.
  cbv zeta. split; [| split].
  - intros Hnone. apply validate_no_match.
    destruct (Unicode.regex_match unicode_decimal date_str)
      as [[[[y m] d] rest] |] eqn:Hmatch; [| reflexivity].
    apply regex_match_text in Hmatch. now apply Hnone in Hmatch.
  - intros date_obj. rewrite validate_valid. split.
    + intros (y & m & d & Hmatch & Hy & Hd & Hgt & ->).
      exists y, m, d. apply regex_match_text in Hmatch.
      split; [exact Hmatch |]. split; [| auto].
      destruct Hmatch as (yt & mt & dt & _ & Hyt & (Hm & _) & (Hday & _)).
      apply year_text_range in Hyt.
      unfold valid_date; cbn [year month day]. lia.
    + intros (y & m & d & Hmatch & (Hy & Hm & Hd) & Hgt & ->).
      cbn [year month day] in Hy, Hm, Hd.
      exists y, m, d. apply whole_text_match in Hmatch.
      split; [exact Hmatch |]. split; [lia |]. split; [lia |]. auto.
  - intros date_obj. vm_compute. discriminate.
Qed.

(** The theorem at ["20240615"], which is refused, and at the year of
    2024 in fullwidth digits followed by ["-1-5"], which is accepted. *)
Lemma validate_date_format_witness :
  Unicode.validate_date Unicode.sample_decimal
    (Unicode.of_string "20240615") (mk_date 2024 6 15)
  = Unicode.InvalidDateFormat /\
  Unicode.validate_date Unicode.sample_decimal
    [65298; 65296; 65298; 65300; 45; 49; 45; 53]%N (mk_date 2024 6 15)
  = Unicode.Valid (utc_midnight (mk_date 2024 1 5)) /\
  Unicode.pattern_prefix Unicode.sample_decimal
    [65298; 65296; 65298; 65300; 45; 49; 45; 53]%N 2024 1 5 [].
Proof.
  split; [| split].
  - apply (validate_date_format Unicode.sample_decimal).
    intros y m d rest
           (yt & mt & dt & Heq &
            (a & b & c & e & va & vb & vc & vd & -> & _) & _).
    vm_compute in Heq. congruence.
  - reflexivity.
  - destruct (validate_date_format
                Unicode.sample_decimal
                [65298; 65296; 65298; 65300; 45; 49; 45; 53]%N
                (mk_date 2024 6 15)) as (_ & Hvalid & _).
    destruct (proj1 (Hvalid (utc_midnight (mk_date 2024 1 5))) eq_refl)
      as (y & m & d & Hform & _ & _ & Heq).
    injection Heq as <- <- <-. exact Hform.
Defined.

(** C9, amended. For every text [result], whatever its characters: the
    decoder maps ["0x"] to 0 and ["0x"] followed by one or more hex
    digits to the unsigned number the digits write, most significant
    first (so ["0x64"] gives 100); it returns [n] exactly when [result]
    is ["0x"] and [n] is 0, or [result], read character by character, is
    a literal writing [n]: white space, a sign, ["0x"] or ["0X"] and one
    underscore, groups of hex digits joined by single underscores, white
    space, all but the digits being optional; and it fails with the
    decode error on every other text. *)
Theorem decode_balance_result_literals unicode_space unicode_decimal :
  let decode := Unicode.decode_balance_result unicode_space unicode_decimal in
  let reads := Forall2 (Unicode.reads_as unicode_space unicode_decimal) in
  decode (Unicode.of_string "0x") = Decoded 0 /\
  decode (Unicode.of_string "0x64") = Decoded 100 /\
  (forall digits,
      digits <> [] -> forallb is_hex digits = true ->
      decode (Unicode.of_string ("0x" ++ string_of_list_ascii digits))
      = Decoded (hex_number digits) /\
      0 <= hex_number digits) /\
  (forall result n,
      decode result = Decoded n <->
      (result = Unicode.of_string "0x" /\ n = 0) \/
      (exists t, reads result t /\ literal16 t n)) /\
  (forall result,
      decode result = DecodeError <->
      result <> Unicode.of_string "0x" /\
      forall t n, reads result t -> ~ literal16 t n).
Proof.
  cbv zeta.
  split; [reflexivity |]. split; [reflexivity |]. split; [| split].
  - intros digits Hne Hall. split; [| now apply fold_hex_nonneg].
    rewrite decode_ascii.
    + destruct (int16_hex_literal digits Hne Hall) as (Hint & _).
      unfold decode_balance_result. rewrite Hint.
      destruct digits as [| c digits]; [contradiction |]. reflexivity.
    + cbn [append list_ascii_of_string forallb].
      rewrite list_ascii_of_string_of_list_ascii.
      change (is_ascii "0") with true. change (is_ascii "x") with true.
      cbn [andb]. clear Hne.
      induction digits as [| c digits IH]; [reflexivity |].
      cbn [forallb] in *. apply andb_true_iff in Hall.
      destruct Hall as (Hc & Hall).
      now rewrite (is_hex_ascii c Hc), IH.
  - apply decode_decoded.
  - intros result. split.
    + intros Herr. split.
      * intros ->. discriminate Herr.
      * intros t n Hreads Hlit.
        assert (Hdec : Unicode.decode_balance_result
                         unicode_space unicode_decimal result = Decoded n)
          by (apply decode_decoded; right; now exists t).
        congruence.
    + intros (Hne & Hnone).
      destruct (Unicode.decode_balance_result
                  unicode_space unicode_decimal result) as [n |] eqn:Hdec;
        [| reflexivity].
      apply decode_decoded in Hdec.
      destruct Hdec as [(Heq & _) | (t & Hreads & Hlit)];
        [contradiction | now apply Hnone in Hlit].
Qed.

(** The theorem at ["0x7d5C"]; at ["0x"] followed by 64 in fullwidth
    digits, which is decoded; and at the empty text, ["-"], ["0X"],
    ["0x_"], ["+0x"] and ["0xzz"], which are refused. *)
Lemma decode_balance_result_literals_witness :
  let decode :=
    Unicode.decode_balance_result Unicode.sample_space Unicode.sample_decimal
  in
  let reads :=
    Forall2 (Unicode.reads_as Unicode.sample_space Unicode.sample_decimal) in
  decode (Unicode.of_string "0x7d5C") = Decoded 32092 /\
  decode [48; 120; 65302; 65300]%N = Decoded 100 /\
  (exists t, reads [48; 120; 65302; 65300]%N t /\ literal16 t 100) /\
  Forall (fun s => decode (Unicode.of_string s) = DecodeError /\
                   forall t n, reads (Unicode.of_string s) t ->
                               ~ literal16 t n)
         [""; "-"; "0X"; "0x_"; "+0x"; "0xzz"]%string.
Proof.
  cbv zeta.
  destruct (decode_balance_result_literals
              Unicode.sample_space Unicode.sample_decimal)
    as (_ & _ & Hdigits & Hdecoded & Herror).
  split; [| split; [| split]].
  - apply (Hdigits ["7"%char; "d"%char; "5"%char; "C"%char]);
      [discriminate | reflexivity].
  - reflexivity.
  - destruct (proj1 (Hdecoded [48; 120; 65302; 65300]%N 100) eq_refl)
      as [(Heq & _) | Hlit]; [discriminate Heq | exact Hlit].
  - repeat constructor;
      try (apply (proj1 (Herror _)); reflexivity).
Defined.

(** ** The 8-bit strings among the texts

    On a string of code points [0..255] the functions over texts are the
    functions over 8-bit strings given first.  Among the code points
    [128..255] the character database has no decimal digit, and the
    white space [U+0085] and [U+00A0]. *)

Lemma of_ascii_inj a b : N_of_ascii a = N_of_ascii b -> a = b.
Proof.
  intros H. rewrite <- (ascii_N_embedding a), <- (ascii_N_embedding b).
  now rewrite H.
Qed.

Lemma between_code lo hi a :
  Unicode.between lo hi (N_of_ascii a)
  = in_range (N.to_nat lo) (N.to_nat hi) a.
Proof.
  apply eq_true_iff_eq. unfold Unicode.between, in_range, code, nat_of_ascii.
  rewrite !andb_true_iff, !N.leb_le, !Nat.leb_le. lia.
Qed.

Lemma eqb_code k a :
  (k < 256)%N -> (N_of_ascii a =? k)%N = Ascii.eqb a (ascii_of_N k).
Proof.
  intros Hk. destruct (N.eqb_spec (N_of_ascii a) k) as [<- | Hne].
  - now rewrite ascii_N_embedding, Ascii.eqb_refl.
  - destruct (Ascii.eqb_spec a (ascii_of_N k)) as [-> | _]; [| reflexivity].
    now rewrite N_ascii_embedding in Hne.
Qed.

Lemma value_code a :
  (48 <= code a)%nat -> Unicode.ascii_value (N_of_ascii a) = digit_value a.
Proof.
  unfold Unicode.ascii_value, digit_value, code, nat_of_ascii. lia.
Qed.

(** Writes the tests on code points as the tests on 8-bit characters. *)
Ltac narrow_tests :=
  rewrite ?between_code, ?eqb_code by reflexivity;
  repeat match goal with
    | |- context [N.to_nat (Npos ?p)] =>
        let v := eval vm_compute in (N.to_nat (Npos p)) in
        change (N.to_nat (Npos p)) with v
    | |- context [ascii_of_N (Npos ?p)] =>
        let v := eval vm_compute in (ascii_of_N (Npos p)) in
        change (ascii_of_N (Npos p)) with v
    end.

Lemma of_string_app s1 s2 :
  Unicode.of_string (s1 ++ s2)
  = Unicode.of_string s1 ++ Unicode.of_string s2.
Proof.
  unfold Unicode.of_string.
  induction s1 as [| c s1 IH]; cbn; [reflexivity | now rewrite IH].
Qed.

Lemma starts_with_code needle hay :
  Unicode.starts_with (Unicode.of_string needle) (Unicode.of_string hay)
  = String.prefix needle hay.
Proof.
  revert hay. induction needle as [| a needle IH]; intros [| b hay];
    try reflexivity.
  change (Unicode.of_string (String a needle))
    with (N_of_ascii a :: Unicode.of_string needle).
  change (Unicode.of_string (String b hay))
    with (N_of_ascii b :: Unicode.of_string hay).
  cbn [Unicode.starts_with String.prefix].
  destruct (ascii_dec a b) as [-> | Hne].
  - now rewrite N.eqb_refl, IH.
  - destruct (N.eqb_spec (N_of_ascii a) (N_of_ascii b)) as [Heq | _];
      [| reflexivity].
    now apply of_ascii_inj in Heq.
Qed.

Lemma contains_code needle hay :
  Unicode.contains (Unicode.of_string needle) (Unicode.of_string hay)
  = contains needle hay.
Proof.
  induction hay as [| b hay IH].
  - cbn [contains]. rewrite <- starts_with_code. cbn [Unicode.contains].
    reflexivity.
  - cbn [contains]. rewrite <- starts_with_code, <- IH. reflexivity.
Qed.

(** A literal stays a literal, of the same value, when white space is
    replaced by white space. *)
Lemma same_readings_sym l t :
  Forall2 same_reading l t -> Forall2 same_reading t l.
Proof.
  induction 1 as [| a b l t Hab _ IH]; constructor; [| exact IH].
  destruct Hab as [-> | (Ha & Hb)]; [now left | right; auto].
Qed.

Lemma same_readings_spaces l t :
  Forall2 same_reading l t ->
  forallb is_space l = true -> forallb is_space t = true.
Proof.
  induction 1 as [| a b l t Hab _ IH]; [auto |].
  cbn [forallb]. rewrite !andb_true_iff. intros (Ha & Hl).
  split; [| auto]. destruct Hab as [<- | (_ & Hb)]; auto.
Qed.

Lemma same_readings_plain l t :
  Forall2 same_reading l t ->
  Forall (fun c => is_space c = false) l -> t = l.
Proof.
  induction 1 as [| a b l t Hab _ IH]; [reflexivity |].
  intros Hplain. inversion Hplain as [| a' l' Ha Hl]; subst.
  rewrite (IH Hl). destruct Hab as [<- | (Hsp & _)]; [reflexivity |].
  congruence.
Qed.

Lemma digits_tail_plain body digits :
  digits_tail body digits -> Forall (fun c => is_space c = false) body.
Proof.
  induction 1 as [| c body digits Hc _ IH | c body digits Hc _ IH].
  - constructor.
  - constructor; [now destruct (is_hex_plain c Hc) | exact IH].
  - constructor; [reflexivity |].
    constructor; [now destruct (is_hex_plain c Hc) | exact IH].
Qed.

Lemma literal16_same l t n :
  Forall2 same_reading l t -> literal16 l n -> literal16 t n.
Proof.
  intros Hsame (ws1 & sg & negative & pre & body & digits & ws2 &
                -> & Hws1 & Hws2 & Hsg & Hpre & Hbody & ->).
  apply Forall2_app_inv_l in Hsame.
  destruct Hsame as (t1 & r1 & H1 & Hsame & ->).
  apply Forall2_app_inv_l in Hsame.
  destruct Hsame as (t2 & r2 & H2 & Hsame & ->).
  apply Forall2_app_inv_l in Hsame.
  destruct Hsame as (t3 & r3 & H3 & Hsame & ->).
  apply Forall2_app_inv_l in Hsame.
  destruct Hsame as (t4 & t5 & H4 & H5 & ->).
  assert (Hsg' : Forall (fun c => is_space c = false) sg).
  { destruct Hsg as [(-> & _) | [(-> & _) | (-> & _)]];
      repeat constructor. }
  assert (Hpre' : Forall (fun c => is_space c = false) pre).
  { destruct Hpre as [-> | (x & [-> | ->] & [-> | ->])];
      repeat constructor. }
  assert (Hbody' : Forall (fun c => is_space c = false) body).
  { destruct Hbody as (c & body' & digits' & -> & _ & Hc & Ht).
    constructor; [now destruct (is_hex_plain c Hc) |].
    now apply digits_tail_plain in Ht. }
  apply same_readings_plain in H2, H3, H4; auto. subst t2 t3 t4.
  exists t1, sg, negative, pre, body, digits, t5.
  split; [reflexivity |].
  split; [now apply (same_readings_spaces _ _ H1) |].
  split; [now apply (same_readings_spaces _ _ H5) |]. auto.
Qed.

Section Latin1.

Variable unicode_space : N -> bool.
Variable unicode_decimal : N -> option Unicode.decimal_digit.

Hypothesis latin1_decimal :
  forall c, (128 <= c < 256)%N -> unicode_decimal c = None.
Hypothesis latin1_space :
  forall c, (128 <= c < 256)%N ->
            unicode_space c = ((c =? 133) || (c =? 160))%N.

Local Notation "'todecimal'" := (Unicode.todecimal unicode_decimal).
Local Notation "'widen'" :=
  (fun p : Z * list ascii => (fst p, map N_of_ascii (snd p))).

Lemma todecimal_code a :
  todecimal (N_of_ascii a)
  = if is_digit a then Some (digit_value a) else None.
Proof.
  unfold Unicode.todecimal, is_digit.
  rewrite between_code. change (N.to_nat 48) with 48%nat.
  change (N.to_nat 57) with 57%nat.
  pose proof (N_ascii_bounded a) as Hbound.
  destruct (N.ltb_spec (N_of_ascii a) 128) as [Hlt | Hge].
  - destruct (in_range 48 57 a) eqn:Hd; [| reflexivity].
    apply in_range_spec in Hd. now rewrite value_code by lia.
  - rewrite latin1_decimal by lia.
    destruct (in_range 48 57 a) eqn:Hd; [| reflexivity].
    apply in_range_spec in Hd. unfold code, nat_of_ascii in Hd. lia.
Qed.

Lemma match_Y_code l :
  Unicode.match_Y unicode_decimal (map N_of_ascii l)
  = option_map widen (match_Y l).
Proof.
  destruct l as [| a [| b [| c [| d l]]]];
    cbn [map Unicode.match_Y match_Y]; try reflexivity;
    rewrite ?todecimal_code;
    try (destruct (is_digit a); [| reflexivity]);
    try (destruct (is_digit b); [| reflexivity]);
    try (destruct (is_digit c); [| reflexivity]);
    try reflexivity.
  destruct (is_digit d); reflexivity.
Qed.

Lemma match_dash_code l :
  Unicode.match_dash (map N_of_ascii l)
  = option_map (map N_of_ascii) (match_dash l).
Proof.
  destruct l as [| c l]; cbn [map Unicode.match_dash match_dash];
    [reflexivity |].
  narrow_tests. destruct (Ascii.eqb c "-"); reflexivity.
Qed.

Lemma m_alternatives_code l :
  Unicode.m_alternatives (map N_of_ascii l)
  = map widen (m_alternatives l).
Proof.
  destruct l as [| a [| b l]];
    cbn [map Unicode.m_alternatives m_alternatives]; [reflexivity | |];
    narrow_tests.
  - destruct (in_range 49 57 a) eqn:Ha; [| reflexivity].
    apply in_range_spec in Ha. cbn [map fst snd].
    now rewrite value_code by lia.
  - rewrite !map_app.
    f_equal; [| f_equal].
    + destruct (Ascii.eqb a "1" && in_range 48 50 b) eqn:Ht; [| reflexivity].
      char_facts. cbn [map fst snd]. now rewrite value_code by lia.
    + destruct (Ascii.eqb a "0" && in_range 49 57 b) eqn:Ht; [| reflexivity].
      char_facts. cbn [map fst snd]. now rewrite value_code by lia.
    + destruct (in_range 49 57 a) eqn:Ha; [| reflexivity].
      apply in_range_spec in Ha. cbn [map fst snd].
      now rewrite value_code by lia.
Qed.

Lemma match_d_code l :
  Unicode.match_d unicode_decimal (map N_of_ascii l)
  = option_map widen (match_d l).
Proof.
  destruct l as [| a [| b l]];
    cbn [map Unicode.match_d match_d]; [reflexivity | |];
    rewrite ?todecimal_code; narrow_tests.
  - destruct (in_range 49 57 a) eqn:Ha; [| reflexivity].
    apply in_range_spec in Ha. cbn [option_map fst snd map].
    now rewrite value_code by lia.
  - destruct (Ascii.eqb a "3" && in_range 48 49 b) eqn:H1.
    { char_facts. cbn [option_map fst snd map].
      now rewrite value_code by lia. }
    destruct (in_range 49 50 a) eqn:H2; cbn [andb].
    { destruct (is_digit b) eqn:Hb.
      - apply in_range_spec in H2. cbn [option_map fst snd map].
        now rewrite value_code by lia.
      - destruct (Ascii.eqb a "0" && in_range 49 57 b) eqn:H3.
        { char_facts. change (code "0") with 48%nat in H2. lia. }
        destruct (in_range 49 57 a) eqn:H4.
        + apply in_range_spec in H4. cbn [option_map fst snd map].
          now rewrite value_code by lia.
        + apply in_range_spec in H2.
          assert (Ht : in_range 49 57 a = true)
            by (apply in_range_spec; lia).
          congruence. }
    destruct (Ascii.eqb a "0" && in_range 49 57 b) eqn:H3.
    { char_facts. cbn [option_map fst snd map].
      now rewrite value_code by lia. }
    destruct (in_range 49 57 a) eqn:H4.
    { apply in_range_spec in H4. cbn [option_map fst snd map].
      now rewrite value_code by lia. }
    destruct (Ascii.eqb a " " && in_range 49 57 b) eqn:H5; [| reflexivity].
    char_facts. cbn [option_map fst snd map].
    now rewrite value_code by lia.
Qed.

Lemma match_m_dash_d_code alts :
  Unicode.match_m_dash_d unicode_decimal (map widen alts)
  = option_map (fun r : Z * Z * list ascii =>
                  (fst r, map N_of_ascii (snd r)))
               (match_m_dash_d alts).
Proof.
  induction alts as [| [m after_m] alts IH];
    cbn [map Unicode.match_m_dash_d match_m_dash_d fst snd]; [reflexivity |].
  rewrite match_dash_code.
  destruct (match_dash after_m) as [after_dash |]; cbn [option_map];
    [| exact IH].
  rewrite match_d_code.
  destruct (match_d after_dash) as [[d rest] |]; cbn [option_map fst snd];
    [reflexivity | exact IH].
Qed.

Lemma regex_match_code l :
  Unicode.regex_match unicode_decimal (map N_of_ascii l)
  = option_map (fun r : Z * Z * Z * list ascii =>
                  (fst r, map N_of_ascii (snd r)))
               (regex_match l).
Proof.
  unfold Unicode.regex_match, regex_match. rewrite match_Y_code.
  destruct (match_Y l) as [[y after_y] |]; cbn [option_map fst snd];
    [| reflexivity].
  rewrite match_dash_code.
  destruct (match_dash after_y) as [after_dash |]; cbn [option_map];
    [| reflexivity].
  rewrite m_alternatives_code, match_m_dash_d_code.
  destruct (match_m_dash_d (m_alternatives after_dash)) as [[[m d] rest] |];
    reflexivity.
Qed.

Lemma strptime_code date_str :
  Unicode.strptime unicode_decimal (Unicode.of_string date_str)
  = match strptime date_str with
    | inl parsed => inl parsed
    | inr message => inr (Unicode.of_string message)
    end.
Proof.
  unfold Unicode.strptime, strptime.
  unfold Unicode.of_string at 1. rewrite regex_match_code.
  destruct (regex_match (list_ascii_of_string date_str))
    as [[[[y m] d] rest] |]; cbn [option_map fst snd].
  - destruct rest as [| c rest]; cbn [map].
    + destruct (y <? 1); [reflexivity |].
      destruct (days_in_month y m <? d); reflexivity.
    + rewrite of_string_app. unfold Unicode.of_string at 3.
      now rewrite list_ascii_of_string_of_list_ascii.
  - unfold py_repr, Unicode.py_repr. now rewrite !of_string_app.
Qed.

Lemma on_value_error_code message :
  Unicode.on_value_error (Unicode.of_string message)
  = match on_value_error message with
    | Valid date_obj => Unicode.Valid date_obj
    | RaisesValueError text =>
        Unicode.RaisesValueError (Unicode.of_string text)
    end.
Proof.
  unfold Unicode.on_value_error, on_value_error. rewrite contains_code.
  destruct (contains "time data" message); reflexivity.
Qed.

(** [validate_date] on a string of code points [0..255]. *)
Lemma validate_date_code date_str today :
  Unicode.validate_date unicode_decimal (Unicode.of_string date_str) today
  = match validate_date date_str today with
    | Valid date_obj => Unicode.Valid date_obj
    | RaisesValueError message =>
        Unicode.RaisesValueError (Unicode.of_string message)
    end.
Proof.
  unfold Unicode.validate_date, validate_date. rewrite strptime_code.
  destruct (strptime date_str) as [parsed | message].
  - destruct (date_gt _ today); [| reflexivity].
    apply (on_value_error_code "Date cannot be in the future").
  - apply on_value_error_code.
Qed.

(** *** The decoder on a string of code points [0..255] *)

Local Notation "'reads_as'" :=
  (Unicode.reads_as unicode_space unicode_decimal).
Local Notation "'transform'" :=
  (Unicode.transform unicode_space unicode_decimal).

Lemma literal_char_high a :
  literal_char a = true -> (127 <= code a)%nat ->
  is_space a = true /\ (code a = 133 \/ code a = 160)%nat.
Proof.
  intros Hlit Hhigh.
  assert (Hsp : is_space a = true).
  { unfold literal_char, is_hex, hex_value in Hlit.
    destruct (is_space a); [reflexivity |].
    destruct (is_digit a) eqn:Hd; [char_facts; lia |].
    destruct (in_range 97 102 a) eqn:Hl; [char_facts; lia |].
    destruct (in_range 65 70 a) eqn:Hu; [char_facts; lia |].
    cbn [orb] in Hlit.
    repeat (apply orb_true_iff in Hlit; destruct Hlit as [Hlit | Hlit]);
      apply Ascii.eqb_eq in Hlit; subst a; vm_compute in Hhigh; lia. }
  split; [exact Hsp |].
  unfold is_space in Hsp.
  repeat (apply orb_true_iff in Hsp; destruct Hsp as [Hsp | Hsp]).
  - apply in_range_spec in Hsp. lia.
  - apply Nat.eqb_eq in Hsp. lia.
  - apply Nat.eqb_eq in Hsp. auto.
  - apply Nat.eqb_eq in Hsp. auto.
Qed.

Lemma isspace_code a :
  (127 <= code a)%nat ->
  Unicode.isspace unicode_space (N_of_ascii a) = is_space a.
Proof.
  intros Hhigh. unfold Unicode.isspace, is_space.
  pose proof (N_ascii_bounded a) as Hbound.
  unfold code, nat_of_ascii in *.
  destruct (N.ltb_spec (N_of_ascii a) 128) as [Hlt | Hge].
  - assert (Ha : N_of_ascii a = 127%N) by lia.
    rewrite <- (ascii_N_embedding a), Ha. reflexivity.
  - rewrite latin1_space by lia.
    assert (Hr : in_range 9 13 a = false).
    { destruct (in_range 9 13 a) eqn:Hr; [| reflexivity].
      apply in_range_spec in Hr. unfold code, nat_of_ascii in Hr. lia. }
    rewrite Hr. cbn [orb].
    destruct (N.eqb_spec (N_of_ascii a) 133), (N.eqb_spec (N_of_ascii a) 160),
      (Nat.eqb_spec (N.to_nat (N_of_ascii a)) 32),
      (Nat.eqb_spec (N.to_nat (N_of_ascii a)) 133),
      (Nat.eqb_spec (N.to_nat (N_of_ascii a)) 160);
      try reflexivity; lia.
Qed.

(** A character of an 8-bit string is read as itself or, if it is white
    space, as a space. *)
Lemma reads_same a b : reads_as (N_of_ascii a) b -> same_reading a b.
Proof.
  intros [(_ & ->) | [(Hge & Hsp & ->) | (Hge & _ & v & Hv & _)]].
  - left. now rewrite ascii_N_embedding.
  - right. rewrite isspace_code in Hsp; [auto |].
    unfold code, nat_of_ascii. lia.
  - rewrite todecimal_code in Hv.
    destruct (is_digit a) eqn:Hd; [| discriminate].
    apply is_digit_spec in Hd. unfold code, nat_of_ascii in Hd. lia.
Qed.

Lemma reads_all_same l t :
  Forall2 reads_as (map N_of_ascii l) t -> Forall2 same_reading l t.
Proof.
  revert t. induction l as [| a l IH]; intros t H; inversion H; subst;
    constructor; [now apply reads_same | now apply IH].
Qed.

Lemma literal_chars_read l :
  literal_chars l ->
  exists t, Forall2 reads_as (map N_of_ascii l) t /\ Forall2 same_reading l t.
Proof.
  induction 1 as [| a l Ha _ (t & Hreads & Hsame)].
  - exists []. split; constructor.
  - destruct (Nat.ltb_spec (code a) 127) as [Hlow | Hhigh].
    + exists (a :: t). split; constructor; auto.
      * left. rewrite ascii_N_embedding. split; [| reflexivity].
        unfold code, nat_of_ascii in Hlow. lia.
      * now left.
    + destruct (literal_char_high a Ha Hhigh) as (Hsp & _).
      exists (" "%char :: t). split; constructor; auto.
      * right; left. rewrite isspace_code by exact Hhigh.
        unfold code, nat_of_ascii in Hhigh. repeat split; [lia | exact Hsp].
      * right. auto.
Qed.

Lemma int16_code s :
  Unicode.int16 unicode_space unicode_decimal (Unicode.of_string s)
  = int16 s.
Proof.
  unfold Unicode.int16.
  set (t := transform (Unicode.of_string s)).
  assert (Hiff : forall n,
             int16 (string_of_list_ascii t) = Some n <-> int16 s = Some n).
  { intros n. split; intros Hint.
    - pose proof (int16_literal _ _ Hint) as Hchars.
      pose proof (int16_sound _ _ Hint) as Hlit.
      rewrite list_ascii_of_string_of_list_ascii in Hchars, Hlit.
      apply transform_reads, reads_all_same in Hchars.
      apply int16_complete.
      apply (literal16_same _ _ n (same_readings_sym _ _ Hchars)), Hlit.
    - pose proof (int16_literal _ _ Hint) as Hchars.
      pose proof (int16_sound _ _ Hint) as Hlit.
      destruct (literal_chars_read _ Hchars) as (t' & Hreads & Hsame).
      apply reads_transform in Hreads. fold (Unicode.of_string s) in Hreads.
      fold t in Hreads. subst t'.
      apply int16_complete. rewrite list_ascii_of_string_of_list_ascii.
      apply (literal16_same _ _ n Hsame), Hlit. }
  destruct (int16 (string_of_list_ascii t)) as [n |].
  - symmetry. now apply Hiff.
  - destruct (int16 s) as [n |]; [| reflexivity].
    discriminate (proj2 (Hiff n) eq_refl).
Qed.

(** [decode_balance_result] on a string of code points [0..255]. *)
Lemma decode_balance_result_code result :
  Unicode.decode_balance_result unicode_space unicode_decimal
                                (Unicode.of_string result)
  = decode_balance_result result.
Proof.
  unfold Unicode.decode_balance_result, decode_balance_result.
  now rewrite of_string_0x, int16_code.
Qed.

End Latin1.

(** The part of the character database used in the examples has the
    stated content on the code points [128..255]. *)
Lemma sample_database_latin1 :
  (forall c, (128 <= c < 256)%N -> Unicode.sample_decimal c = None) /\
  (forall c, (128 <= c < 256)%N ->
             Unicode.sample_space c = ((c =? 133) || (c =? 160))%N).
Proof.
  split; intros c Hc.
  - unfold Unicode.sample_decimal.
    destruct (between_spec 1632 1641 c); [lia |].
    destruct (between_spec 65296 65305 c); [lia | reflexivity].
  - unfold Unicode.sample_space.
    destruct (N.eqb_spec c 8195); [lia |]. apply orb_false_r.
Qed.

(** So the date and the reply of the two counterexamples above are read
    in the same way as texts. *)
Lemma short_form_and_negative_reply_as_texts :
  Unicode.validate_date Unicode.sample_decimal
    (Unicode.of_string "2024-1-5") (mk_date 2024 6 15)
  = Unicode.Valid (mk_datetime (mk_date 2024 1 5) 0 0 0 (Some UTC)) /\
  Unicode.decode_balance_result Unicode.sample_space Unicode.sample_decimal
    (Unicode.of_string "-0x64")
  = Decoded (-100).
Proof.
  destruct sample_database_latin1 as (Hdecimal & Hspace).
  split.
  - now rewrite (validate_date_code _ Hdecimal).
  - now rewrite (decode_balance_result_code _ _ Hdecimal Hspace).
Qed.
